(** * ChatCloud backend: the gRPC chat server ([backend/server]) in Rocq

    A shallow embedding of [ChatCloudServer] and its four handlers
    ([JoinRoom], [SendMessage], [StreamMessages], [LeaveRoom]) together
    with [broadcastMessage], over explicit models of the three things the
    Go code talks to: the Redis client, Go's buffered channels, and the
    clock / uuid generator.

    - Redis is a record of finite maps (sets, lists, hashes) plus the
      pub/sub subscriptions; every command can fail, the failures are an
      input of each handler call.
    - A [chan *proto.Message] is a reference into a heap of channel
      objects, so that the registry, the stream loop and [LeaveRoom] can
      share (and close) the same channel.
    - [StreamMessages] is split at the points where it releases
      [roomStreamsMu] or waits in a [select]; the pieces are the steps of
      a small transition system over all open stream sessions.  Its
      ticker and the one-hour context of its listener run on the
      session's own clock.
    - [SendMessage] is split between its PUBLISH and [broadcastMessage],
      where it holds no lock and the listeners of the room may run.
    - Of the browser client, the message handlers that decide what a
      user sees of a stream: the keep-alive filter, the chat room's list
      of messages, and the topic messages of the word cloud. *)

From Stdlib Require Import ZArith String Ascii List Lia Bool.
From stdpp Require Import base option list gmap strings pretty fin_maps.

Local Open Scope string_scope.
Local Open Scope list_scope.
Local Open Scope nat_scope.

(** ** Wire messages ([proto.Message]) and gRPC status codes *)

Record Message := mkMessage {
  Id : string;
  UserId : string;
  RoomId : string;
  Content : string;
  Timestamp : Z
}.

#[global] Instance Message_eq_dec : EqDecision Message.
Proof. solve_decision. Defined.

Record JoinRoomRequest := mkJoinRoomRequest { jr_UserId : string; jr_RoomId : string }.
Record SendMessageRequest := mkSendMessageRequest {
  sm_UserId : string; sm_RoomId : string; sm_Content : string }.
Record StreamMessagesRequest := mkStreamMessagesRequest { st_UserId : string; st_RoomId : string }.
Record LeaveRoomRequest := mkLeaveRoomRequest { lr_UserId : string; lr_RoomId : string }.

Record JoinRoomResponse := mkJoinRoomResponse {
  jr_Success : bool; jr_RecentMessages : list Message }.
Record SendMessageResponse := mkSendMessageResponse {
  sm_Success : bool; sm_Message : Message }.
Record LeaveRoomResponse := mkLeaveRoomResponse { lr_Success : bool }.

#[global] Instance JoinRoomResponse_eq_dec : EqDecision JoinRoomResponse.
Proof. solve_decision. Defined.
#[global] Instance SendMessageResponse_eq_dec : EqDecision SendMessageResponse.
Proof. solve_decision. Defined.
#[global] Instance LeaveRoomResponse_eq_dec : EqDecision LeaveRoomResponse.
Proof. solve_decision. Defined.
#[global] Instance StreamMessagesRequest_eq_dec : EqDecision StreamMessagesRequest.
Proof. solve_decision. Defined.

(** The [codes] of google.golang.org/grpc that a handler could pick from;
    the server uses three of them. *)
Inductive code := InvalidArgument | NotFound | PermissionDenied | Internal | Unknown.

#[global] Instance code_eq_dec : EqDecision code.
Proof. solve_decision. Defined.

(** What a handler call ends in: a response, a [status.Error], or a Go
    panic that nothing recovers (which takes the process down). *)
Inductive outcome (A : Type) :=
| Ok (a : A)
| Error (c : code) (msg : string)
| Panic (reason : string).
Arguments Ok {A} a.
Arguments Error {A} c msg.
Arguments Panic {A} reason.

#[global] Instance outcome_eq_dec {A} `{EqDecision A} : EqDecision (outcome A).
Proof. solve_decision. Defined.

Definition is_panic {A} (o : outcome A) : bool :=
  match o with Panic _ => true | _ => false end.

(** ** The clock: [time.Time], [UnixNano], [Format]/[Parse] with [time.RFC3339]

    An instant is its number of nanoseconds since the Unix epoch.  The
    layout is rendered in UTC, as in the container image the server is
    built for. *)
Module Time.

Local Open Scope Z_scope.

Definition Millisecond : Z := 1000000.
Definition Second : Z := 1000000000.

(** int64 wrap-around (two's complement). *)
Definition wrap64 (z : Z) : Z := (z + 2 ^ 63) mod 2 ^ 64 - 2 ^ 63.

Definition UnixNano (t : Z) : Z := wrap64 t.

(** [t.UnixNano() / int64(time.Millisecond)]: Go's [/] truncates. *)
Definition unix_millis (t : Z) : Z := wrap64 (Z.quot (UnixNano t) Millisecond).

(** Days since 1970-01-01 to (year, month, day) and back, proleptic
    Gregorian calendar. *)
Definition civil_from_days (days : Z) : Z * Z * Z :=
  let z := days + 719468 in
  let era := z / 146097 in
  let doe := z - era * 146097 in
  let yoe := (doe - doe / 1460 + doe / 36524 - doe / 146096) / 365 in
  let y := yoe + era * 400 in
  let doy := doe - (365 * yoe + yoe / 4 - yoe / 100) in
  let mp := (5 * doy + 2) / 153 in
  let d := doy - (153 * mp + 2) / 5 + 1 in
  let m := if mp <? 10 then mp + 3 else mp - 9 in
  (if m <=? 2 then y + 1 else y, m, d).

Definition days_from_civil (y m d : Z) : Z :=
  let y := if m <=? 2 then y - 1 else y in
  let era := y / 400 in
  let yoe := y - era * 400 in
  let doy := (153 * (if 2 <? m then m - 3 else m + 9) + 2) / 5 + d - 1 in
  let doe := yoe * 365 + yoe / 4 - yoe / 100 + doy in
  era * 146097 + doe - 719468.

Definition digit (n : Z) : ascii := ascii_of_nat (48 + Z.to_nat (n mod 10)).

Definition pad2 (n : Z) : string :=
  String (digit (n / 10)) (String (digit n) EmptyString).

Definition pad4 (n : Z) : string :=
  String (digit (n / 1000)) (String (digit (n / 100)) (pad2 n)).

(** [t.Format(time.RFC3339)]: whole seconds, [2006-01-02T15:04:05Z]. *)
Definition Format (t : Z) : string :=
  let secs := t / Second in
  let days := secs / 86400 in
  let rem := secs mod 86400 in
  let '(y, m, d) := civil_from_days days in
  (pad4 y ++ "-" ++ pad2 m ++ "-" ++ pad2 d ++ "T" ++
   pad2 (rem / 3600) ++ ":" ++ pad2 (rem / 60 mod 60) ++ ":" ++ pad2 (rem mod 60) ++ "Z")%string.

Definition digit_val (c : ascii) : option Z :=
  let n := nat_of_ascii c in
  if (48 <=? n)%nat && (n <=? 57)%nat then Some (Z.of_nat (n - 48)) else None.

Fixpoint number (cs : list ascii) (acc : Z) : option Z :=
  match cs with
  | [] => Some acc
  | c :: cs' => match digit_val c with
                | Some v => number cs' (10 * acc + v)
                | None => None
                end
  end.

Definition is_char (c : ascii) (s : string) : bool :=
  if decide (String c EmptyString = s) then true else false.

Definition isLeap (year : Z) : bool :=
  (year mod 4 =? 0) && (negb (year mod 100 =? 0) || (year mod 400 =? 0)).

(** [daysIn(m, year)] of package [time]. *)
Definition daysIn (m year : Z) : Z :=
  if m =? 2 then (if isLeap year then 29 else 28)
  else if (m =? 4) || (m =? 6) || (m =? 9) || (m =? 11) then 30 else 31.

(** [time.Parse(time.RFC3339, s)] on the form that [Format] writes: UTC
    with a closing [Z], whole seconds, two digits for every field but the
    year.  On that form it is Go's parser, range checks and the check of
    the day against the month included.  It is a parse error on every
    other string.  For the empty string of a missing field that is what
    Go answers; but Go also reads a numeric zone offset in place of the
    [Z], a fraction after the seconds and an hour of one digit, none of
    which this server writes.  So what is proved of stored messages read
    back holds for stores whose timestamps are absent or were written by
    [Format]. *)
Definition Parse (s : string) : option Z :=
  match list_ascii_of_string s with
  | [y1; y2; y3; y4; s1; m1; m2; s2; d1; d2; t; h1; h2; c1; n1; n2; c2; e1; e2; z] =>
      if is_char s1 "-" && is_char s2 "-" && is_char t "T" &&
         is_char c1 ":" && is_char c2 ":" && is_char z "Z"
      then
        y ← number [y1; y2; y3; y4] 0;
        m ← number [m1; m2] 0;
        d ← number [d1; d2] 0;
        h ← number [h1; h2] 0;
        n ← number [n1; n2] 0;
        e ← number [e1; e2] 0;
        if (1 <=? m) && (m <=? 12) && (1 <=? d) && (d <=? daysIn m y) &&
           (h <? 24) && (n <? 60) && (e <? 60)
        then Some ((days_from_civil y m d * 86400 + h * 3600 + n * 60 + e) * Second)
        else None
      else None
  | _ => None
  end.

End Time.

(** ** The Redis client ([go-redis]): sets, lists, hashes and pub/sub *)
Module Redis.

(** A [*redis.PubSub]: the channel it listens on, the payloads Redis has
    delivered that the reader has not taken yet, and whether [Close] ran. *)
Record PubSub := mkPubSub {
  ps_channel : string;
  ps_pending : list string;
  ps_closed : bool
}.

#[global] Instance PubSub_eq_dec : EqDecision PubSub.
Proof. solve_decision. Defined.

Record db := mkDb {
  sets : gmap string (gset string);
  lists : gmap string (list string);
  hashes : gmap string (gmap string string);
  subs : list PubSub
}.

#[global] Instance db_eq_dec : EqDecision db.
Proof. solve_decision. Defined.

Definition empty : db := mkDb ∅ ∅ ∅ [].

Definition smembers (key : string) (d : db) : gset string := default ∅ (sets d !! key).
Definition lget (key : string) (d : db) : list string := default [] (lists d !! key).

(** SADD key member *)
Definition SAdd (key member : string) (d : db) : db :=
  mkDb (<[key := {[member]} ∪ smembers key d]> (sets d)) (lists d) (hashes d) (subs d).

(** SREM key member; Redis drops a key whose set became empty. *)
Definition SRem (key member : string) (d : db) : db :=
  let s := smembers key d ∖ {[member]} in
  mkDb (if decide (s = ∅) then delete key (sets d) else <[key := s]> (sets d))
       (lists d) (hashes d) (subs d).

(** SISMEMBER key member *)
Definition SIsMember (key member : string) (d : db) : bool :=
  bool_decide (member ∈ smembers key d).

(** LPUSH key value: the new element becomes the head. *)
Definition LPush (key value : string) (d : db) : db :=
  mkDb (sets d) (<[key := value :: lget key d]> (lists d)) (hashes d) (subs d).

(** The elements at indexes [start..stop] (both inclusive, from the head). *)
Definition slice (start stop : nat) (l : list string) : list string :=
  take (S stop - start) (drop start l).

(** LRANGE key start stop *)
Definition LRange (key : string) (start stop : nat) (d : db) : list string :=
  slice start stop (lget key d).

(** LTRIM key start stop *)
Definition LTrim (key : string) (start stop : nat) (d : db) : db :=
  let l := slice start stop (lget key d) in
  mkDb (sets d)
       (match l with [] => delete key (lists d) | _ => <[key := l]> (lists d) end)
       (hashes d) (subs d).

(** HSET key field value [field value ...] *)
Definition HSet (key : string) (fields : list (string * string)) (d : db) : db :=
  mkDb (sets d) (lists d)
       (<[key := list_to_map fields ∪ default ∅ (hashes d !! key)]> (hashes d)) (subs d).

(** HGETALL key: the empty map for a key that does not exist. *)
Definition HGetAll (key : string) (d : db) : gmap string string :=
  default ∅ (hashes d !! key).

Definition deliver (channel payload : string) (p : PubSub) : PubSub :=
  if bool_decide (ps_channel p = channel) && negb (ps_closed p)
  then mkPubSub (ps_channel p) (ps_pending p ++ [payload]) (ps_closed p)
  else p.

(** PUBLISH channel payload: handed to every open subscription of the channel. *)
Definition Publish (channel payload : string) (d : db) : db :=
  mkDb (sets d) (lists d) (hashes d) (deliver channel payload <$> subs d).

(** SUBSCRIBE channel: a new [PubSub], named by its position. *)
Definition Subscribe (channel : string) (d : db) : nat * db :=
  (length (subs d),
   mkDb (sets d) (lists d) (hashes d) (subs d ++ [mkPubSub channel [] false])).

Definition close_sub (p : PubSub) : PubSub := mkPubSub (ps_channel p) [] true.

(** [pubsub.Close()] *)
Definition Close (i : nat) (d : db) : db :=
  mkDb (sets d) (lists d) (hashes d) (alter close_sub i (subs d)).

(** The reader of [pubsub.Channel()] takes the oldest pending payload. *)
Definition take_pending (i : nat) (d : db) : option (string * db) :=
  match subs d !! i with
  | Some (mkPubSub c (x :: rest) false) =>
      Some (x, mkDb (sets d) (lists d) (hashes d) (<[i := mkPubSub c rest false]> (subs d)))
  | _ => None
  end.

End Redis.

(** ** Go's buffered channels *)
Module Chan.

Record chan := mkChan {
  ch_buf : list Message;
  ch_cap : nat;
  ch_closed : bool
}.

#[global] Instance chan_eq_dec : EqDecision chan.
Proof. solve_decision. Defined.

(** [make(chan *proto.Message, n)] *)
Definition make (n : nat) : chan := mkChan [] n false.

Inductive send_result :=
| Sent (c : chan)        (** the value is in the buffer *)
| WouldBlock             (** buffer full: the [default] case of a [select] runs *)
| SendOnClosed.          (** runtime panic: send on closed channel *)

(** [case ch <- m:] of a [select] that has a [default]. *)
Definition try_send (m : Message) (c : chan) : send_result :=
  if ch_closed c then SendOnClosed
  else if (length (ch_buf c) <? ch_cap c)%nat
       then Sent (mkChan (ch_buf c ++ [m]) (ch_cap c) false)
       else WouldBlock.

Inductive recv_result :=
| Received (m : Message) (c : chan)   (** [v, ok := <-ch] with [ok = true] *)
| ClosedEmpty                         (** [ok = false] *)
| NotReady.                           (** nothing buffered, channel open *)

(** A receive that does not wait.  A closed channel still hands out what
    is buffered. *)
Definition try_recv (c : chan) : recv_result :=
  match ch_buf c with
  | m :: rest => Received m (mkChan rest (ch_cap c) (ch_closed c))
  | [] => if ch_closed c then ClosedEmpty else NotReady
  end.

(** [close(ch)]; [None] is the runtime panic "close of closed channel". *)
Definition close (c : chan) : option chan :=
  if ch_closed c then None else Some (mkChan (ch_buf c) (ch_cap c) true).

End Chan.

Import Chan.

(** ** The server state and what a call leaves behind *)

(** [ChatCloudServer]: the Redis client, and [roomStreams], room -> user ->
    channel.  Channel values are references: [heap] holds the channel
    objects they point to.  ([roomStreamsMu] is the atomicity of the
    functions below: each one is a critical section of the source.) *)
Record ChatCloudServer := mkServer {
  rdb : Redis.db;
  heap : gmap nat chan;
  roomStreams : gmap string (gmap string nat)
}.

#[global] Instance ChatCloudServer_eq_dec : EqDecision ChatCloudServer.
Proof. solve_decision. Defined.

(** [NewChatCloudServer] *)
Definition NewChatCloudServer (d : Redis.db) : ChatCloudServer := mkServer d ∅ ∅.

(** What the environment decides for one handler call: the clock, the
    uuid, and which of the call's Redis commands fail ([true] at
    position [k]: the [k]-th command returns an error). *)
Record env := mkEnv {
  env_now : Z;
  env_uuid : string;
  env_faults : list bool
}.

Definition fails (e : env) (k : nat) : bool := default false (env_faults e !! k).

(** Lines of the server log that tell executions apart, and the two
    runtime events of [close]. *)
Inductive event :=
| LogStoreError (what : string)
| LogParseError
| LogFoundExisting (user room : string)
| LogRecoveredClosingExisting
| LogChannelWasAlreadyClosed
| LogRegistered (user room : string)
| LogClosing (user room : string)
| LogRecoveredClosing
| LogAlreadyClosed (user room : string)
| LogCleanedUp (user room : string)
| LogChannelFull
| LogChannelFullFor (user room : string)
| LogStreamEnd (what : string)
| EvClose (c : nat)
| EvCloseOfClosed (c : nat).

#[global] Instance event_eq_dec : EqDecision event.
Proof. solve_decision. Defined.

Definition result (A : Type) : Type := outcome A * ChatCloudServer * list event.

Definition with_rdb (d : Redis.db) (s : ChatCloudServer) : ChatCloudServer :=
  mkServer d (heap s) (roomStreams s).

Definition users_key (room : string) : string := "room:" +:+ room +:+ ":users".
Definition rooms_key (user : string) : string := "user:" +:+ user +:+ ":rooms".
Definition messages_key (room : string) : string := "room:" +:+ room +:+ ":messages".
Definition message_key (msgID : string) : string := "message:" +:+ msgID.
Definition room_channel (room : string) : string := "room:" +:+ room.

(** [msgMap["k"]] of a Go map: the empty string when the key is absent. *)
Definition field (m : gmap string string) (k : string) : string := default "" (m !! k).

(** A stored hash turned back into a [proto.Message]; [None] when the
    timestamp does not parse (the source logs and skips the message). *)
Definition resolve (msgID : string) (msgMap : gmap string string) : option Message :=
  timestamp ← Time.Parse (field msgMap "timestamp");
  Some (mkMessage msgID (field msgMap "user_id") (field msgMap "room_id")
                  (field msgMap "content") (Time.unix_millis timestamp)).

(** The loop of [JoinRoom] over [messageIDs]; [fs] are the outcomes of
    the successive HGETALL commands. *)
Fixpoint fetch_messages (d : Redis.db) (fs : list bool) (messageIDs : list string)
  : list Message * list event :=
  match messageIDs with
  | [] => ([], [])
  | msgID :: rest =>
      let '(ms, evs) := fetch_messages d (tail fs) rest in
      if default false (head fs) then (ms, LogStoreError "getting message details" :: evs)
      else match resolve msgID (Redis.HGetAll (message_key msgID) d) with
           | Some msg => (msg :: ms, evs)
           | None => (ms, LogParseError :: evs)
           end
  end.

(** [JoinRoom] *)
Definition JoinRoom (req : JoinRoomRequest) (e : env) (s : ChatCloudServer)
  : result JoinRoomResponse :=
  if decide (jr_UserId req = "") then (Error InvalidArgument "user_id is required", s, [])
  else if decide (jr_RoomId req = "") then (Error InvalidArgument "room_id is required", s, [])
  else if fails e 0
  then (Error Internal "failed to join room", s, [LogStoreError "adding user to room"])
  else
    let d1 := Redis.SAdd (users_key (jr_RoomId req)) (jr_UserId req) (rdb s) in
    if fails e 1
    then (Error Internal "failed to join room", with_rdb d1 s,
          [LogStoreError "adding room to user's rooms"])
    else
      let d2 := Redis.SAdd (rooms_key (jr_UserId req)) (jr_RoomId req) d1 in
      if fails e 2
      then (Error Internal "failed to get recent messages", with_rdb d2 s,
            [LogStoreError "getting recent messages"])
      else
        let messageIDs := Redis.LRange (messages_key (jr_RoomId req)) 0 49 d2 in
        let '(recentMessages, evs) := fetch_messages d2 (drop 3 (env_faults e)) messageIDs in
        (Ok (mkJoinRoomResponse true recentMessages), with_rdb d2 s, evs).

(** The [range] loop of [broadcastMessage] over the channels of a room.
    A channel reference that points nowhere is a nil channel: its send
    case is never ready. *)
Fixpoint send_all (msg : Message) (cs : list nat) (h : gmap nat chan)
  : outcome unit * gmap nat chan * list event :=
  match cs with
  | [] => (Ok (), h, [])
  | c :: rest =>
      match try_send msg <$> h !! c with
      | Some (Sent ch) => send_all msg rest (<[c := ch]> h)
      | Some WouldBlock | None =>
          let '(o, h', evs) := send_all msg rest h in (o, h', LogChannelFull :: evs)
      | Some SendOnClosed => (Panic "send on closed channel", h, [])
      end
  end.

(** The channels of a room, in the order the loop visits them.  (Go
    leaves the order of a [range] over a map open; this is one of them.) *)
Definition subscribers (room : string) (s : ChatCloudServer) : list (string * nat) :=
  map_to_list (default ∅ (roomStreams s !! room)).

(** [broadcastMessage] *)
Definition broadcastMessage (msg : Message) (s : ChatCloudServer) : result unit :=
  let '(o, h, evs) := send_all msg (snd <$> subscribers (RoomId msg) s) (heap s) in
  (o, mkServer (rdb s) h (roomStreams s), evs).

(** ** [SendMessage]

    Between its PUBLISH and its call of [broadcastMessage] the handler
    holds no lock, and the listener goroutines of the room's streams,
    which take none either, may already relay the message.  So the call
    is cut there: [SendMessage_publish] is the handler up to and with the
    PUBLISH, [SendMessage_broadcast] the rest of it. *)

(** [SendMessage] from its first line through the PUBLISH: the message
    made, stored, listed and announced. *)
Definition SendMessage_publish (req : SendMessageRequest) (e : env) (s : ChatCloudServer)
  : result Message :=
  if decide (sm_UserId req = "") then (Error InvalidArgument "user_id is required", s, [])
  else if decide (sm_RoomId req = "") then (Error InvalidArgument "room_id is required", s, [])
  else if decide (sm_Content req = "") then (Error InvalidArgument "content is required", s, [])
  else if fails e 0
  then (Error Internal "failed to send message", s,
        [LogStoreError "checking if user is in room"])
  else if negb (Redis.SIsMember (users_key (sm_RoomId req)) (sm_UserId req) (rdb s))
  then (Error PermissionDenied "user is not in the room", s, [])
  else
    let msgID := env_uuid e in
    let now := env_now e in
    let msg := mkMessage msgID (sm_UserId req) (sm_RoomId req) (sm_Content req)
                         (Time.unix_millis now) in
    if fails e 1
    then (Error Internal "failed to send message", s, [LogStoreError "storing message"])
    else
      let d1 := Redis.HSet (message_key msgID)
                  [("user_id", sm_UserId req); ("room_id", sm_RoomId req);
                   ("content", sm_Content req); ("timestamp", Time.Format now)] (rdb s) in
      if fails e 2
      then (Error Internal "failed to send message", with_rdb d1 s,
            [LogStoreError "adding message to room"])
      else
        let d2 := Redis.LPush (messages_key (sm_RoomId req)) msgID d1 in
        let '(d3, ev3) :=
          if fails e 3 then (d2, [LogStoreError "trimming message list"])
          else (Redis.LTrim (messages_key (sm_RoomId req)) 0 999 d2, []) in
        let '(d4, ev4) :=
          if fails e 4 then (d3, [LogStoreError "publishing message"])
          else (Redis.Publish (room_channel (sm_RoomId req)) msgID d3, []) in
        (Ok msg, with_rdb d4 s, ev3 ++ ev4).

(** The rest of [SendMessage]: [s.broadcastMessage(msg)], then the
    response. *)
Definition SendMessage_broadcast (msg : Message) (s : ChatCloudServer)
  : result SendMessageResponse :=
  let '(o, s', evb) := broadcastMessage msg s in
  (match o with
   | Ok _ => Ok (mkSendMessageResponse true msg)
   | Error c m => Error c m
   | Panic r => Panic r
   end, s', evb).

(** A whole call of [SendMessage] during which nothing else runs. *)
Definition SendMessage (req : SendMessageRequest) (e : env) (s : ChatCloudServer)
  : result SendMessageResponse :=
  match SendMessage_publish req e s with
  | (Ok msg, s1, evs) =>
      let '(o, s2, evb) := SendMessage_broadcast msg s1 in (o, s2, evs ++ evb)
  | (Error c m, s1, evs) => (Error c m, s1, evs)
  | (Panic r, s1, evs) => (Panic r, s1, evs)
  end.

(** The two statements that end a subscription in the registry:
    [delete(roomStreams[room], user)], then the room's map is dropped
    when it has become empty.  On a room that has no map both are no-ops. *)
Definition unregister (room user : string) (rs : gmap string (gmap string nat))
  : gmap string (gmap string nat) :=
  match rs !! room with
  | Some m =>
      let m' := delete user m in
      if decide (size m' = 0) then delete room rs else <[room := m']> rs
  | None => rs
  end.

(** [LeaveRoom] *)
Definition LeaveRoom (req : LeaveRoomRequest) (e : env) (s : ChatCloudServer)
  : result LeaveRoomResponse :=
  if decide (lr_UserId req = "") then (Error InvalidArgument "user_id is required", s, [])
  else if decide (lr_RoomId req = "") then (Error InvalidArgument "room_id is required", s, [])
  else if fails e 0
  then (Error Internal "failed to leave room", s, [LogStoreError "removing user from room"])
  else
    let d1 := Redis.SRem (users_key (lr_RoomId req)) (lr_UserId req) (rdb s) in
    if fails e 1
    then (Error Internal "failed to leave room", with_rdb d1 s,
          [LogStoreError "removing room from user's rooms"])
    else
      let d2 := Redis.SRem (rooms_key (lr_UserId req)) (lr_RoomId req) d1 in
      match roomStreams s !! lr_RoomId req ≫= (.!! lr_UserId req) with
      | Some msgChan =>
          match heap s !! msgChan ≫= close with
          | Some ch =>
              (Ok (mkLeaveRoomResponse true),
               mkServer d2 (<[msgChan := ch]> (heap s))
                        (unregister (lr_RoomId req) (lr_UserId req) (roomStreams s)),
               [EvClose msgChan])
          | None =>
              (Panic "close of closed channel", with_rdb d2 s, [EvCloseOfClosed msgChan])
          end
      | None =>
          (Ok (mkLeaveRoomResponse true),
           mkServer d2 (heap s) (unregister (lr_RoomId req) (lr_UserId req) (roomStreams s)),
           [])
      end.

(** ** [StreamMessages]

    The handler is long-lived; it is cut where the source releases the
    registry lock or waits: the entry (validation, membership check,
    registration under the lock, the Redis subscription), the first
    keep-alive, one round of the main [select] loop, one round of the
    listener goroutine, and the two halves of the deferred [cleanup]. *)

(** The "safe" close of the channel a user already has in the room. *)
Definition retire (existingChan : nat) (h : gmap nat chan) : gmap nat chan * list event :=
  match h !! existingChan with
  | Some ch =>
      match try_recv ch with
      | Received _ ch1 =>
          match close ch1 with
          | Some ch2 => (<[existingChan := ch2]> h, [EvClose existingChan])
          | None => (<[existingChan := ch1]> h,
                     [EvCloseOfClosed existingChan; LogRecoveredClosingExisting])
          end
      | ClosedEmpty => (h, [])
      | NotReady =>
          match close ch with
          | Some ch1 => (<[existingChan := ch1]> h, [EvClose existingChan])
          | None => (h, [EvCloseOfClosed existingChan; LogChannelWasAlreadyClosed])
          end
      end
  | None => (h, [LogChannelWasAlreadyClosed])
  end.

(** [msgChan := make(chan *proto.Message, 200)] and the critical section
    that stores it in [roomStreams]. *)
Definition register (room user : string) (s : ChatCloudServer)
  : nat * ChatCloudServer * list event :=
  let msgChan := fresh (dom (heap s)) in
  let h0 := <[msgChan := make 200]> (heap s) in
  let rs0 := match roomStreams s !! room with
             | Some _ => roomStreams s
             | None => <[room := ∅]> (roomStreams s)
             end in
  let users := default ∅ (rs0 !! room) in
  let '(h1, evs) :=
    match users !! user with
    | Some existingChan =>
        let '(h, ev) := retire existingChan h0 in (h, LogFoundExisting user room :: ev)
    | None => (h0, [])
    end in
  (msgChan,
   mkServer (rdb s) h1 (<[room := <[user := msgChan]> users]> rs0),
   evs ++ [LogRegistered user room]).

Inductive phase :=
| Registered      (** registered and subscribed, first keep-alive not sent yet *)
| Streaming       (** in the main loop *)
| Returned        (** the loop is left, [cleanup] has not taken the lock yet *)
| Unregistered    (** [cleanup] has released the lock, [msgChan] not closed yet *)
| Finished.

#[global] Instance phase_eq_dec : EqDecision phase.
Proof. solve_decision. Defined.

(** The local variables of one [StreamMessages] call. *)
Record session := mkSession {
  ss_req : StreamMessagesRequest;
  msgChan : nat;
  closed : bool;               (** the flag [closed] guarded by [closeMutex] *)
  pubsub : nat;
  redisErr : bool;             (** [redisErrChan] holds an error *)
  ss_phase : phase;
  sent : list Message;         (** what [stream.Send] has written, oldest first *)
  ret : option (outcome unit); (** the handler's return value *)
  started : Z;                 (** the instant of the entry, at which [redisCtx] and
                                   [keepAliveTicker] are made *)
  ticked : Z;                  (** the instant [keepAliveTicker.C] was last emptied *)
  listening : bool             (** the listener goroutine has not returned *)
}.

#[global] Instance session_eq_dec : EqDecision session.
Proof. solve_decision. Defined.

(** [keepAliveMsg], with the timestamp of the moment it is sent. *)
Definition keepAliveMsg (req : StreamMessagesRequest) (now : Z) : Message :=
  mkMessage "keep-alive" (st_UserId req) (st_RoomId req) "" (Time.unix_millis now).

(** The period of [keepAliveTicker]. *)
Definition keepAliveInterval : Z := (10 * Time.Second)%Z.

(** The lifetime of [redisCtx]: [context.WithTimeout(.., 1*time.Hour)]. *)
Definition redisTimeout : Z := (3600 * Time.Second)%Z.

(** [keepAliveTicker.C] holds a tick at [now].  The ticker fires at
    [started + k * keepAliveInterval], [k = 1, 2, ...]; its channel has
    room for one tick and a tick that finds it full is dropped.  So a
    tick is waiting exactly when the ticker has fired since the channel
    was last emptied. *)
Definition tick_due (ss : session) (now : Z) : bool :=
  ((ticked ss - started ss) / keepAliveInterval <? (now - started ss) / keepAliveInterval)%Z.

(** [redisCtx.Done()] is ready at [now]. *)
Definition redisCtx_done (ss : session) (now : Z) : bool :=
  (started ss + redisTimeout <=? now)%Z.

(** [StreamMessages] up to the start of the listener goroutine. *)
Definition StreamMessages_open (req : StreamMessagesRequest) (e : env) (s : ChatCloudServer)
  : result session :=
  if decide (st_UserId req = "") then (Error InvalidArgument "user_id is required", s, [])
  else if decide (st_RoomId req = "") then (Error InvalidArgument "room_id is required", s, [])
  else if fails e 0
  then (Error Internal "failed to stream messages", s,
        [LogStoreError "checking if user is in room"])
  else if negb (Redis.SIsMember (users_key (st_RoomId req)) (st_UserId req) (rdb s))
  then (Error PermissionDenied "user is not in the room", s, [])
  else
    let '(c, s1, evs) := register (st_RoomId req) (st_UserId req) s in
    let '(p, d) := Redis.Subscribe (room_channel (st_RoomId req)) (rdb s1) in
    (Ok (mkSession req c false p false Registered [] None (env_now e) (env_now e) true),
     with_rdb d s1, evs).

(** What the scheduler and the outside world can make a session do
    next.  [now] is the instant at which it happens, [send_ok] whether
    the transport takes the message, [fault] whether HGETALL fails. *)
Inductive action :=
| InitialKeepAlive (now : Z) (send_ok : bool)
| CtxDone                           (** the loop takes [<-ctx.Done()] *)
| RedisErr                          (** the loop takes [<-redisErrChan] *)
| Receive (send_ok : bool)          (** the loop takes [<-msgChan] *)
| Tick (now : Z) (send_ok : bool)   (** the loop takes [<-keepAliveTicker.C] *)
| Listen (now : Z) (fault : bool)   (** the listener takes [<-ch] *)
| RedisCtxDone (now : Z)            (** the listener takes [<-redisCtx.Done()] *)
| CleanupUnregister
| CleanupClose.

(** The loop takes the tick that waits in [keepAliveTicker.C]. *)
Definition take_tick (now : Z) (ss : session) : session :=
  mkSession (ss_req ss) (msgChan ss) (closed ss) (pubsub ss) (redisErr ss) (ss_phase ss)
            (sent ss) (ret ss) (started ss) now (listening ss).

(** The listener goroutine returns. *)
Definition stop_listening (ss : session) : session :=
  mkSession (ss_req ss) (msgChan ss) (closed ss) (pubsub ss) (redisErr ss) (ss_phase ss)
            (sent ss) (ret ss) (started ss) (ticked ss) false.

Definition set_run (ss : session) (ph : phase) (out : list Message) : session :=
  mkSession (ss_req ss) (msgChan ss) (closed ss) (pubsub ss) (redisErr ss) ph out (ret ss)
            (started ss) (ticked ss) (listening ss).

(** Leaving the handler: the return value is fixed, and the deferred
    [pubsub.Close()] and [redisCancel()] run before [cleanup]. *)
Definition leave (r : outcome unit) (ss : session) (s : ChatCloudServer)
  : session * ChatCloudServer :=
  (mkSession (ss_req ss) (msgChan ss) (closed ss) (pubsub ss) (redisErr ss) Returned
             (sent ss) (Some r) (started ss) (ticked ss) (listening ss),
   with_rdb (Redis.Close (pubsub ss) (rdb s)) s).

(** [stream.Send(m)]: written on success, otherwise the handler returns
    the transport's error. *)
Definition stream_send (m : Message) (send_ok : bool) (ss : session) (s : ChatCloudServer)
  : session * ChatCloudServer :=
  if send_ok then (set_run ss Streaming (sent ss ++ [m]), s)
  else leave (Error Unknown "transport") ss s.

(** One round of the listener goroutine. *)
Definition listen (fault : bool) (ss : session) (s : ChatCloudServer)
  : session * ChatCloudServer * list event :=
  match Redis.take_pending (pubsub ss) (rdb s) with
  | None => (ss, s, [])
  | Some (msgID, d) =>
      let s := with_rdb d s in
      if fault then (ss, s, [LogStoreError "getting message details"])
      else match resolve msgID (Redis.HGetAll (message_key msgID) d) with
           | None => (ss, s, [LogParseError])
           | Some protoMsg =>
               match try_send protoMsg <$> heap s !! msgChan ss with
               | Some (Sent ch) =>
                   (ss, mkServer (rdb s) (<[msgChan ss := ch]> (heap s)) (roomStreams s), [])
               | Some WouldBlock | None =>
                   (ss, s, [LogChannelFullFor (st_UserId (ss_req ss)) (st_RoomId (ss_req ss))])
               | Some SendOnClosed =>
                   (mkSession (ss_req ss) (msgChan ss) (closed ss) (pubsub ss) true
                              (ss_phase ss) (sent ss) (ret ss) (started ss) (ticked ss) false,
                    s, [])
               end
           end
  end.

(** The body of [cleanup] after the registry lock is released. *)
Definition cleanup_close (ss : session) (s : ChatCloudServer)
  : session * ChatCloudServer * list event :=
  let user := st_UserId (ss_req ss) in
  let room := st_RoomId (ss_req ss) in
  let done := mkSession (ss_req ss) (msgChan ss) true (pubsub ss) (redisErr ss) Finished
                        (sent ss) (ret ss) (started ss) (ticked ss) (listening ss) in
  if closed ss then (done, s, [LogAlreadyClosed user room; LogCleanedUp user room])
  else match heap s !! msgChan ss ≫= close with
       | Some ch =>
           (done, mkServer (rdb s) (<[msgChan ss := ch]> (heap s)) (roomStreams s),
            [LogClosing user room; EvClose (msgChan ss); LogCleanedUp user room])
       | None =>
           (done, s, [LogClosing user room; EvCloseOfClosed (msgChan ss); LogRecoveredClosing])
       end.

(** One step of a session.  A case of a [select] can be taken only when
    it is ready: a tick only when one waits in the ticker's channel, the
    listener's [<-redisCtx.Done()] only when the hour is over; a step
    that is not enabled changes nothing.  Once [redisCtx] has expired the
    listener may still take a payload (a [select] with two ready cases
    takes either), but the HGETALL it then issues with that context
    fails.  The listener's return on [<-ctx.Done()] in its inner
    [select] is not a step of its own: it only ends the listener's
    rounds, as in the runs where none is scheduled any more. *)
Definition session_step (a : action) (ss : session) (s : ChatCloudServer)
  : session * ChatCloudServer * list event :=
  match a, ss_phase ss with
  | InitialKeepAlive now send_ok, Registered =>
      (stream_send (keepAliveMsg (ss_req ss) now) send_ok ss s, [])
  | CtxDone, Streaming => (leave (Ok ()) ss s, [LogStreamEnd "Stream context done"])
  | RedisErr, Streaming =>
      if redisErr ss
      then (leave (Error Internal "redis subscription error") ss s, [LogStreamEnd "Redis error"])
      else (ss, s, [])
  | Receive send_ok, Streaming =>
      match try_recv <$> heap s !! msgChan ss with
      | Some (Received msg ch) =>
          (stream_send msg send_ok ss
             (mkServer (rdb s) (<[msgChan ss := ch]> (heap s)) (roomStreams s)), [])
      | Some ClosedEmpty => (leave (Ok ()) ss s, [LogStreamEnd "Message channel closed"])
      | Some NotReady | None => (ss, s, [])
      end
  | Tick now send_ok, Streaming =>
      if tick_due ss now
      then (stream_send (keepAliveMsg (ss_req ss) now) send_ok (take_tick now ss) s, [])
      else (ss, s, [])
  | Listen now fault, (Registered | Streaming) =>
      if redisErr ss || negb (listening ss) then (ss, s, [])
      else listen (fault || redisCtx_done ss now) ss s
  | RedisCtxDone now, (Registered | Streaming) =>
      if listening ss && redisCtx_done ss now then (stop_listening ss, s, []) else (ss, s, [])
  | CleanupUnregister, Returned =>
      (mkSession (ss_req ss) (msgChan ss) (closed ss) (pubsub ss) (redisErr ss) Unregistered
                 (sent ss) (ret ss) (started ss) (ticked ss) (listening ss),
       mkServer (rdb s) (heap s)
                (unregister (st_RoomId (ss_req ss)) (st_UserId (ss_req ss)) (roomStreams s)),
       [])
  | CleanupClose, Unregistered => cleanup_close ss s
  | _, _ => (ss, s, [])
  end.

(** ** The whole server: every open session next to the shared state *)
Record world := mkWorld {
  srv : ChatCloudServer;
  sessions : list session;
  trace : list event;
  crashed : bool;           (** a panic left a handler *)
  inflight : list Message   (** the calls of [SendMessage] that have published
                                and not yet broadcast, with their message *)
}.

(** The process right after [NewChatCloudServer], on a store that may
    already hold rooms and messages. *)
Definition start (d : Redis.db) : world := mkWorld (NewChatCloudServer d) [] [] false [].

Definition init : world := start Redis.empty.

(** The steps of the server.  [OpPublish] and [OpBroadcast] are the two
    halves of a SendMessage call, between which anything may run;
    [OpSendMessage] is a call during which nothing else runs.  The loop
    of [broadcastMessage] is one step: it holds the read lock against
    the handlers that change the registry, and the goroutines that take
    no lock touch one channel each, which the loop visits once. *)
Inductive op :=
| OpJoinRoom (req : JoinRoomRequest) (e : env)
| OpSendMessage (req : SendMessageRequest) (e : env)
| OpPublish (req : SendMessageRequest) (e : env)
| OpBroadcast (k : nat)   (** of the call that is [k]-th in flight *)
| OpLeaveRoom (req : LeaveRoomRequest) (e : env)
| OpStreamMessages (req : StreamMessagesRequest) (e : env)
| OpSession (i : nat) (a : action).

Definition after {A} (r : result A) (w : world) : world :=
  let '(o, s, evs) := r in
  mkWorld s (sessions w) (trace w ++ evs) (is_panic o) (inflight w).

Definition step (o : op) (w : world) : world :=
  if crashed w then w
  else match o with
       | OpJoinRoom req e => after (JoinRoom req e (srv w)) w
       | OpSendMessage req e => after (SendMessage req e (srv w)) w
       | OpPublish req e =>
           match SendMessage_publish req e (srv w) with
           | (Ok msg, s, evs) =>
               mkWorld s (sessions w) (trace w ++ evs) false (inflight w ++ [msg])
           | (_, s, evs) => mkWorld s (sessions w) (trace w ++ evs) false (inflight w)
           end
       | OpBroadcast k =>
           match inflight w !! k with
           | Some msg =>
               let '(o, s, evs) := SendMessage_broadcast msg (srv w) in
               mkWorld s (sessions w) (trace w ++ evs) (is_panic o) (delete k (inflight w))
           | None => w
           end
       | OpLeaveRoom req e => after (LeaveRoom req e (srv w)) w
       | OpStreamMessages req e =>
           match StreamMessages_open req e (srv w) with
           | (Ok ss, s, evs) => mkWorld s (sessions w ++ [ss]) (trace w ++ evs) false (inflight w)
           | (_, s, evs) => mkWorld s (sessions w) (trace w ++ evs) false (inflight w)
           end
       | OpSession i a =>
           match sessions w !! i with
           | Some ss =>
               let '(ss', s, evs) := session_step a ss (srv w) in
               mkWorld s (<[i := ss']> (sessions w)) (trace w ++ evs) false (inflight w)
           | None => w
           end
       end.

Definition run (ops : list op) (w : world) : world := foldl (fun w o => step o w) w ops.

(** * The browser client ([frontend/src/chatCloudService.js], [ChatRoom.vue])

    The parts of the client that decide what a user sees of the server's
    stream.  JavaScript strings are modelled for ASCII text; a number is
    an integer or NaN. *)
Module Client.

(** A JavaScript number: an integer, or [NaN] ([None]).  The model is
    exact on the safe integers, the ones a double holds exactly and
    prints in decimal. *)
Definition number : Type := option Z.

(** [Number.isSafeInteger(n)] *)
Definition isSafeInteger (n : number) : bool :=
  match n with Some z => (Z.abs z <? 2 ^ 53)%Z | None => false end.

(** [`${n}`] of a template literal. *)
Definition toString (n : number) : string :=
  match n with Some z => pretty z | None => "NaN" end.

(** [s.startsWith(p)] *)
Fixpoint startsWith (s p : string) {struct p} : bool :=
  match p, s with
  | EmptyString, _ => true
  | String a p', String b s' => bool_decide (a = b) && startsWith s' p'
  | String _ _, EmptyString => false
  end.

(** [s.split(sep)] for a one-character separator. *)
Fixpoint split (sep : ascii) (s : string) : list string :=
  match s with
  | EmptyString => [EmptyString]
  | String c rest =>
      if decide (c = sep) then EmptyString :: split sep rest
      else match split sep rest with
           | p :: ps => String c p :: ps
           | [] => [String c EmptyString]
           end
  end.

Definition isWhiteSpace (c : ascii) : bool :=
  let n := nat_of_ascii c in (n =? 32) || ((9 <=? n) && (n <=? 13)).

Fixpoint trimStart (s : string) : string :=
  match s with
  | String c rest => if isWhiteSpace c then trimStart rest else s
  | EmptyString => EmptyString
  end.

(** The value of the longest prefix of decimal digits, [acc] when the
    first character is no digit. *)
Fixpoint digits (s : string) (acc : number) : number :=
  match s with
  | String c rest =>
      match Time.digit_val c with
      | Some v => digits rest (Some (10 * default 0 acc + v)%Z)
      | None => acc
      end
  | EmptyString => acc
  end.

(** [parseInt(s, 10)]: leading white space, an optional sign, then as
    many digits as there are; [NaN] without a digit. *)
Definition parseInt (s : string) : number :=
  match trimStart s with
  | String c rest =>
      if decide (c = "-"%char) then Z.opp <$> digits rest None
      else if decide (c = "+"%char) then digits rest None
      else digits (String c rest) None
  | EmptyString => None
  end.

(** A topic of the word cloud, and a topic as the stream hands it on. *)
Record Topic := mkTopic { tp_text : string; tp_roomId : string; tp_size : number }.

Record TopicUpdate := mkTopicUpdate {
  tu_text : string;
  tu_roomId : string;
  tu_size : number;
  tu_createdBy : string;
  tu_timestamp : Z
}.

(** [shareTopic]: the SendMessage request it makes. *)
Definition shareTopic (userId : string) (topic : Topic) : SendMessageRequest :=
  mkSendMessageRequest userId "global-topics"
    ("TOPIC:" +:+ tp_text topic +:+ ":" +:+ tp_roomId topic +:+ ":" +:+ toString (tp_size topic)).

(** The handler [streamMessages] installs with [onMessage]: what it
    passes to the caller's callback. *)
Definition streamMessages (cancelled : bool) (message : Message) : option Message :=
  if cancelled then None
  else if decide (Id message = "keep-alive") then None
  else Some message.

(** The callback of [streamTopicUpdates]: the topic passed to
    [onTopicUpdate], if any. *)
Definition streamTopicUpdates (message : Message) : option TopicUpdate :=
  if negb (bool_decide (Content message = "")) && startsWith (Content message) "TOPIC:"
  then match split ":" (Content message) with
       | _ :: text :: roomId :: size :: _ =>
           Some (mkTopicUpdate text roomId (parseInt size) (UserId message) (Timestamp message))
       | _ => None
       end
  else None.

(** The callback [ChatRoom.vue] gives to [streamMessages]. *)
Definition push (messages : list Message) (message : Message) : list Message :=
  if existsb (λ m, bool_decide (Id m = Id message)) messages then messages
  else messages ++ [message].

(** [messages] of [ChatRoom.vue] after JoinRoom answered [recentMessages]
    and the stream delivered [stream], oldest first. *)
Definition messages (recentMessages stream : list Message) : list Message :=
  foldl (λ ms message, from_option (push ms) ms (streamMessages false message))
        recentMessages stream.

End Client.

(** * What the properties are stated with *)

(** A key in the state SREM leaves it in: absent, or a non-empty set
    without the member. *)
Definition removed (k m : string) (d : Redis.db) : Prop :=
  match Redis.sets d !! k with
  | Some s => s ≠ ∅ ∧ m ∉ s
  | None => True
  end.

(** Whether a channel reference points to a closed channel. *)
Definition closedness (h : gmap nat chan) (c : nat) : option bool := ch_closed <$> h !! c.

Definition reg_lookup (rs : gmap string (gmap string nat)) (room user : string) : option nat :=
  rs !! room ≫= (.!! user).

(** No room of the registry is left with an empty map. *)
Definition rooms_nonempty (rs : gmap string (gmap string nat)) : Prop :=
  ∀ r m, rs !! r = Some m → m ≠ ∅.

(** The channels on which a [close] went through, in order. *)
Definition closes (evs : list event) : list nat :=
  omap (λ ev, match ev with EvClose c => Some c | _ => None end) evs.

(** The channels on which a [close] hit an already closed channel. *)
Definition failed_closes (evs : list event) : list nat :=
  omap (λ ev, match ev with EvCloseOfClosed c => Some c | _ => None end) evs.

(** Every registered channel is open. *)
Definition registry_live (s : ChatCloudServer) : Prop :=
  ∀ r u c, reg_lookup (roomStreams s) r u = Some c → closedness (heap s) c = Some false.

(** No channel is registered under two keys. *)
Definition registry_inj (s : ChatCloudServer) : Prop :=
  ∀ r u r' u' c,
    reg_lookup (roomStreams s) r u = Some c → reg_lookup (roomStreams s) r' u' = Some c →
    r = r' ∧ u = u'.

(** Two server states with the same registry and the same open/closed
    status of every channel (buffers and the store may differ). *)
Definition same_shape (s s' : ChatCloudServer) : Prop :=
  roomStreams s' = roomStreams s ∧ ∀ c, closedness (heap s') c = closedness (heap s) c.

Definition running : list phase := [Registered; Streaming; Returned].

(** A session's channel exists, and while it is in the registry it is
    there under the session's own (room, user) and [cleanup] has not
    passed the registry yet. *)
Definition sess_ok (s : ChatCloudServer) (ss : session) : Prop :=
  is_Some (closedness (heap s) (msgChan ss)) ∧
  ∀ r u, reg_lookup (roomStreams s) r u = Some (msgChan ss) →
         r = st_RoomId (ss_req ss) ∧ u = st_UserId (ss_req ss) ∧ ss_phase ss ∈ running.

Record inv (w : world) : Prop := mkInv {
  inv_alive : crashed w = false;
  inv_live : registry_live (srv w);
  inv_inj : registry_inj (srv w);
  inv_rooms : rooms_nonempty (roomStreams (srv w));
  inv_sess : Forall (sess_ok (srv w)) (sessions w);
  inv_once : NoDup (closes (trace w));
  inv_closed : ∀ c, c ∈ closes (trace w) → closedness (heap (srv w)) c = Some true
}.

(** The steps of a session that leave the registry alone. *)
Definition local (a : action) : Prop :=
  match a with CleanupUnregister | CleanupClose => False | _ => True end.

(** What one non-blocking send does to an open channel. *)
Definition offer (msg : Message) (ch : chan) : chan :=
  if length (ch_buf ch) <? ch_cap ch then mkChan (ch_buf ch ++ [msg]) (ch_cap ch) false else ch.

(** The channel has no room (a nil channel never has). *)
Definition blocked (h : gmap nat chan) (c : nat) : bool :=
  match h !! c with
  | Some ch => negb (length (ch_buf ch) <? ch_cap ch)
  | None => true
  end.

(** The subscribers of a room whose channel has no room for a message. *)
Definition slow_subscribers (room : string) (s : ChatCloudServer) : list nat :=
  filter (λ c, blocked (heap s) c = true) (snd <$> subscribers room s).

Definition session_steps (acts : list action) (ss : session) (s : ChatCloudServer)
  : session * ChatCloudServer * list event :=
  foldl (λ st a, let '(ss', s', evs') := session_step a st.1.1 st.1.2 in
                 (ss', s', st.2 ++ evs'))
        (ss, s, []) acts.

(** The instants at which [keepAliveTicker], made at [start], fires. *)
Definition tick_times (start : Z) (n : nat) : list Z :=
  (λ k, (start + Z.of_nat k * keepAliveInterval)%Z) <$> seq 1 n.

(** A stream on which nothing happens but the ticker, the transport
    taking every message. *)
Definition quiet (start : Z) (n : nat) : list action :=
  InitialKeepAlive start true :: ((λ t, Tick t true) <$> tick_times start n).

Definition is_keep_alive (req : StreamMessagesRequest) (m : Message) : Prop :=
  Id m = "keep-alive" ∧ Content m = "" ∧
  UserId m = st_UserId req ∧ RoomId m = st_RoomId req.

(** Nothing is written before the first keep-alive, the loop runs only
    after it, and it stays the first message written. *)
Definition keep_alive_first (ss : session) : Prop :=
  (ss_phase ss = Registered → sent ss = []) ∧
  (ss_phase ss = Streaming → sent ss ≠ []) ∧
  (∀ m, head (sent ss) = Some m → is_keep_alive (ss_req ss) m).

(** ** For the further properties *)

(** The hash fields [SendMessage] writes for a message. *)
Definition message_fields (req : SendMessageRequest) (now : Z) : list (string * string) :=
  [("user_id", sm_UserId req); ("room_id", sm_RoomId req);
   ("content", sm_Content req); ("timestamp", Time.Format now)].

(** A message as the history gives it back: the timestamp has whole
    seconds only. *)
Definition stored_message (req : SendMessageRequest) (e : env) : Message :=
  mkMessage (env_uuid e) (sm_UserId req) (sm_RoomId req) (sm_Content req)
            (env_now e / Time.Second * 1000)%Z.

(** A channel made by [StreamMessages]: capacity 200, never more buffered. *)
Definition chan_bounded (ch : chan) : Prop := ch_cap ch = 200 ∧ length (ch_buf ch) ≤ 200.

Definition heap_bounded (h : gmap nat chan) : Prop :=
  ∀ c ch, h !! c = Some ch → chan_bounded ch.



(** Every timestamp in the store is one [SendMessage] can have written:
    its hash has none, or has the [Format] of a send instant. *)
Definition timestamps_written (d : Redis.db) : Prop :=
  map_Forall (λ _ (h : gmap string string),
                field h "timestamp" = "" ∨
                ∃ t, (0 ≤ t < 2 ^ 63)%Z ∧ field h "timestamp" = Time.Format t)
             (Redis.hashes d).

(** The [closed] flag of a stream is set only by its cleanup, and a
    stream whose cleanup has run has a closed channel. *)
Definition ended_ok (s : ChatCloudServer) (ss : session) : Prop :=
  (ss_phase ss ≠ Finished → closed ss = false) ∧
  (ss_phase ss = Finished → closedness (heap s) (msgChan ss) = Some true).

(** The string has the character. *)
Fixpoint contains (c : ascii) (s : string) : bool :=
  match s with
  | EmptyString => false
  | String c' rest => bool_decide (c' = c) || contains c rest
  end.

(** Checks by enumeration, for the calendar and for the two- and
    four-digit fields of the RFC3339 layout: [f] holds at [k], [k + 1],
    ..., [k + n - 1]. *)
Fixpoint all_from (n : nat) (k : Z) (f : Z → bool) : bool :=
  match n with
  | 0 => true
  | S n' => f k && all_from n' (k + 1)%Z f
  end.

Definition opt_is (o : option Z) (n : Z) : bool :=
  match o with Some v => (v =? n)%Z | None => false end.

Definition two_digits_ok (n : Z) : bool :=
  opt_is (Time.number [Time.digit (n / 10); Time.digit n] 0) n.

Definition four_digits_ok (n : Z) : bool :=
  opt_is (Time.number [Time.digit (n / 1000); Time.digit (n / 100);
                       Time.digit (n / 10); Time.digit n] 0) n.

(** The day [doe] of a 400-year era (day 0 is March 1st of the era's
    first year) comes back from its calendar date, and the date is well
    formed. *)
Definition era_day_ok (doe : Z) : bool :=
  let '(y, m, d) := Time.civil_from_days (doe - 719468) in
  let y' := (if m <=? 2 then y - 1 else y)%Z in
  ((0 <=? y') && (y' <? 400) && (1 <=? m) && (m <=? 12) && (1 <=? d) &&
   (d <=? Time.daysIn m y) && (Time.days_from_civil y m d =? doe - 719468))%Z.

(** * Scenarios: concrete requests and runs *)

Definition t0 : Z := 1762093845123456789.

Definition join (user room : string) : op :=
  OpJoinRoom (mkJoinRoomRequest user room) (mkEnv t0 "" []).

Definition send_at (user room content msgID : string) (now : Z) (faults : list bool) : op :=
  OpSendMessage (mkSendMessageRequest user room content) (mkEnv now msgID faults).

(** A room whose list already holds 1000 IDs (["m999"] the newest, ["m0"]
    the oldest), with alice as its only member and nobody streaming. *)
Definition full_history : ChatCloudServer :=
  mkServer
    (Redis.mkDb {[users_key "weather" := {["alice"]}]}
                {[messages_key "weather" := (λ i, "m" +:+ pretty i) <$> reverse (seq 0 1000)]}
                ∅ [])
    ∅ ∅.

(** alice joins "weather" and sends "first", then, a second later, "second". *)
Definition two_messages : world :=
  run [join "alice" "weather";
       send_at "alice" "weather" "first" "m0" t0 [];
       send_at "alice" "weather" "second" "m1" (t0 + Time.Second)%Z []] init.

Definition stream (user room : string) : op :=
  OpStreamMessages (mkStreamMessagesRequest user room) (mkEnv t0 "" []).

(** [n] messages of alice in "weather", IDs ["m0"], ["m1"], ..., one a second. *)
Definition alice_sends (n : nat) : list op :=
  (λ i, send_at "alice" "weather" "hello" ("m" +:+ pretty i)
                (t0 + Z.of_nat i * Time.Second)%Z []) <$> seq 0 n.

(** bob streams "weather" but his loop does not get to run while alice
    sends 200 messages: his channel is full. *)
Definition backlog : world :=
  run ([join "alice" "weather"; join "bob" "weather"; stream "bob" "weather";
        OpSession 0 (InitialKeepAlive t0 true)] ++ alice_sends 200) init.

(** alice opens a stream, then opens a second one for the same room
    while the first is running; the first one notices its channel closed,
    returns, and runs its [cleanup]. *)
Definition replaced : world :=
  run [join "alice" "weather";
       stream "alice" "weather"; OpSession 0 (InitialKeepAlive t0 true);
       stream "alice" "weather";
       OpSession 0 (Receive true); OpSession 0 CleanupUnregister; OpSession 0 CleanupClose]
      init.

(** After the 200 messages that fill bob's channel alice sends "late";
    then the listener of bob's stream handles everything Redis has
    published to it, and bob's loop forwards everything in its channel. *)
Definition late : SendMessageRequest := mkSendMessageRequest "alice" "weather" "late".
Definition late_env : env := mkEnv (t0 + 200 * Time.Second)%Z "m200" [].

Definition drained : world :=
  run ([OpSendMessage late late_env] ++
       replicate 201 (OpSession 0 (Listen (env_now late_env) false)) ++
       replicate 200 (OpSession 0 (Receive true)))
      backlog.

Definition quiet_env : env := mkEnv t0 "m0" [].

(** alice has joined "weather"; nobody streams. *)
Definition weather : ChatCloudServer := srv (run [join "alice" "weather"] init).

(** alice and bob have joined "weather", bob's stream is in its loop. *)
Definition bob_listening : list op :=
  [join "alice" "weather"; join "bob" "weather"; stream "bob" "weather";
   OpSession 0 (InitialKeepAlive t0 true)].

(** bob's stream forwards alice's "hello" twice: the copy that
    [broadcastMessage] put in his channel and the copy his listener
    rebuilt from the store after the PUBLISH. *)
Definition echoed : world :=
  run (bob_listening ++
       [send_at "alice" "weather" "hello" "m0" t0 [];
        OpSession 0 (Listen t0 false); OpSession 0 (Receive true); OpSession 0 (Receive true)])
      init.

(** bob's channel has one free slot when alice's SendMessage publishes
    "late", and bob's listener relays the oldest payload Redis holds for
    him before the call comes to broadcast. *)
Definition squeezed : world :=
  run (bob_listening ++ alice_sends 199 ++
       [OpPublish late late_env; OpSession 0 (Listen (env_now late_env) false)])
      init.

(** alice has joined "weather" and her stream is in its loop. *)
Definition alice_listening : list op :=
  [join "alice" "weather"; stream "alice" "weather"; OpSession 0 (InitialKeepAlive t0 true)].

(** * Properties *)

(** ** [SendMessage] in one piece *)

(** A call of [SendMessage] that nothing interleaves with is the body of
    the handler read top to bottom. *)
Lemma SendMessage_unfold req e s :
  SendMessage req e s =
    if decide (sm_UserId req = "") then (Error InvalidArgument "user_id is required", s, [])
    else if decide (sm_RoomId req = "") then (Error InvalidArgument "room_id is required", s, [])
    else if decide (sm_Content req = "") then (Error InvalidArgument "content is required", s, [])
    else if fails e 0
    then (Error Internal "failed to send message", s,
          [LogStoreError "checking if user is in room"])
    else if negb (Redis.SIsMember (users_key (sm_RoomId req)) (sm_UserId req) (rdb s))
    then (Error PermissionDenied "user is not in the room", s, [])
    else
      let msgID := env_uuid e in
      let now := env_now e in
      let msg := mkMessage msgID (sm_UserId req) (sm_RoomId req) (sm_Content req)
                           (Time.unix_millis now) in
      if fails e 1
      then (Error Internal "failed to send message", s, [LogStoreError "storing message"])
      else
        let d1 := Redis.HSet (message_key msgID)
                    [("user_id", sm_UserId req); ("room_id", sm_RoomId req);
                     ("content", sm_Content req); ("timestamp", Time.Format now)] (rdb s) in
        if fails e 2
        then (Error Internal "failed to send message", with_rdb d1 s,
              [LogStoreError "adding message to room"])
        else
          let d2 := Redis.LPush (messages_key (sm_RoomId req)) msgID d1 in
          let '(d3, ev3) :=
            if fails e 3 then (d2, [LogStoreError "trimming message list"])
            else (Redis.LTrim (messages_key (sm_RoomId req)) 0 999 d2, []) in
          let '(d4, ev4) :=
            if fails e 4 then (d3, [LogStoreError "publishing message"])
            else (Redis.Publish (room_channel (sm_RoomId req)) msgID d3, []) in
          let '(o, s', evb) := broadcastMessage msg (with_rdb d4 s) in
          (match o with
           | Ok _ => Ok (mkSendMessageResponse true msg)
           | Error c m => Error c m
           | Panic r => Panic r
           end, s', ev3 ++ ev4 ++ evb).
Proof.
  unfold SendMessage, SendMessage_publish, SendMessage_broadcast.
  repeat case_decide; try done.
  destruct (fails e 0); [done|].
  destruct (negb _); [done|].
  destruct (fails e 1); [done|].
  destruct (fails e 2); [done|].
  destruct (fails e 3), (fails e 4); simpl;
    destruct (broadcastMessage _ _) as [[o s'] evb]; by rewrite ?app_assoc.
Qed.

(** ** Redis commands *)
Section RedisFacts.
Import Redis.

Lemma smembers_SAdd k m k' d :
  smembers k' (SAdd k m d) = if decide (k = k') then {[m]} ∪ smembers k d else smembers k' d.
Proof.
  unfold smembers at 1, SAdd; simpl. case_decide as Hk.
  - subst. by rewrite lookup_insert_eq.
  - by rewrite lookup_insert_ne.
Qed.

Lemma elem_of_smembers_SAdd k m d : m ∈ smembers k (SAdd k m d).
Proof. rewrite smembers_SAdd, decide_True by done. set_solver. Qed.

Lemma smembers_SAdd_mono k m k' m' d : m' ∈ smembers k' d → m' ∈ smembers k' (SAdd k m d).
Proof. rewrite smembers_SAdd. case_decide; [subst|]; set_solver. Qed.

(** SADD of a member that is already there changes nothing. *)
Lemma SAdd_absorb k m d : m ∈ smembers k d → SAdd k m d = d.
Proof.
  unfold SAdd, smembers. destruct d as [ss ls hs ps]; simpl.
  destruct (ss !! k) as [s|] eqn:Hs; simpl; intros Hm; [|by apply not_elem_of_empty in Hm].
  f_equal. apply insert_id. rewrite Hs. f_equal. clear Hs. set_solver.
Qed.

Lemma removed_SRem k m d : removed k m (SRem k m d).
Proof.
  unfold removed, SRem; simpl. case_decide as He.
  - by rewrite lookup_delete_eq.
  - rewrite lookup_insert_eq. split; [done | set_solver].
Qed.

Lemma removed_SRem_other k m k' m' d : removed k m d → removed k m (SRem k' m' d).
Proof.
  unfold removed, SRem, smembers; simpl. intros H.
  destruct (decide (k' = k)) as [->|Hne].
  - case_decide as He.
    + by rewrite lookup_delete_eq.
    + rewrite lookup_insert_eq. split; [done|].
      destruct (sets d !! k); simpl in *; set_solver.
  - case_decide; [by rewrite lookup_delete_ne | by rewrite lookup_insert_ne].
Qed.

(** SREM on such a key changes nothing. *)
Lemma SRem_removed k m d : removed k m d → SRem k m d = d.
Proof.
  unfold removed, SRem, smembers. destruct d as [ss ls hs ps]; simpl.
  destruct (ss !! k) as [s|] eqn:Hs; simpl.
  - intros [Hne Hm]. f_equal. rewrite decide_False by set_solver.
    apply insert_id. rewrite Hs. f_equal. set_solver.
  - intros _. f_equal. rewrite decide_True by set_solver. by apply delete_id.
Qed.

Lemma length_slice a b l : length (slice a b l) ≤ S b - a.
Proof. unfold slice. rewrite length_take. lia. Qed.

Lemma lget_LPush k v d : lget k (LPush k v d) = v :: lget k d.
Proof. unfold lget at 1, LPush; simpl. by rewrite lookup_insert_eq. Qed.

Lemma lget_LTrim k a b d : lget k (LTrim k a b d) = slice a b (lget k d).
Proof.
  unfold lget at 1, LTrim; simpl.
  destruct (slice a b (lget k d)) eqn:E.
  - by rewrite lookup_delete_eq.
  - by rewrite lookup_insert_eq.
Qed.

Lemma lget_HSet k k' fs d : lget k (HSet k' fs d) = lget k d.
Proof. done. Qed.

Lemma lget_Publish k c p d : lget k (Publish c p d) = lget k d.
Proof. done. Qed.
End RedisFacts.

(** ** Channels and the broadcast loop *)

Lemma result_eta {A} (r : result A) (o : outcome A) : r.1.1 = o → r = (o, r.1.2, r.2).
Proof. destruct r as [[? ?] ?]. simpl. by intros ->. Qed.

Lemma try_send_closed m ch ch' : try_send m ch = Sent ch' → ch_closed ch' = ch_closed ch.
Proof.
  unfold try_send. destruct (ch_closed ch) eqn:E; [done|].
  case_match; [|done]. by intros [= <-].
Qed.

Lemma send_all_not_error msg cs h c m : (send_all msg cs h).1.1 ≠ Error c m.
Proof.
  revert h. induction cs as [|c0 cs IH]; intros h; simpl; [done|].
  destruct (h !! c0) as [ch|]; simpl.
  - destruct (try_send msg ch); [apply IH | | done].
    specialize (IH h). by destruct (send_all msg cs h) as [[? ?] ?].
  - specialize (IH h). by destruct (send_all msg cs h) as [[? ?] ?].
Qed.

Lemma broadcastMessage_not_error msg s c m : (broadcastMessage msg s).1.1 ≠ Error c m.
Proof.
  unfold broadcastMessage.
  pose proof (send_all_not_error msg (snd <$> subscribers (RoomId msg) s) (heap s) c m) as H.
  by destruct (send_all _ _ _) as [[? ?] ?].
Qed.

(** ** Validation and authorization come first *)

Lemma SendMessage_not_member req e s :
  sm_UserId req ≠ "" → sm_RoomId req ≠ "" → sm_Content req ≠ "" →
  fails e 0 = false →
  Redis.SIsMember (users_key (sm_RoomId req)) (sm_UserId req) (rdb s) = false →
  SendMessage req e s = (Error PermissionDenied "user is not in the room", s, []).
Proof.
  intros Hu Hr Hc Hf Hm. rewrite SendMessage_unfold; cbv zeta.
  rewrite !decide_False by done. by rewrite Hf, Hm.
Qed.

Lemma SendMessage_invalid req e s :
  sm_UserId req = "" ∨ sm_RoomId req = "" ∨ sm_Content req = "" →
  ∃ msg, SendMessage req e s = (Error InvalidArgument msg, s, []).
Proof.
  intros H. rewrite SendMessage_unfold; cbv zeta. repeat case_decide; eauto. naive_solver.
Qed.

Lemma SendMessage_code req e s c msg :
  (SendMessage req e s).1.1 = Error c msg →
  c = InvalidArgument ∨ c = PermissionDenied ∨ c = Internal.
Proof.
  rewrite SendMessage_unfold; cbv zeta. repeat case_decide; simpl; try (intros [= <- _]; tauto).
  repeat (case_match; simpl; try (intros [= <- _]; tauto)); simplify_eq/=;
    try done.
  all: match goal with
       | H : broadcastMessage ?m ?s = (Error ?c ?x, _, _) |- _ =>
           exfalso; apply (broadcastMessage_not_error m s c x); by rewrite H
       end.
Qed.

Lemma StreamMessages_open_not_member req e s :
  st_UserId req ≠ "" → st_RoomId req ≠ "" →
  fails e 0 = false →
  Redis.SIsMember (users_key (st_RoomId req)) (st_UserId req) (rdb s) = false →
  StreamMessages_open req e s = (Error PermissionDenied "user is not in the room", s, []).
Proof.
  intros Hu Hr Hf Hm. unfold StreamMessages_open.
  rewrite !decide_False by done. by rewrite Hf, Hm.
Qed.

Lemma StreamMessages_open_invalid req e s :
  st_UserId req = "" ∨ st_RoomId req = "" →
  ∃ msg, StreamMessages_open req e s = (Error InvalidArgument msg, s, []).
Proof.
  intros H. unfold StreamMessages_open. repeat case_decide; eauto. naive_solver.
Qed.

Lemma StreamMessages_open_code req e s c msg :
  (StreamMessages_open req e s).1.1 = Error c msg →
  c = InvalidArgument ∨ c = PermissionDenied ∨ c = Internal.
Proof.
  unfold StreamMessages_open. repeat case_decide; simpl; try (intros [= <- _]; tauto).
  repeat (case_match; simpl; try (intros [= <- _]; tauto)); simplify_eq/=; done.
Qed.

Lemma LeaveRoom_invalid req e s :
  lr_UserId req = "" ∨ lr_RoomId req = "" →
  ∃ msg, LeaveRoom req e s = (Error InvalidArgument msg, s, []).
Proof.
  intros H. unfold LeaveRoom. repeat case_decide; eauto. naive_solver.
Qed.

(** C5: SendMessage answers InvalidArgument to an empty user_id, room_id
    or content and leaves the server (store, channels, registry) as it
    was; SendMessage and StreamMessages answer PermissionDenied to a
    sender who is not in the room's membership set, again with the whole
    server state untouched (nothing stored or published, no channel made
    or registered); neither ever answers NotFound. *)
Theorem C5_rejections_precede_side_effects
    (sreq : SendMessageRequest) (treq : StreamMessagesRequest) (e : env)
    (s : ChatCloudServer) :
  (sm_UserId sreq = "" ∨ sm_RoomId sreq = "" ∨ sm_Content sreq = "" →
   ∃ msg, SendMessage sreq e s = (Error InvalidArgument msg, s, [])) ∧
  (sm_UserId sreq ≠ "" → sm_RoomId sreq ≠ "" → sm_Content sreq ≠ "" → fails e 0 = false →
   Redis.SIsMember (users_key (sm_RoomId sreq)) (sm_UserId sreq) (rdb s) = false →
   SendMessage sreq e s = (Error PermissionDenied "user is not in the room", s, [])) ∧
  (st_UserId treq ≠ "" → st_RoomId treq ≠ "" → fails e 0 = false →
   Redis.SIsMember (users_key (st_RoomId treq)) (st_UserId treq) (rdb s) = false →
   StreamMessages_open treq e s = (Error PermissionDenied "user is not in the room", s, [])) ∧
  (∀ msg, (SendMessage sreq e s).1.1 ≠ Error NotFound msg) ∧
  (∀ msg, (StreamMessages_open treq e s).1.1 ≠ Error NotFound msg).
Proof.
  split_and!.
  - apply SendMessage_invalid.
  - apply SendMessage_not_member.
  - apply StreamMessages_open_not_member.
  - intros msg H. apply SendMessage_code in H. naive_solver.
  - intros msg H. apply StreamMessages_open_code in H. naive_solver.
Qed.

(** C9: StreamMessages and LeaveRoom answer InvalidArgument to an empty
    user_id or room_id whatever the store holds and whichever of its
    commands would fail, and hand back the server state unchanged: no
    Redis command, membership check or registry update has run. *)
Theorem C9_stream_and_leave_validate_ids
    (treq : StreamMessagesRequest) (lreq : LeaveRoomRequest) (e : env) (s : ChatCloudServer) :
  (st_UserId treq = "" ∨ st_RoomId treq = "" →
   ∃ msg, StreamMessages_open treq e s = (Error InvalidArgument msg, s, [])) ∧
  (lr_UserId lreq = "" ∨ lr_RoomId lreq = "" →
   ∃ msg, LeaveRoom lreq e s = (Error InvalidArgument msg, s, [])).
Proof. split; [apply StreamMessages_open_invalid | apply LeaveRoom_invalid]. Qed.

(** ** JoinRoom *)

Lemma fetch_messages_length d fs ids : length (fetch_messages d fs ids).1 ≤ length ids.
Proof.
  revert fs. induction ids as [|i ids IH]; intros fs; simpl; [done|].
  specialize (IH (tail fs)). destruct (fetch_messages d (tail fs) ids) as [ms evs].
  simpl in *. repeat case_match; simpl; lia.
Qed.

(** Without store errors the loop keeps, in the order of the IDs, the
    messages that resolve. *)
Lemma fetch_messages_no_faults d ids :
  (fetch_messages d [] ids).1 =
  omap (λ msgID, resolve msgID (Redis.HGetAll (message_key msgID) d)) ids.
Proof.
  induction ids as [|i ids IH]; simpl; [done|].
  destruct (fetch_messages d [] ids) as [ms evs]. simpl in *.
  destruct (resolve i _); simpl; by rewrite IH.
Qed.

Lemma JoinRoom_code req e s c msg :
  (JoinRoom req e s).1.1 = Error c msg → c = InvalidArgument ∨ c = Internal.
Proof.
  unfold JoinRoom. repeat case_decide; simpl; try (intros [= <- _]; tauto).
  repeat (case_match; simpl; try (intros [= <- _]; tauto)); simplify_eq/=; done.
Qed.

Lemma JoinRoom_ok req e s :
  jr_UserId req ≠ "" → jr_RoomId req ≠ "" →
  fails e 0 = false → fails e 1 = false → fails e 2 = false →
  let d2 := Redis.SAdd (rooms_key (jr_UserId req)) (jr_RoomId req)
              (Redis.SAdd (users_key (jr_RoomId req)) (jr_UserId req) (rdb s)) in
  let r := fetch_messages d2 (drop 3 (env_faults e))
             (Redis.LRange (messages_key (jr_RoomId req)) 0 49 d2) in
  JoinRoom req e s = (Ok (mkJoinRoomResponse true r.1), with_rdb d2 s, r.2).
Proof.
  intros Hu Hr H0 H1 H2. unfold JoinRoom.
  rewrite !decide_False by done. rewrite H0, H1, H2. simpl.
  by destruct (fetch_messages _ _ _).
Qed.

Lemma with_rdb_with_rdb d d' s : with_rdb d (with_rdb d' s) = with_rdb d s.
Proof. done. Qed.

(** C10: JoinRoom never answers PermissionDenied (nor NotFound); with
    non-empty IDs and a store that answers, any user joins any room, the
    user is then in the room's membership set and the room in the user's
    room set; and a second JoinRoom for the same pair succeeds again and
    returns the server state of the first call unchanged. *)
Theorem C10_join_is_open_and_idempotent
    (req : JoinRoomRequest) (e1 e2 : env) (s : ChatCloudServer) :
  (∀ msg, (JoinRoom req e1 s).1.1 ≠ Error PermissionDenied msg) ∧
  (jr_UserId req ≠ "" → jr_RoomId req ≠ "" →
   fails e1 0 = false → fails e1 1 = false → fails e1 2 = false →
   fails e2 0 = false → fails e2 1 = false → fails e2 2 = false →
   ∃ ms1 s1 evs1 ms2 evs2,
     JoinRoom req e1 s = (Ok (mkJoinRoomResponse true ms1), s1, evs1) ∧
     jr_UserId req ∈ Redis.smembers (users_key (jr_RoomId req)) (rdb s1) ∧
     jr_RoomId req ∈ Redis.smembers (rooms_key (jr_UserId req)) (rdb s1) ∧
     JoinRoom req e2 s1 = (Ok (mkJoinRoomResponse true ms2), s1, evs2)).
Proof.
  split.
  - intros msg H. apply JoinRoom_code in H. naive_solver.
  - intros Hu Hr H0 H1 H2 H0' H1' H2'.
    pose proof (JoinRoom_ok req e1 s Hu Hr H0 H1 H2) as J1. simpl in J1.
    set (d2 := Redis.SAdd (rooms_key (jr_UserId req)) (jr_RoomId req)
                 (Redis.SAdd (users_key (jr_RoomId req)) (jr_UserId req) (rdb s))) in *.
    assert (Hin1 : jr_UserId req ∈ Redis.smembers (users_key (jr_RoomId req)) d2).
    { apply smembers_SAdd_mono, elem_of_smembers_SAdd. }
    assert (Hin2 : jr_RoomId req ∈ Redis.smembers (rooms_key (jr_UserId req)) d2).
    { apply elem_of_smembers_SAdd. }
    pose proof (JoinRoom_ok req e2 (with_rdb d2 s) Hu Hr H0' H1' H2') as J2. simpl in J2.
    rewrite (SAdd_absorb _ _ d2 Hin1), (SAdd_absorb _ _ d2 Hin2) in J2.
    rewrite with_rdb_with_rdb in J2.
    eexists _, _, _, _, _. split_and!; [exact J1 | exact Hin1 | exact Hin2 | exact J2].
Qed.

(** ** SendMessage and the room's list of message IDs *)

Lemma broadcastMessage_rdb msg s : rdb (broadcastMessage msg s).1.2 = rdb s.
Proof. unfold broadcastMessage. by destruct (send_all _ _ _) as [[? ?] ?]. Qed.

(** The list of a room after a SendMessage that got past the LPUSH. *)
Lemma SendMessage_list req e s resp s' evs :
  SendMessage req e s = (Ok resp, s', evs) →
  let old := Redis.lget (messages_key (sm_RoomId req)) (rdb s) in
  sm_Message resp = mkMessage (env_uuid e) (sm_UserId req) (sm_RoomId req) (sm_Content req)
                              (Time.unix_millis (env_now e)) ∧
  sm_Success resp = true ∧
  Redis.lget (messages_key (sm_RoomId req)) (rdb s') =
    if fails e 3 then env_uuid e :: old else take 1000 (env_uuid e :: old).
Proof.
  rewrite SendMessage_unfold; cbv zeta. repeat case_decide; try done.
  destruct (fails e 0); [done|]. destruct (negb _); [done|].
  destruct (fails e 1); [done|]. destruct (fails e 2); [done|].
  set (d2 := Redis.LPush _ _ _).
  assert (Hd2 : Redis.lget (messages_key (sm_RoomId req)) d2 =
                env_uuid e :: Redis.lget (messages_key (sm_RoomId req)) (rdb s)).
  { unfold d2. by rewrite lget_LPush, lget_HSet. }
  destruct (fails e 3) eqn:E3; destruct (fails e 4) eqn:E4;
    match goal with |- context [broadcastMessage ?m ?s0] =>
      pose proof (broadcastMessage_rdb m s0) as Hb;
      destruct (broadcastMessage m s0) as [[o s1] evb] end;
    destruct o; intros [= <- <- <-]; simpl in *; rewrite Hb;
    rewrite ?lget_Publish, ?lget_LTrim, Hd2; done.
Qed.

Lemma JoinRoom_recent_length req e s resp s' evs :
  JoinRoom req e s = (Ok resp, s', evs) → length (jr_RecentMessages resp) ≤ 50.
Proof.
  unfold JoinRoom. repeat case_decide; try done.
  repeat (case_match; try done). intros [= <- <- <-]. simpl.
  match goal with H : fetch_messages ?d ?fs ?ids = _ |- _ =>
    pose proof (fetch_messages_length d fs ids) as Hl; rewrite H in Hl;
    pose proof (length_slice 0 49 (Redis.lget (messages_key (jr_RoomId req)) d)) as Hs
  end.
  unfold Redis.LRange in Hl. simpl in *. lia.
Qed.

(** C7 (as the code has it): after a successful SendMessage whose LTRIM
    did not fail, the room's list is the new ID followed by the previous
    list, cut to 1000 entries: newest first, never longer than 1000, and
    when the previous list was full its last (oldest) ID is gone; when
    the LTRIM failed the list is the new ID followed by the whole
    previous list; a JoinRoom afterwards returns at most 50 messages. *)
Theorem C7_history_trimmed_to_1000
    (req : SendMessageRequest) (e : env) (s s' : ChatCloudServer)
    (resp : SendMessageResponse) (evs : list event) :
  SendMessage req e s = (Ok resp, s', evs) →
  let old := Redis.lget (messages_key (sm_RoomId req)) (rdb s) in
  let new := Redis.lget (messages_key (sm_RoomId req)) (rdb s') in
  (fails e 3 = false →
   new = take 1000 (Id (sm_Message resp) :: old) ∧
   length new ≤ 1000 ∧
   (1000 ≤ length old → new = Id (sm_Message resp) :: take 999 old)) ∧
  (fails e 3 = true → new = Id (sm_Message resp) :: old) ∧
  (∀ jreq e' r s'' evs', JoinRoom jreq e' s' = (Ok r, s'', evs') →
                         length (jr_RecentMessages r) ≤ 50).
Proof.
  intros H. destruct (SendMessage_list _ _ _ _ _ _ H) as (Hm & _ & Hl).
  rewrite Hm. simpl. split_and!.
  - intros Hf. rewrite Hf in Hl. split_and!.
    + exact Hl.
    + rewrite Hl, length_take. lia.
    + intros _. rewrite Hl. done.
  - intros Hf. by rewrite Hf in Hl.
  - intros jreq e' r s'' evs'. apply JoinRoom_recent_length.
Qed.

(** C7, counterexample: the LTRIM of this SendMessage fails (fourth
    command); the handler only logs that, answers success, and the list
    now has 1001 entries, the oldest ID still in it. *)
Lemma C7_counterexample_untrimmed_list :
  ∃ resp s' evs,
    SendMessage (mkSendMessageRequest "alice" "weather" "hello")
                (mkEnv t0 "m1000" [false; false; false; true]) full_history
      = (Ok resp, s', evs) ∧
    sm_Success resp = true ∧
    length (Redis.lget (messages_key "weather") (rdb s')) = 1001 ∧
    last (Redis.lget (messages_key "weather") (rdb s')) = Some "m0".
Proof.
  set (req := mkSendMessageRequest "alice" "weather" "hello").
  set (e := mkEnv t0 "m1000" [false; false; false; true]).
  assert (E : SendMessage req e full_history =
              (Ok (mkSendMessageResponse true
                     (mkMessage "m1000" "alice" "weather" "hello" 1762093845123)),
               (SendMessage req e full_history).1.2, (SendMessage req e full_history).2)).
  { apply result_eta. vm_compute. reflexivity. }
  destruct (SendMessage_list _ _ _ _ _ _ E) as (_ & _ & Hl).
  change (fails e 3) with true in Hl. cbn [sm_RoomId env_uuid req e] in Hl.
  eexists _, _, _. split; [exact E|]. split; [done|].
  rewrite Hl. split; vm_compute; reflexivity.
Qed.

(** *** The order of [recent_messages] *)

(** With a store that answers, JoinRoom returns the messages of the first
    50 IDs of the room's list that resolve, in the order of the list. *)
Lemma JoinRoom_recent req s :
  jr_UserId req ≠ "" → jr_RoomId req ≠ "" →
  ∃ s' evs,
    JoinRoom req (mkEnv t0 "" []) s =
      (Ok (mkJoinRoomResponse true
             (omap (λ msgID, resolve msgID (Redis.HGetAll (message_key msgID) (rdb s')))
                   (take 50 (Redis.lget (messages_key (jr_RoomId req)) (rdb s'))))),
       s', evs).
Proof.
  intros Hu Hr.
  rewrite (JoinRoom_ok req (mkEnv t0 "" []) s Hu Hr eq_refl eq_refl eq_refl). simpl.
  rewrite fetch_messages_no_faults. eexists (with_rdb _ s), _. reflexivity.
Qed.

(** C6, the code at the failing input: bob joins the room of
    [two_messages]; the message sent last comes first in
    [recent_messages], the one sent first comes last. *)
Theorem C6_join_returns_newest_first :
  ∃ s' evs,
    JoinRoom (mkJoinRoomRequest "bob" "weather") (mkEnv (t0 + 2 * Time.Second)%Z "" [])
             (srv two_messages)
    = (Ok (mkJoinRoomResponse true
             [mkMessage "m1" "alice" "weather" "second" 1762093846000;
              mkMessage "m0" "alice" "weather" "first" 1762093845000]),
       s', evs).
Proof. eexists _, _. vm_compute. reflexivity. Qed.

(** ** The registry *)

Lemma reg_lookup_unregister rs r u r' u' :
  reg_lookup (unregister r u rs) r' u' =
  if decide (r = r' ∧ u = u') then None else reg_lookup rs r' u'.
Proof.
  unfold reg_lookup, unregister.
  destruct (rs !! r) as [m|] eqn:Hm.
  - case_decide as Hsz.
    + apply map_size_empty_iff in Hsz.
      destruct (decide (r = r')) as [<-|Hr].
      * rewrite lookup_delete_eq. simpl. case_decide as Hk; [done|].
        rewrite Hm. simpl.
        destruct (decide (u = u')) as [<-|Hu]; [naive_solver|].
        by rewrite <- (lookup_delete_ne m u u'), Hsz, lookup_empty.
      * rewrite lookup_delete_ne by done. rewrite decide_False by naive_solver. done.
    + destruct (decide (r = r')) as [<-|Hr].
      * rewrite lookup_insert_eq. simpl. rewrite Hm. simpl.
        destruct (decide (u = u')) as [<-|Hu].
        -- rewrite lookup_delete_eq. by rewrite decide_True.
        -- rewrite lookup_delete_ne by done. by rewrite decide_False by naive_solver.
      * rewrite lookup_insert_ne by done. by rewrite decide_False by naive_solver.
  - case_decide as Hk; [|done]. destruct Hk as [<- _]. by rewrite Hm.
Qed.

(** Unregistering twice is unregistering once. *)
Lemma unregister_idemp r u rs : unregister r u (unregister r u rs) = unregister r u rs.
Proof.
  unfold unregister at 2 3. destruct (rs !! r) as [m|] eqn:Hm.
  - case_decide as Hsz.
    + unfold unregister. by rewrite lookup_delete_eq.
    + unfold unregister. rewrite lookup_insert_eq.
      rewrite (delete_id (delete u m)) by apply lookup_delete_eq.
      rewrite decide_False by done. by rewrite insert_insert_eq.
  - unfold unregister. by rewrite Hm.
Qed.

Lemma rooms_nonempty_unregister r u rs : rooms_nonempty rs → rooms_nonempty (unregister r u rs).
Proof.
  unfold rooms_nonempty, unregister. intros H r' m'.
  destruct (rs !! r) as [m|] eqn:Hm; [|apply H].
  case_decide as Hsz.
  - intros Hl. apply lookup_delete_Some in Hl as [_ Hl]. by eapply H.
  - intros Hl. apply lookup_insert_Some in Hl as [[_ <-]|[_ Hl]]; [|by eapply H].
    intros He. apply Hsz. by rewrite He, map_size_empty.
Qed.

Lemma register_spec room user s :
  let c := fresh (dom (heap s)) in
  let r := register room user s in
  r.1.1 = c ∧
  heap s !! c = None ∧
  rdb r.1.2 = rdb s ∧
  (∀ r' u', reg_lookup (roomStreams r.1.2) r' u' =
            if decide (room = r' ∧ user = u') then Some c
            else reg_lookup (roomStreams s) r' u') ∧
  (rooms_nonempty (roomStreams s) → rooms_nonempty (roomStreams r.1.2)) ∧
  heap r.1.2 =
    match reg_lookup (roomStreams s) room user with
    | Some old => (retire old (<[c := make 200]> (heap s))).1
    | None => <[c := make 200]> (heap s)
    end ∧
  r.2 =
    match reg_lookup (roomStreams s) room user with
    | Some old => LogFoundExisting user room ::
                  (retire old (<[c := make 200]> (heap s))).2 ++ [LogRegistered user room]
    | None => [LogRegistered user room]
    end.
Proof.
  intros c r.
  assert (Hfresh : heap s !! c = None).
  { apply not_elem_of_dom. apply is_fresh. }
  unfold r, register. fold c.
  set (rs0 := match roomStreams s !! room with
              | Some _ => roomStreams s
              | None => <[room := ∅]> (roomStreams s) end).
  assert (Hu : default ∅ (rs0 !! room) = default ∅ (roomStreams s !! room)).
  { unfold rs0. destruct (roomStreams s !! room) eqn:E; [by rewrite E|].
    by rewrite lookup_insert_eq. }
  assert (Hlk : default ∅ (rs0 !! room) !! user = reg_lookup (roomStreams s) room user).
  { rewrite Hu. unfold reg_lookup. destruct (roomStreams s !! room); [done|].
    simpl. apply lookup_empty. }
  rewrite Hlk.
  assert (Hrs : ∀ r', r' ≠ room → rs0 !! r' = roomStreams s !! r').
  { intros r' Hne. unfold rs0. destruct (roomStreams s !! room); [done|].
    by rewrite lookup_insert_ne. }
  destruct (reg_lookup (roomStreams s) room user) as [old|] eqn:Hold;
    [destruct (retire old _) as [h ev] eqn:Hret|]; simpl;
    (split_and!; [done | done | done | | | done | done]).
  all: try (intros r' u'; unfold reg_lookup at 1;
    destruct (decide (room = r')) as [<-|Hr];
    [ rewrite lookup_insert_eq; simpl;
      destruct (decide (user = u')) as [<-|Hne];
      [ by rewrite lookup_insert_eq, decide_True
      | rewrite lookup_insert_ne by done; rewrite decide_False by naive_solver;
        rewrite Hu; unfold reg_lookup; destruct (roomStreams s !! room); [done|];
        simpl; apply lookup_empty ]
    | rewrite lookup_insert_ne by done; rewrite Hrs by done;
      by rewrite decide_False by naive_solver ]).
  all: intros Hne r' m'; intros Hl;
    apply lookup_insert_Some in Hl as [[_ <-]|[Hr Hl]];
    [ intros He; apply (f_equal (.!! user)) in He;
      by rewrite lookup_insert_eq, lookup_empty in He
    | rewrite Hrs in Hl by done; by eapply Hne ].
Qed.

(** ** Who closes what *)

Lemma closes_app evs1 evs2 : closes (evs1 ++ evs2) = closes evs1 ++ closes evs2.
Proof. apply omap_app. Qed.

Lemma closedness_insert h c ch c' :
  closedness (<[c := ch]> h) c' =
  if decide (c = c') then Some (ch_closed ch) else closedness h c'.
Proof.
  unfold closedness. case_decide as H; [subst; by rewrite lookup_insert_eq|].
  by rewrite lookup_insert_ne.
Qed.

Lemma close_Some ch ch' : close ch = Some ch' → ch_closed ch = false ∧ ch_closed ch' = true.
Proof. unfold close. destruct (ch_closed ch); [done|]. by intros [= <-]. Qed.

Lemma close_None ch : close ch = None → ch_closed ch = true.
Proof. unfold close. by destruct (ch_closed ch). Qed.

Lemma try_recv_closed ch m ch' : try_recv ch = Received m ch' → ch_closed ch' = ch_closed ch.
Proof. unfold try_recv. destruct (ch_buf ch); [by case_match|]. by intros [= _ <-]. Qed.

(** After [retire] the old channel is closed, whatever state it was in;
    a [close] goes through exactly when it was open. *)
Lemma retire_spec old h :
  (∀ c, closedness (retire old h).1 c =
        if decide (old = c) then (λ _, true) <$> closedness h old else closedness h c) ∧
  closes (retire old h).2 =
    match closedness h old with Some false => [old] | _ => [] end.
Proof.
  unfold retire. destruct (h !! old) as [ch|] eqn:Hch; simpl.
  - assert (Hold : closedness h old = Some (ch_closed ch)).
    { unfold closedness. by rewrite Hch. }
    rewrite Hold. simpl.
    destruct (try_recv ch) as [m ch1| |] eqn:Hr.
    + apply try_recv_closed in Hr.
      destruct (close ch1) as [ch2|] eqn:Hc; simpl.
      * apply close_Some in Hc as [Hc1 Hc2]. rewrite <- Hr, Hc1. split; [|done].
        intros c. rewrite closedness_insert. by rewrite Hc2.
      * apply close_None in Hc. rewrite <- Hr, Hc. split; [|done].
        intros c. rewrite closedness_insert. by rewrite Hc.
    + unfold try_recv in Hr. destruct (ch_buf ch); [|done].
      destruct (ch_closed ch) eqn:Hc; [|done]. simpl. split; [|done].
      intros c. case_decide; [by subst|done].
    + unfold try_recv in Hr. destruct (ch_buf ch); [|done].
      destruct (ch_closed ch) eqn:Hc; [done|].
      unfold close. rewrite Hc. simpl. split; [|done].
      intros c. by rewrite closedness_insert.
  - assert (Hold : closedness h old = None).
    { unfold closedness. by rewrite Hch. }
    rewrite Hold. split; [|done]. intros c. case_decide; [by subst|done].
Qed.

(** The broadcast loop neither closes nor opens anything, and over open
    channels it runs to the end. *)
Lemma send_all_closedness msg cs h :
  (∀ c, c ∈ cs → closedness h c ≠ Some true) →
  ∃ h' evs, send_all msg cs h = (Ok (), h', evs) ∧
            (∀ c, closedness h' c = closedness h c) ∧ closes evs = [].
Proof.
  revert h. induction cs as [|c0 cs IH]; intros h Hopen; simpl.
  - by eexists _, _.
  - assert (H0 : closedness h c0 ≠ Some true) by (apply Hopen; left).
    unfold closedness in H0.
    destruct (h !! c0) as [ch|] eqn:Hch; simpl in *.
    + destruct (try_send msg ch) as [ch'| |] eqn:Hs.
      * pose proof (try_send_closed _ _ _ Hs) as Hcl.
        assert (Hsame : ∀ c, closedness (<[c0 := ch']> h) c = closedness h c).
        { intros c. rewrite closedness_insert. case_decide; [subst|done].
          unfold closedness. rewrite Hch. simpl. by rewrite Hcl. }
        destruct (IH (<[c0 := ch']> h)) as (h' & evs & -> & Hc & He).
        { intros c Hc. rewrite Hsame. apply Hopen. by right. }
        eexists _, _. split_and!; [done| |done]. intros c. by rewrite Hc, Hsame.
      * destruct (IH h) as (h' & evs & -> & Hc & He).
        { intros c Hc. apply Hopen. by right. }
        by eexists _, _.
      * unfold try_send in Hs. destruct (ch_closed ch); [done|]. by case_match.
    + destruct (IH h) as (h' & evs & -> & Hc & He).
      { intros c Hc. apply Hopen. by right. }
      by eexists _, _.
Qed.

Lemma elem_of_subscribers s room user c :
  (user, c) ∈ subscribers room s ↔ reg_lookup (roomStreams s) room user = Some c.
Proof.
  unfold subscribers, reg_lookup. rewrite elem_of_map_to_list.
  destruct (roomStreams s !! room); simpl; [done|]. by rewrite lookup_empty.
Qed.

Lemma broadcastMessage_live msg s :
  registry_live s →
  ∃ h' evs, broadcastMessage msg s = (Ok (), mkServer (rdb s) h' (roomStreams s), evs) ∧
            (∀ c, closedness h' c = closedness (heap s) c) ∧ closes evs = [].
Proof.
  intros Hlive. unfold broadcastMessage.
  destruct (send_all_closedness msg (snd <$> subscribers (RoomId msg) s) (heap s))
    as (h' & evs & -> & Hc & He).
  { intros c Hin. apply list_elem_of_fmap in Hin as [[u c'] [-> Hin]].
    apply elem_of_subscribers in Hin. simpl. rewrite (Hlive _ _ _ Hin). done. }
  by eexists _, _.
Qed.

(** ** The invariant of the running server *)

Lemma sess_ok_shape s s' ss ss' :
  same_shape s s' → msgChan ss' = msgChan ss → ss_req ss' = ss_req ss →
  (ss_phase ss' = ss_phase ss ∨ ss_phase ss' ∈ running) →
  sess_ok s ss → sess_ok s' ss'.
Proof.
  intros [Hrs Hc] Hm Hq Hp [H1 H2]. unfold sess_ok.
  rewrite Hm, Hq, Hrs, Hc. split; [done|].
  intros r u Hl. destruct (H2 r u Hl) as (-> & -> & Hph).
  split_and!; [done|done|]. destruct Hp as [->|Hp]; done.
Qed.

Lemma inv_same_shape w s' sess' evs :
  inv w → same_shape (srv w) s' → closes evs = [] →
  Forall (sess_ok s') sess' →
  inv (mkWorld s' sess' (trace w ++ evs) false (inflight w)).
Proof.
  intros [Ha Hl Hi Hr Hs Ho Hc] [Hrs Hcl] Hev Hsess.
  split; simpl; rewrite ?closes_app, ?Hev, ?app_nil_r; try done.
  - intros r u c. rewrite Hrs, Hcl. apply Hl.
  - intros r u r' u' c. rewrite Hrs. apply Hi.
  - by rewrite Hrs.
  - intros c Hin. rewrite Hcl. by apply Hc.
Qed.

Lemma JoinRoom_shape req e s :
  same_shape s (JoinRoom req e s).1.2 ∧ closes (JoinRoom req e s).2 = [] ∧
  is_panic (JoinRoom req e s).1.1 = false.
Proof.
  unfold JoinRoom. repeat case_decide; try done.
  repeat (case_match; try done); simpl.
  match goal with H : fetch_messages ?d ?fs ?ids = (_, ?l) |- _ =>
    assert (closes l = []) as ->; [|done]; revert H; generalize fs ids end.
  clear. intros fs ids. revert fs l l0.
  induction ids as [|i ids IH]; intros fs ms evs; simpl.
  - by intros [= <- <-].
  - destruct (fetch_messages _ (tail fs) ids) as [ms' evs'] eqn:E.
    specialize (IH _ _ _ E).
    repeat case_match; intros [= <- <-]; done.
Qed.

Lemma SendMessage_shape req e s :
  registry_live s →
  same_shape s (SendMessage req e s).1.2 ∧ closes (SendMessage req e s).2 = [] ∧
  is_panic (SendMessage req e s).1.1 = false.
Proof.
  intros Hlive. rewrite SendMessage_unfold; cbv zeta. repeat case_decide; try done.
  destruct (fails e 0); [done|]. destruct (negb _); [done|].
  destruct (fails e 1); [done|]. destruct (fails e 2); [done|].
  destruct (fails e 3); destruct (fails e 4);
    match goal with |- context [broadcastMessage ?m ?s0] =>
      destruct (broadcastMessage_live m s0) as (h' & evs & -> & Hc & Hev); [exact Hlive|]
    end; simpl; rewrite ?Hev; done.
Qed.

Lemma SendMessage_publish_srv req e s :
  let r := SendMessage_publish req e s in
  heap r.1.2 = heap s ∧ roomStreams r.1.2 = roomStreams s ∧ closes r.2 = [] ∧
  is_panic r.1.1 = false.
Proof.
  unfold SendMessage_publish. repeat case_decide; try done.
  destruct (fails e 0); [done|]. destruct (negb _); [done|].
  destruct (fails e 1); [done|]. destruct (fails e 2); [done|].
  by destruct (fails e 3), (fails e 4).
Qed.

Lemma SendMessage_broadcast_shape msg s :
  registry_live s →
  let r := SendMessage_broadcast msg s in
  same_shape s r.1.2 ∧ closes r.2 = [] ∧ is_panic r.1.1 = false.
Proof.
  intros Hlive. unfold SendMessage_broadcast.
  by destruct (broadcastMessage_live msg s Hlive) as (h' & evs & -> & Hc & Hev).
Qed.

Lemma session_step_local a ss s :
  local a →
  let r := session_step a ss s in
  same_shape s r.1.2 ∧ closes r.2 = [] ∧
  msgChan r.1.1 = msgChan ss ∧ ss_req r.1.1 = ss_req ss ∧
  (ss_phase r.1.1 = ss_phase ss ∨ ss_phase r.1.1 ∈ running).
Proof.
  assert (Hins : ∀ ch ch' rd,
    heap s !! msgChan ss = Some ch → ch_closed ch' = ch_closed ch →
    same_shape s (mkServer rd (<[msgChan ss := ch']> (heap s)) (roomStreams s))).
  { intros ch ch' rd Hch Hcl. split; [done|]. intros c. simpl.
    rewrite closedness_insert. case_decide; [subst|done].
    unfold closedness. by rewrite Hch, Hcl. }
  assert (Hlisten : ∀ fault, let r := listen fault ss s in
    same_shape s r.1.2 ∧ closes r.2 = [] ∧ msgChan r.1.1 = msgChan ss ∧
    ss_req r.1.1 = ss_req ss ∧ ss_phase r.1.1 = ss_phase ss).
  { intros fault. unfold listen.
    destruct (Redis.take_pending _ _) as [[msgID d]|]; simpl; [|done].
    destruct fault; simpl; [done|].
    destruct (resolve _ _) as [pm|]; simpl; [|done].
    destruct (heap s !! msgChan ss) as [ch|] eqn:Hch; simpl; [|done].
    destruct (try_send pm ch) as [ch'| |] eqn:Hs; simpl; try done.
    apply try_send_closed in Hs. split_and!; [by eapply Hins|done..]. }
  unfold running.
  destruct a; intros []; unfold session_step; destruct (ss_phase ss) eqn:Hph; simpl;
    try (split_and!; (done || by left)).
  - destruct send_ok; simpl; split_and!; try done; right; set_solver.
  - split_and!; try done; right; set_solver.
  - destruct (redisErr ss); simpl; split_and!; try done; (by left) || (right; set_solver).
  - destruct (heap s !! msgChan ss) as [ch|] eqn:Hch; simpl;
      [|split_and!; try done; by left].
    destruct (try_recv ch) as [m ch'| |] eqn:Hr; simpl.
    + apply try_recv_closed in Hr.
      destruct send_ok; simpl; (split_and!; [by eapply Hins|done|done|done|right; set_solver]).
    + split_and!; try done; right; set_solver.
    + split_and!; try done; by left.
  - destruct (tick_due ss now); simpl; [|split_and!; try done; by left].
    destruct send_ok; simpl; split_and!; try done; right; set_solver.
  - destruct (redisErr ss || negb (listening ss)); simpl; [split_and!; try done; by left|].
    destruct (Hlisten (fault || redisCtx_done ss now)) as (? & ? & ? & ? & Hp). split_and!; try done.
    left. by rewrite Hp.
  - destruct (redisErr ss || negb (listening ss)); simpl; [split_and!; try done; by left|].
    destruct (Hlisten (fault || redisCtx_done ss now)) as (? & ? & ? & ? & Hp). split_and!; try done.
    left. by rewrite Hp.
  - destruct (listening ss && redisCtx_done ss now); simpl; split_and!; try done; by left.
  - destruct (listening ss && redisCtx_done ss now); simpl; split_and!; try done; by left.
Qed.

(** A step that removes registry entries and closes at most one channel
    [oc], a channel that was open and is not registered afterwards. *)
Lemma inv_shrink w s' sess' evs (oc : option nat) :
  inv w →
  (∀ r u x, reg_lookup (roomStreams s') r u = Some x →
            reg_lookup (roomStreams (srv w)) r u = Some x) →
  rooms_nonempty (roomStreams s') →
  closes evs = option_list oc →
  (∀ c, closedness (heap s') c =
        if decide (oc = Some c) then Some true else closedness (heap (srv w)) c) →
  (∀ c, oc = Some c → closedness (heap (srv w)) c = Some false ∧
                      ∀ r u, reg_lookup (roomStreams s') r u ≠ Some c) →
  Forall (sess_ok s') sess' →
  inv (mkWorld s' sess' (trace w ++ evs) false (inflight w)).
Proof.
  intros [Ha Hl Hi Hr Hs Ho Hc] Hreg Hrooms Hev Hheap Hoc Hsess.
  split; simpl; try done.
  - intros r u c Hlk. rewrite Hheap. case_decide as Hd.
    + destruct (Hoc c Hd) as [_ Hn]. by destruct (Hn r u).
    + apply (Hl r u). by apply Hreg.
  - intros r u r' u' c H1 H2. apply (Hi r u r' u' c); by apply Hreg.
  - rewrite closes_app, Hev. apply NoDup_app. split_and!; [done| |].
    + intros c Hin Hin'. destruct oc as [c'|]; simpl in Hin'; [|set_solver].
      assert (c = c') as -> by set_solver.
      destruct (Hoc c' eq_refl) as [Hopen _]. rewrite (Hc _ Hin) in Hopen. done.
    + destruct oc; simpl; [apply NoDup_singleton | apply NoDup_nil_2].
  - intros c. rewrite closes_app, Hev, Hheap. intros Hin.
    case_decide as Hd; [done|]. apply elem_of_app in Hin as [Hin|Hin]; [by apply Hc|].
    destruct oc as [c'|]; simpl in Hin; set_solver.
Qed.

Lemma sess_ok_shrink s s' ss ss' :
  (∀ r u x, reg_lookup (roomStreams s') r u = Some x →
            reg_lookup (roomStreams s) r u = Some x) →
  (∀ c, is_Some (closedness (heap s) c) → is_Some (closedness (heap s') c)) →
  msgChan ss' = msgChan ss → ss_req ss' = ss_req ss →
  (ss_phase ss' = ss_phase ss ∨ ∀ r u, reg_lookup (roomStreams s') r u ≠ Some (msgChan ss)) →
  sess_ok s ss → sess_ok s' ss'.
Proof.
  intros Hreg Hheap Hm Hq Hp [H1 H2]. unfold sess_ok. rewrite Hm, Hq. split; [by apply Hheap|].
  intros r u Hl. destruct Hp as [->|Hp]; [|by destruct (Hp r u)].
  by apply H2, Hreg.
Qed.

Lemma is_Some_closedness_step (h h' : gmap nat chan) (oc : option nat) :
  (∀ c, closedness h' c = if decide (oc = Some c) then Some true else closedness h c) →
  ∀ c, is_Some (closedness h c) → is_Some (closedness h' c).
Proof. intros H c Hc. rewrite H. by case_decide. Qed.

Lemma LeaveRoom_summary req e s :
  registry_live s →
  let r := LeaveRoom req e s in
  is_panic r.1.1 = false ∧
  ∃ oc : option nat,
    closes r.2 = option_list oc ∧
    (∀ c, closedness (heap r.1.2) c =
          if decide (oc = Some c) then Some true else closedness (heap s) c) ∧
    (∀ c, oc = Some c →
          reg_lookup (roomStreams s) (lr_RoomId req) (lr_UserId req) = Some c) ∧
    (roomStreams r.1.2 = roomStreams s ∧ oc = None ∨
     roomStreams r.1.2 = unregister (lr_RoomId req) (lr_UserId req) (roomStreams s)).
Proof.
  intros Hlive. unfold LeaveRoom.
  assert (Hnone : ∀ h c, closedness h c = if decide (None = Some c) then Some true
                                           else closedness h c) by done.
  repeat case_decide; simpl; try (split; [done|]; exists None; split_and!; by eauto).
  destruct (fails e 0); simpl; [split; [done|]; exists None; split_and!; by eauto|].
  destruct (fails e 1); simpl; [split; [done|]; exists None; split_and!; by eauto|].
  fold (reg_lookup (roomStreams s) (lr_RoomId req) (lr_UserId req)).
  destruct (reg_lookup _ _ _) as [c|] eqn:Hc; simpl;
    [|split; [done|]; exists None; split_and!; by eauto].
  pose proof (Hlive _ _ _ Hc) as Hopen. unfold closedness in Hopen.
  destruct (heap s !! c) as [ch|] eqn:Hch; [|done]. simpl in *.
  injection Hopen as Hopen. unfold close. rewrite Hopen. simpl.
  split; [done|]. exists (Some c). split_and!; [done| | |by right].
  - intros c'. rewrite closedness_insert. simpl.
    destruct (decide (c = c')) as [->|Hne]; [by rewrite decide_True|].
    by rewrite decide_False by congruence.
  - by intros c' [= <-].
Qed.

Lemma inv_step_LeaveRoom req e w : inv w → inv (after (LeaveRoom req e (srv w)) w).
Proof.
  intros Hinv. destruct (LeaveRoom_summary req e (srv w) (inv_live _ Hinv))
    as (Hp & oc & Hev & Hheap & Hoc & Hreg).
  destruct (LeaveRoom req e (srv w)) as [[o s'] evs]. simpl in *. rewrite Hp.
  assert (Hsub : ∀ r u x, reg_lookup (roomStreams s') r u = Some x →
                          reg_lookup (roomStreams (srv w)) r u = Some x).
  { intros r u x. destruct Hreg as [[-> _]| ->]; [done|].
    rewrite reg_lookup_unregister. by case_decide. }
  eapply (inv_shrink w s' (sessions w) evs oc); try done.
  - destruct Hreg as [[-> _]| ->]; [apply Hinv|].
    apply rooms_nonempty_unregister, Hinv.
  - intros c ->. split; [by eapply (inv_live _ Hinv), Hoc|].
    intros r u Hl. destruct Hreg as [[_ ?]|Hreg]; [done|].
    rewrite Hreg, reg_lookup_unregister in Hl. case_decide as Hk; [done|].
    apply Hk. eapply (inv_inj _ Hinv); [by apply Hoc|done].
  - eapply Forall_impl; [apply Hinv|]. intros ss Hok.
    eapply sess_ok_shrink; [exact Hsub| |done|done|by left|exact Hok].
    by eapply is_Some_closedness_step.
Qed.

Lemma inv_step_cleanup i a ss w :
  inv w → sessions w !! i = Some ss → ¬ local a →
  let r := session_step a ss (srv w) in
  inv (mkWorld r.1.2 (<[i := r.1.1]> (sessions w)) (trace w ++ r.2) false (inflight w)).
Proof.
  intros Hinv Hi Ha.
  assert (Hok : sess_ok (srv w) ss).
  { eapply Forall_lookup_1; [apply Hinv|done]. }
  assert (Hrest : ∀ s', (∀ r u x, reg_lookup (roomStreams s') r u = Some x →
                                  reg_lookup (roomStreams (srv w)) r u = Some x) →
                        (∀ c, is_Some (closedness (heap (srv w)) c) →
                              is_Some (closedness (heap s') c)) →
                        Forall (sess_ok s') (sessions w)).
  { intros s' Hsub Hh. eapply Forall_impl; [apply Hinv|]. intros ss0 Hok0.
    eapply (sess_ok_shrink (srv w) s' ss0 ss0); [exact Hsub|exact Hh|done|done|by left|exact Hok0]. }
  assert (Hnone : ∀ h c, closedness h c = if decide (None = Some c) then Some true
                                           else closedness h c) by done.
  assert (Hstay : inv (mkWorld (srv w) (<[i := ss]> (sessions w)) (trace w ++ []) false (inflight w))).
  { rewrite list_insert_id by done. rewrite app_nil_r. destruct Hinv, w; by split. }
  destruct a; try (by destruct Ha); unfold session_step;
    destruct (ss_phase ss) eqn:Hph; simpl; try exact Hstay.
  - (* the registry entry goes *)
    set (rs' := unregister _ _ _).
    assert (Hsub : ∀ r u x, reg_lookup rs' r u = Some x →
                            reg_lookup (roomStreams (srv w)) r u = Some x).
    { intros r u x. unfold rs'. rewrite reg_lookup_unregister. by case_decide. }
    eapply (inv_shrink w _ _ [] None); simpl; try done.
    + apply rooms_nonempty_unregister, Hinv.
    + apply Forall_insert; [by apply Hrest|].
      eapply (sess_ok_shrink (srv w) _ ss); [exact Hsub|done|done|done| |exact Hok].
      right. intros r u Hl. simpl in Hl. unfold rs' in Hl.
      rewrite reg_lookup_unregister in Hl. case_decide as Hk; [done|].
      destruct Hok as [_ Hok]. destruct (Hok r u Hl) as (-> & -> & _). by apply Hk.
  - (* the channel is closed *)
    assert (Hunreg : ∀ r u, reg_lookup (roomStreams (srv w)) r u ≠ Some (msgChan ss)).
    { intros r u Hl. destruct Hok as [_ Hok]. destruct (Hok r u Hl) as (_ & _ & Hrun).
      rewrite Hph in Hrun. unfold running in Hrun. set_solver. }
    unfold cleanup_close. destruct (closed ss); simpl.
    + eapply (inv_shrink w _ _ _ None); simpl; try done; [apply Hinv|].
      apply Forall_insert; [by apply Hrest|].
      eapply (sess_ok_shrink (srv w) _ ss); [done|done|done|done|by right|exact Hok].
    + destruct (heap (srv w) !! msgChan ss) as [ch|] eqn:Hch; simpl.
      * destruct (close ch) as [ch'|] eqn:Hcl; simpl.
        -- apply close_Some in Hcl as [Hc1 Hc2].
           assert (Hheap : ∀ c, closedness (<[msgChan ss := ch']> (heap (srv w))) c =
                     if decide (Some (msgChan ss) = Some c) then Some true
                     else closedness (heap (srv w)) c).
           { intros c. rewrite closedness_insert, Hc2.
             destruct (decide (msgChan ss = c)) as [->|Hne]; [by rewrite decide_True|].
             by rewrite decide_False by congruence. }
           eapply (inv_shrink w _ _ _ (Some (msgChan ss))); simpl; try done; [apply Hinv| |].
           ++ intros c [= <-]. split; [|done]. unfold closedness. by rewrite Hch, <- Hc1.
           ++ apply Forall_insert.
              ** apply Hrest; [done|]. by eapply is_Some_closedness_step.
              ** eapply (sess_ok_shrink (srv w) _ ss); [done| |done|done|by right|exact Hok].
                 by eapply is_Some_closedness_step.
        -- eapply (inv_shrink w _ _ _ None); simpl; try done; [apply Hinv|].
           apply Forall_insert; [by apply Hrest|].
           eapply (sess_ok_shrink (srv w) _ ss); [done|done|done|done|by right|exact Hok].
      * eapply (inv_shrink w _ _ _ None); simpl; try done; [apply Hinv|].
        apply Forall_insert; [by apply Hrest|].
        eapply (sess_ok_shrink (srv w) _ ss); [done|done|done|done|by right|exact Hok].
Qed.

Lemma register_summary room user s :
  registry_live s →
  let c := fresh (dom (heap s)) in
  let old := reg_lookup (roomStreams s) room user in
  let r := register room user s in
  closedness (heap s) c = None ∧
  (∀ c', closedness (heap r.1.2) c' =
         if decide (c = c') then Some false
         else if decide (old = Some c') then Some true else closedness (heap s) c') ∧
  closes r.2 = option_list old.
Proof.
  intros Hlive c old r.
  destruct (register_spec room user s) as (_ & Hfresh & _ & _ & _ & Hheap & Hevs).
  fold c r old in Hfresh, Hheap, Hevs.
  assert (Hc : closedness (heap s) c = None) by (unfold closedness; by rewrite Hfresh).
  split; [done|]. rewrite Hheap, Hevs. clear Hheap Hevs.
  destruct old as [o|] eqn:Hold.
  - pose proof (Hlive _ _ _ Hold) as Hopen.
    assert (Hne : c ≠ o) by (intros ->; congruence).
    destruct (retire_spec o (<[c := make 200]> (heap s))) as [Hr1 Hr2].
    assert (Ho : closedness (<[c := make 200]> (heap s)) o = Some false).
    { rewrite closedness_insert. by rewrite decide_False. }
    rewrite Ho in Hr1, Hr2. split.
    + intros c'. rewrite Hr1. simpl.
      destruct (decide (c = c')) as [<-|Hc'].
      * rewrite decide_False by done. rewrite closedness_insert. by rewrite decide_True.
      * destruct (decide (o = c')) as [<-|Ho'].
        -- by rewrite decide_True.
        -- rewrite decide_False by congruence. rewrite closedness_insert.
           by rewrite decide_False.
    + simpl. rewrite closes_app, Hr2. done.
  - split; [|done]. intros c'. by rewrite closedness_insert.
Qed.

Lemma inv_step_StreamMessages req e w :
  inv w →
  inv match StreamMessages_open req e (srv w) with
      | (Ok ss, s, evs) => mkWorld s (sessions w ++ [ss]) (trace w ++ evs) false (inflight w)
      | (_, s, evs) => mkWorld s (sessions w) (trace w ++ evs) false (inflight w)
      end.
Proof.
  intros Hinv.
  assert (Hstay : ∀ evs, closes evs = [] →
            inv (mkWorld (srv w) (sessions w) (trace w ++ evs) false (inflight w))).
  { intros evs Hev. apply inv_same_shape; [done|done|done|apply Hinv]. }
  unfold StreamMessages_open. repeat case_decide; try by apply Hstay.
  destruct (fails e 0); [by apply Hstay|]. destruct (negb _); [by apply Hstay|].
  set (room := st_RoomId req). set (user := st_UserId req).
  destruct (register_spec room user (srv w)) as (Hc & Hfresh & Hrdb & Hreg & Hrooms & _ & _).
  destruct (register_summary room user (srv w) (inv_live _ Hinv)) as (Hnew & Hheap & Hev).
  destruct (register room user (srv w)) as [[c s1] evs]. simpl in *. subst c.
  set (c := fresh (dom (heap (srv w)))) in *.
  set (old := reg_lookup (roomStreams (srv w)) room user) in *.
  destruct Hinv as [Ha Hl Hi Hr Hs Ho Hcl].
  assert (Hregd : ∀ r u x, reg_lookup (roomStreams (srv w)) r u = Some x → x ≠ c).
  { intros r u x Hx ->. rewrite (Hl _ _ _ Hx) in Hnew. done. }
  split; simpl.
  - done.
  - intros r u x. rewrite Hreg, Hheap. case_decide as Hk.
    + intros [= <-]. by rewrite decide_True.
    + intros Hx. rewrite decide_False by (intros ->; by eapply Hregd).
      rewrite decide_False; [by eapply Hl|].
      intros Hold. apply Hk. by eapply Hi.
  - intros r u r' u' x. rewrite !Hreg.
    repeat case_decide; intros Hx1 Hx2; simplify_eq.
    + naive_solver.
    + by destruct (Hregd _ _ _ Hx2).
    + by destruct (Hregd _ _ _ Hx1).
    + by eapply Hi.
  - by apply Hrooms.
  - apply Forall_app. split.
    + eapply Forall_impl; [exact Hs|]. intros ss [H1 H2]. split.
      * rewrite Hheap. repeat case_decide; done.
      * intros r u. simpl. rewrite Hreg. case_decide as Hk; [|apply H2].
        intros [= Heq]. rewrite <- Heq, Hnew in H1. by destruct H1.
    + apply Forall_singleton. split; simpl.
      * rewrite Hheap. by rewrite decide_True.
      * intros r u. rewrite Hreg. case_decide as Hk.
        -- intros _. destruct Hk as [<- <-]. unfold running. set_solver.
        -- intros Hx. by destruct (Hregd _ _ _ Hx).
  - rewrite closes_app, Hev. apply NoDup_app. split_and!; [done| |].
    + intros x Hin Hin'. destruct old as [o|] eqn:Hold; simpl in Hin'; [|set_solver].
      assert (x = o) as -> by set_solver.
      specialize (Hcl o Hin). by rewrite (Hl _ _ _ Hold) in Hcl.
    + destruct old; simpl; [apply NoDup_singleton | apply NoDup_nil_2].
  - intros x. rewrite closes_app, Hev, Hheap. intros Hin.
    apply elem_of_app in Hin as [Hin|Hin].
    + rewrite decide_False by (intros <-; rewrite (Hcl _ Hin) in Hnew; done).
      case_decide; [done|]. by apply Hcl.
    + destruct old as [o|] eqn:Hold; simpl in Hin; [|set_solver].
      assert (x = o) as -> by set_solver.
      rewrite decide_False by (intros <-; by eapply Hregd).
      by rewrite decide_True.
Qed.

Lemma inv_start d : inv (start d).
Proof.
  unfold start, NewChatCloudServer.
  split; cbn [srv sessions trace crashed roomStreams heap closes omap list_omap].
  - done.
  - intros r u c. unfold reg_lookup. cbn [roomStreams]. by rewrite lookup_empty.
  - intros r u r' u' c. unfold reg_lookup. cbn [roomStreams]. by rewrite lookup_empty.
  - intros r m. by rewrite lookup_empty.
  - apply Forall_nil_2.
  - apply NoDup_nil_2.
  - intros c Hc. by apply elem_of_nil in Hc.
Qed.

Lemma inv_step o w : inv w → inv (step o w).
Proof.
  intros Hinv. unfold step. rewrite (inv_alive _ Hinv).
  destruct o as [req e|req e|req e|k|req e|req e|i a].
  - destruct (JoinRoom_shape req e (srv w)) as (Hs & Hev & Hp).
    destruct (JoinRoom req e (srv w)) as [[o s] evs]. simpl in *. rewrite Hp.
    apply inv_same_shape; try done.
    eapply Forall_impl; [apply Hinv|]. intros ss. by apply sess_ok_shape; auto.
  - destruct (SendMessage_shape req e (srv w) (inv_live _ Hinv)) as (Hs & Hev & Hp).
    destruct (SendMessage req e (srv w)) as [[o s] evs]. simpl in *. rewrite Hp.
    apply inv_same_shape; try done.
    eapply Forall_impl; [apply Hinv|]. intros ss. by apply sess_ok_shape; auto.
  - destruct (SendMessage_publish_srv req e (srv w)) as (Hh & Hrs & Hev & Hp).
    destruct (SendMessage_publish req e (srv w)) as [[o s] evs]. simpl in *.
    assert (Hs : same_shape (srv w) s).
    { split; [done|]. intros c. unfold closedness. by rewrite Hh. }
    assert (Hw : ∀ l, inv (mkWorld s (sessions w) (trace w ++ evs) false l)).
    { intros l.
      assert (H : inv (mkWorld s (sessions w) (trace w ++ evs) false (inflight w))).
      { apply inv_same_shape; try done.
        eapply Forall_impl; [apply Hinv|]. intros ss. by apply sess_ok_shape; auto. }
      destruct H; by split. }
    destruct o; apply Hw.
  - destruct (inflight w !! k) as [msg|]; [|done].
    destruct (SendMessage_broadcast_shape msg (srv w) (inv_live _ Hinv)) as (Hs & Hev & Hp).
    destruct (SendMessage_broadcast msg (srv w)) as [[o s] evs]. simpl in *. rewrite Hp.
    assert (H : inv (mkWorld s (sessions w) (trace w ++ evs) false (inflight w))).
    { apply inv_same_shape; try done.
      eapply Forall_impl; [apply Hinv|]. intros ss. by apply sess_ok_shape; auto. }
    destruct H; by split.
  - by apply inv_step_LeaveRoom.
  - by apply inv_step_StreamMessages.
  - destruct (sessions w !! i) as [ss|] eqn:Hi; [|done].
    assert (Hdec : local a ∨ ¬ local a) by (destruct a; simpl; tauto).
    destruct Hdec as [Hloc|Hloc].
    + destruct (session_step_local a ss (srv w) Hloc) as (Hs & Hev & Hm & Hq & Hph).
      destruct (session_step a ss (srv w)) as [[ss' s] evs]. simpl in *.
      apply inv_same_shape; try done.
      apply Forall_insert.
      * eapply Forall_impl; [apply Hinv|]. intros ss0. by apply sess_ok_shape; auto.
      * eapply (sess_ok_shape (srv w) s ss ss'); try done.
        eapply Forall_lookup_1; [apply Hinv|done].
    + pose proof (inv_step_cleanup i a ss w Hinv Hi Hloc) as H. simpl in H.
      by destruct (session_step a ss (srv w)) as [[ss' s] evs].
Qed.

Lemma inv_run ops w : inv w → inv (run ops w).
Proof.
  revert w. induction ops as [|o ops IH]; intros w Hinv; [done|].
  simpl. apply IH. by apply inv_step.
Qed.

(** ** LeaveRoom *)

(** A LeaveRoom with IDs, on a store that answers: it succeeds when the
    channel it finds, if any, is open, and leaves both store keys and the
    registry without the pair. *)
Lemma LeaveRoom_ok req e s :
  lr_UserId req ≠ "" → lr_RoomId req ≠ "" → fails e 0 = false → fails e 1 = false →
  (∀ c, reg_lookup (roomStreams s) (lr_RoomId req) (lr_UserId req) = Some c →
        closedness (heap s) c = Some false) →
  ∃ s1 evs,
    LeaveRoom req e s = (Ok (mkLeaveRoomResponse true), s1, evs) ∧
    rdb s1 = Redis.SRem (rooms_key (lr_UserId req)) (lr_RoomId req)
               (Redis.SRem (users_key (lr_RoomId req)) (lr_UserId req) (rdb s)) ∧
    roomStreams s1 = unregister (lr_RoomId req) (lr_UserId req) (roomStreams s) ∧
    (reg_lookup (roomStreams s) (lr_RoomId req) (lr_UserId req) = None →
     heap s1 = heap s ∧ evs = []).
Proof.
  intros Hu Hr H0 H1 Hopen. unfold LeaveRoom.
  rewrite !decide_False by done. rewrite H0, H1.
  fold (reg_lookup (roomStreams s) (lr_RoomId req) (lr_UserId req)).
  destruct (reg_lookup _ _ _) as [c|] eqn:Hc.
  - specialize (Hopen c eq_refl). unfold closedness in Hopen.
    destruct (heap s !! c) as [ch|]; [|done]. simpl in *. injection Hopen as Hopen.
    unfold close. rewrite Hopen. simpl. by eexists _, _.
  - by eexists _, _.
Qed.

(** C8: in every state the server can reach, LeaveRoom for a pair with
    non-empty IDs succeeds (the store answering), and the same LeaveRoom
    again succeeds too, without panic and without changing anything; this
    covers the pair that never had a stream channel. *)
Theorem C8_leave_room_twice
    (d : Redis.db) (ops : list op) (req : LeaveRoomRequest) (e1 e2 : env) :
  lr_UserId req ≠ "" → lr_RoomId req ≠ "" →
  fails e1 0 = false → fails e1 1 = false →
  fails e2 0 = false → fails e2 1 = false →
  ∃ s1 evs1,
    LeaveRoom req e1 (srv (run ops (start d))) = (Ok (mkLeaveRoomResponse true), s1, evs1) ∧
    LeaveRoom req e2 s1 = (Ok (mkLeaveRoomResponse true), s1, []).
Proof.
  intros Hu Hr H0 H1 H0' H1'.
  pose proof (inv_run ops (start d) (inv_start d)) as Hinv.
  destruct (LeaveRoom_ok req e1 (srv (run ops (start d))) Hu Hr H0 H1)
    as (s1 & evs1 & HL1 & Hrdb & Hreg & _).
  { intros c. apply (inv_live _ Hinv). }
  exists s1, evs1. split; [done|].
  assert (Hnone : reg_lookup (roomStreams s1) (lr_RoomId req) (lr_UserId req) = None).
  { rewrite Hreg, reg_lookup_unregister. by rewrite decide_True. }
  destruct (LeaveRoom_ok req e2 s1 Hu Hr H0' H1') as (s2 & evs2 & HL2 & Hrdb2 & Hreg2 & Hh).
  { intros c. by rewrite Hnone. }
  destruct (Hh Hnone) as [Hheap ->]. rewrite HL2. repeat f_equal.
  destruct s1 as [d1 h1 rs1], s2 as [d2 h2 rs2]. simpl in *. subst.
  rewrite unregister_idemp. f_equal.
  rewrite (SRem_removed (users_key _)).
  - apply SRem_removed, removed_SRem.
  - apply removed_SRem_other, removed_SRem.
Qed.

(** ** broadcastMessage, subscriber by subscriber *)

Lemma filter_blocked_ext (h h' : gmap nat chan) (cs : list nat) :
  (∀ c, c ∈ cs → h' !! c = h !! c) →
  filter (λ c, blocked h' c = true) cs = filter (λ c, blocked h c = true) cs.
Proof.
  induction cs as [|c cs IH]; intros H; [done|].
  assert (Hb : blocked h' c = blocked h c) by (unfold blocked; by rewrite (H c) by left).
  rewrite !filter_cons, Hb.
  rewrite IH; [done|]. intros c' Hc'. apply H. by right.
Qed.

Lemma send_all_each msg cs h :
  NoDup cs → (∀ c, c ∈ cs → closedness h c = Some false) →
  ∃ h', send_all msg cs h =
          (Ok (), h', replicate (length (filter (λ c, blocked h c = true) cs)) LogChannelFull) ∧
        ∀ c, h' !! c = if decide (c ∈ cs) then offer msg <$> h !! c else h !! c.
Proof.
  revert h. induction cs as [|c0 cs IH]; intros h Hnd Hopen.
  - exists h. split; [done|]. intros c. by rewrite decide_False by set_solver.
  - apply NoDup_cons in Hnd as [Hnin Hnd].
    assert (H0 : closedness h c0 = Some false) by (apply Hopen; left).
    unfold closedness in H0.
    destruct (h !! c0) as [ch|] eqn:Hch; [|done]. simpl in H0. injection H0 as H0.
    simpl. rewrite Hch. simpl. unfold try_send. rewrite H0.
    assert (Hb0 : blocked h c0 = negb (length (ch_buf ch) <? ch_cap ch)).
    { unfold blocked. by rewrite Hch. }
    rewrite filter_cons.
    destruct (length (ch_buf ch) <? ch_cap ch) eqn:Hroom; simpl in *.
    + set (ch' := mkChan (ch_buf ch ++ [msg]) (ch_cap ch) false).
      destruct (IH (<[c0 := ch']> h) Hnd) as (h' & Hs & Hh).
      { intros c Hc. rewrite closedness_insert.
        case_decide; [done|]. apply Hopen. by right. }
      rewrite decide_False by (by rewrite Hb0).
      assert (Hf : filter (λ c, blocked (<[c0 := ch']> h) c = true) cs =
                   filter (λ c, blocked h c = true) cs).
      { apply filter_blocked_ext. intros c Hc.
        rewrite lookup_insert_ne; [done|]. by intros ->. }
      rewrite Hf in Hs. exists h'. split; [done|].
      intros c. rewrite Hh. destruct (decide (c = c0)) as [->|Hne].
      * rewrite decide_False by done. rewrite decide_True by set_solver.
        rewrite lookup_insert_eq, Hch. simpl. unfold offer. by rewrite Hroom.
      * rewrite lookup_insert_ne by done.
        destruct (decide (c ∈ cs)); [by rewrite decide_True by set_solver|].
        by rewrite decide_False by set_solver.
    + destruct (IH h Hnd) as (h' & Hs & Hh).
      { intros c Hc. apply Hopen. by right. }
      rewrite Hs. rewrite decide_True by done. exists h'. split; [done|].
      intros c. rewrite Hh. destruct (decide (c = c0)) as [->|Hne].
      * rewrite decide_False by done. rewrite decide_True by set_solver.
        rewrite Hch. simpl. unfold offer. by rewrite Hroom.
      * destruct (decide (c ∈ cs)); [by rewrite decide_True by set_solver|].
        by rewrite decide_False by set_solver.
Qed.

Lemma subscribers_NoDup s room :
  registry_inj s → NoDup (snd <$> subscribers room s).
Proof.
  intros Hinj. apply NoDup_fmap_2_strong; [|apply NoDup_map_to_list].
  intros [u1 c1] [u2 c2] H1 H2. simpl. intros <-.
  apply elem_of_subscribers in H1, H2.
  by destruct (Hinj _ _ _ _ _ H1 H2) as [_ ->].
Qed.

Lemma broadcastMessage_each msg s :
  registry_live s → registry_inj s →
  ∃ h',
    broadcastMessage msg s =
      (Ok (), mkServer (rdb s) h' (roomStreams s),
       replicate (length (slow_subscribers (RoomId msg) s)) LogChannelFull) ∧
    (∀ user c, reg_lookup (roomStreams s) (RoomId msg) user = Some c →
               h' !! c = offer msg <$> heap s !! c) ∧
    (∀ c, (∀ user, reg_lookup (roomStreams s) (RoomId msg) user ≠ Some c) →
          h' !! c = heap s !! c).
Proof.
  intros Hlive Hinj. unfold broadcastMessage.
  destruct (send_all_each msg (snd <$> subscribers (RoomId msg) s) (heap s))
    as (h' & -> & Hh).
  { by apply subscribers_NoDup. }
  { intros c Hin. apply list_elem_of_fmap in Hin as [[u c'] [-> Hin]].
    apply elem_of_subscribers in Hin. by eapply Hlive. }
  exists h'. split_and!; [done| |].
  - intros user c Hc. rewrite Hh, decide_True; [done|].
    apply list_elem_of_fmap. exists (user, c). split; [done|]. by apply elem_of_subscribers.
  - intros c Hc. rewrite Hh, decide_False; [done|].
    intros Hin. apply list_elem_of_fmap in Hin as [[u c'] [-> Hin]].
    apply elem_of_subscribers in Hin. by destruct (Hc u).
Qed.

(** C3 (as the code has it): in every state the server can reach, one
    broadcast returns without panic, having made one non-blocking send
    per subscriber of the room: a subscriber whose channel has room gets
    the message appended, whatever the state of the others; a subscriber
    whose channel is full keeps its buffer as it was, and one "Channel
    full, dropping message" line is logged for it; channels of other
    rooms, the registry and the store are not touched. *)
Theorem C3_broadcast_one_attempt_each (d : Redis.db) (ops : list op) (msg : Message) :
  let s := srv (run ops (start d)) in
  ∃ h',
    broadcastMessage msg s =
      (Ok (), mkServer (rdb s) h' (roomStreams s),
       replicate (length (slow_subscribers (RoomId msg) s)) LogChannelFull) ∧
    (∀ user c ch,
       reg_lookup (roomStreams s) (RoomId msg) user = Some c → heap s !! c = Some ch →
       h' !! c = Some (if length (ch_buf ch) <? ch_cap ch
                       then mkChan (ch_buf ch ++ [msg]) (ch_cap ch) false
                       else ch)) ∧
    (∀ c, (∀ user, reg_lookup (roomStreams s) (RoomId msg) user ≠ Some c) →
          h' !! c = heap s !! c).
Proof.
  intros s. pose proof (inv_run ops (start d) (inv_start d)) as Hinv.
  destruct (broadcastMessage_each msg s (inv_live _ Hinv) (inv_inj _ Hinv))
    as (h' & Hb & Hsub & Hrest).
  exists h'. split_and!; [done| |done].
  intros user c ch Hc Hch. rewrite (Hsub _ _ Hc), Hch. done.
Qed.

(** C3, counterexample: a broadcast to bob's full channel drops the
    message and returns the server exactly as it was: the drop is
    written to the log and counted nowhere. *)
Lemma C3_counterexample_drop_not_counted :
  reg_lookup (roomStreams (srv backlog)) "weather" "bob" = Some 0 ∧
  blocked (heap (srv backlog)) 0 = true ∧
  broadcastMessage (mkMessage "late" "alice" "weather" "hello" 0) (srv backlog)
    = (Ok (), srv backlog, [LogChannelFull]).
Proof. compute_done. Qed.

(** ** Registration replaces, and every close is accounted for *)

Lemma StreamMessages_open_ok req e s ss s' evs :
  StreamMessages_open req e s = (Ok ss, s', evs) →
  let r := register (st_RoomId req) (st_UserId req) s in
  msgChan ss = r.1.1 ∧ roomStreams s' = roomStreams r.1.2 ∧ heap s' = heap r.1.2 ∧
  evs = r.2 ∧ ss_req ss = req ∧ ss_phase ss = Registered ∧ sent ss = [] ∧
  Redis.SIsMember (users_key (st_RoomId req)) (st_UserId req) (rdb s) = true.
Proof.
  unfold StreamMessages_open. repeat case_decide; try done.
  destruct (fails e 0); [done|].
  destruct (Redis.SIsMember _ _ _) eqn:Hm; [|done]. simpl.
  destruct (register _ _ s) as [[c s1] ev]. simpl.
  by intros [= <- <- <-].
Qed.

(** The clock of an accepted stream starts at the entry, with the
    listener goroutine running. *)
Lemma StreamMessages_open_clock req e s ss s' evs :
  StreamMessages_open req e s = (Ok ss, s', evs) →
  started ss = env_now e ∧ ticked ss = env_now e ∧ listening ss = true ∧
  redisErr ss = false ∧ closed ss = false.
Proof.
  unfold StreamMessages_open. repeat case_decide; try done.
  destruct (fails e 0); [done|].
  destruct (Redis.SIsMember _ _ _) eqn:Hm; [|done]. simpl.
  destruct (register _ _ s) as [[c s1] ev]. simpl.
  by intros [= <- <- <-].
Qed.

(** C1 (as the code has it): along every run of the server no panic
    leaves a handler; every channel in the registry is open and stands
    under exactly one (room, user); no channel goes from open to closed
    twice; and when StreamMessages registers a channel for a pair that
    has one, it stores a fresh open channel under the pair, the prior
    channel is closed in that same critical section (that is the one
    close in the step's events) and no registry entry points to it any
    more. *)
Theorem C1_registry_one_live_channel
    (d : Redis.db) (ops : list op) (req : StreamMessagesRequest) (e : env) :
  let w := run ops (start d) in
  crashed w = false ∧
  registry_live (srv w) ∧
  registry_inj (srv w) ∧
  NoDup (closes (trace w)) ∧
  (∀ ss s' evs,
     StreamMessages_open req e (srv w) = (Ok ss, s', evs) →
     reg_lookup (roomStreams s') (st_RoomId req) (st_UserId req) = Some (msgChan ss) ∧
     closedness (heap (srv w)) (msgChan ss) = None ∧
     closedness (heap s') (msgChan ss) = Some false ∧
     ∀ old, reg_lookup (roomStreams (srv w)) (st_RoomId req) (st_UserId req) = Some old →
            closedness (heap s') old = Some true ∧
            closes evs = [old] ∧
            ∀ r u, reg_lookup (roomStreams s') r u ≠ Some old).
Proof.
  intros w. pose proof (inv_run ops (start d) (inv_start d)) as Hinv. fold w in Hinv.
  split_and!; try apply Hinv.
  intros ss s' evs Hopen.
  destruct (StreamMessages_open_ok _ _ _ _ _ _ Hopen) as (Hc & Hrs & Hh & Hev & _).
  destruct (register_spec (st_RoomId req) (st_UserId req) (srv w))
    as (Hc' & _ & _ & Hreg & _).
  destruct (register_summary (st_RoomId req) (st_UserId req) (srv w) (inv_live _ Hinv))
    as (Hnew & Hheap & Hcl).
  simpl in *. rewrite Hc, Hrs, Hh, Hev, Hc'. clear Hc Hrs Hh Hev Hc'.
  set (c := fresh (dom (heap (srv w)))) in *.
  split_and!.
  - rewrite Hreg. by rewrite decide_True.
  - done.
  - rewrite Hheap. by rewrite decide_True.
  - intros old Hold.
    assert (Hne : c ≠ old).
    { intros <-. rewrite (inv_live _ Hinv _ _ _ Hold) in Hnew. done. }
    split_and!.
    + rewrite Hheap, decide_False by done. by rewrite decide_True.
    + by rewrite Hcl, Hold.
    + intros r u. rewrite Hreg. case_decide as Hk; [congruence|].
      intros Hl. apply Hk. by eapply (inv_inj _ Hinv).
Qed.

(** C1, counterexample: [close] runs twice on channel 0, first in the
    registration of the second stream, where it goes through, then in
    the [cleanup] of the first stream, where the channel is already
    closed: the runtime panics and the deferred [recover] logs it. *)
Lemma C1_counterexample_second_close :
  closes (trace replaced) = [0] ∧
  failed_closes (trace replaced) = [0] ∧
  LogRecoveredClosing ∈ trace replaced.
Proof. split_and!; compute_done. Qed.

(** In that run the [cleanup] of the first stream has also deleted the
    registry entry of the second, which is still open. *)
Lemma replaced_stream_unregistered :
  reg_lookup (roomStreams (srv replaced)) "weather" "alice" = None ∧
  (ss_phase <$> sessions replaced !! 1) = Some Registered ∧
  closedness (heap (srv replaced)) 1 = Some false.
Proof. compute_done. Qed.

(** ** Keep-alives *)

Lemma keep_alive_first_send m ok ss s :
  keep_alive_first ss → (sent ss = [] → is_keep_alive (ss_req ss) m) →
  keep_alive_first (stream_send m ok ss s).1.
Proof.
  intros (HR & HS & HK) Hm. unfold stream_send, leave. destruct ok; simpl.
  - split_and!; simpl; [done| |].
    + intros _ He. by apply app_eq_nil in He as [_ ?].
    + intros m'. destruct (sent ss) as [|m0 l] eqn:E; simpl.
      * intros [= <-]. by apply Hm.
      * intros [= <-]. by apply HK.
  - split_and!; simpl; done.
Qed.

Lemma keep_alive_first_step a ss s :
  keep_alive_first ss → keep_alive_first (session_step a ss s).1.1.
Proof.
  intros Hss. pose proof Hss as (HR & HS & HK).
  assert (Hsame : ∀ ph c e r, ph ≠ Registered → ph ≠ Streaming →
            keep_alive_first (mkSession (ss_req ss) (msgChan ss) c (pubsub ss) e ph
                                        (sent ss) r (started ss) (ticked ss) (listening ss))).
  { intros ph c e r H1 H2. split_and!; simpl; done. }
  assert (Hflag : ∀ e t l, keep_alive_first (mkSession (ss_req ss) (msgChan ss) (closed ss)
                         (pubsub ss) e (ss_phase ss) (sent ss) (ret ss) (started ss) t l)).
  { intros e t l. split_and!; simpl; done. }
  unfold session_step, leave.
  destruct a, (ss_phase ss) eqn:Hph; simpl; try exact Hss.
  - apply keep_alive_first_send; [done|]. intros _. done.
  - by apply Hsame.
  - destruct (redisErr ss); simpl; [by apply Hsame|exact Hss].
  - destruct (heap s !! msgChan ss) as [ch|]; simpl; [|exact Hss].
    destruct (try_recv ch); simpl; [|by apply Hsame|exact Hss].
    apply keep_alive_first_send; [done|]. intros He. by destruct (HS eq_refl).
  - destruct (tick_due ss now); simpl; [|exact Hss].
    apply keep_alive_first_send.
    + unfold take_tick. rewrite Hph. apply Hflag.
    + intros He. by destruct (HS eq_refl).
  - destruct (redisErr ss || negb (listening ss)); simpl; [exact Hss|].
    unfold listen. repeat (case_match; simpl; try exact Hss); try apply Hflag.
  - destruct (redisErr ss || negb (listening ss)); simpl; [exact Hss|].
    unfold listen. repeat (case_match; simpl; try exact Hss); try apply Hflag.
  - destruct (listening ss && redisCtx_done ss now); simpl; [|exact Hss].
    unfold stop_listening. rewrite Hph. apply Hflag.
  - destruct (listening ss && redisCtx_done ss now); simpl; [|exact Hss].
    unfold stop_listening. rewrite Hph. apply Hflag.
  - by apply Hsame.
  - unfold cleanup_close. repeat (case_match; simpl); by apply Hsame.
Qed.

Lemma sessions_after {A} (r : result A) w : sessions (after r w) = sessions w.
Proof. by destruct r as [[? ?] ?]. Qed.

Lemma keep_alive_first_run ops d : Forall keep_alive_first (sessions (run ops (start d))).
Proof.
  assert (H : ∀ w, Forall keep_alive_first (sessions w) →
                   Forall keep_alive_first (sessions (run ops w))).
  { induction ops as [|o ops IH]; intros w Hw; [done|].
    simpl. apply IH. unfold step. destruct (crashed w); [done|].
    destruct o as [req e|req e|req e|k|req e|req e|i a]; rewrite ?sessions_after; try done.
    - by destruct (SendMessage_publish req e (srv w)) as [[[] ?] ?].
    - destruct (inflight w !! k); [|done].
      by destruct (SendMessage_broadcast _ (srv w)) as [[? ?] ?].
    - destruct (StreamMessages_open req e (srv w)) as [[o s'] evs] eqn:E.
      destruct o as [ss| |]; simpl; try done.
      apply Forall_app. split; [done|]. apply Forall_singleton.
      destruct (StreamMessages_open_ok _ _ _ _ _ _ E) as (_ & _ & _ & _ & _ & Hph & Hsent & _).
      split_and!; [done|by rewrite Hph|by rewrite Hsent].
    - destruct (sessions w !! i) as [ss|] eqn:Hi; [|done].
      pose proof (keep_alive_first_step a ss (srv w)) as Hk.
      destruct (session_step a ss (srv w)) as [[ss' s'] evs]. simpl in *.
      apply Forall_insert; [done|]. apply Hk. by eapply Forall_lookup_1. }
  apply H. apply Forall_nil_2.
Qed.

(** A tick waits in [keepAliveTicker.C] exactly when one of the
    ticker's instants, [started + k * 10 s], lies after the instant the
    channel was last emptied and not after [now]. *)
Lemma tick_due_spec ss now :
  tick_due ss now = true ↔
  ∃ k : Z, (ticked ss < started ss + k * 10000000000 ≤ now)%Z.
Proof.
  unfold tick_due. change keepAliveInterval with 10000000000%Z.
  rewrite Z.ltb_lt. split.
  - intros H. exists ((now - started ss) / 10000000000)%Z.
    pose proof (Z.mul_div_le (now - started ss) 10000000000 eq_refl).
    pose proof (Z.mul_succ_div_gt (ticked ss - started ss) 10000000000 eq_refl).
    nia.
  - intros [k Hk]. apply Z.lt_le_trans with k.
    + apply Z.div_lt_upper_bound; lia.
    + apply Z.div_le_lower_bound; lia.
Qed.

(** The loop takes a tick and the transport takes the keep-alive. *)
Lemma session_step_tick now ss s :
  ss_phase ss = Streaming → tick_due ss now = true →
  session_step (Tick now true) ss s =
  (set_run (take_tick now ss) Streaming (sent ss ++ [keepAliveMsg (ss_req ss) now]), s, []).
Proof. intros Hph Hd. unfold session_step. by rewrite Hph, Hd. Qed.

(** No tick waits: the [select] of the loop has nothing to take from
    [keepAliveTicker.C]. *)
Lemma session_step_no_tick now ok ss s :
  ss_phase ss = Streaming → tick_due ss now = false →
  session_step (Tick now ok) ss s = (ss, s, []).
Proof. intros Hph Hd. unfold session_step. by rewrite Hph, Hd. Qed.

(** The loop taking the ticks [j], [j + 1], ... each at the instant the
    ticker fires. *)
Lemma session_steps_ticks j n ss s evs :
  ss_phase ss = Streaming →
  (ticked ss < started ss + Z.of_nat j * keepAliveInterval)%Z →
  let ts := (λ k, (started ss + Z.of_nat k * keepAliveInterval)%Z) <$> seq j n in
  ∃ ss',
    foldl (λ st a, let '(ss', s', evs') := session_step a st.1.1 st.1.2 in
                   (ss', s', st.2 ++ evs'))
          (ss, s, evs) ((λ t, Tick t true) <$> ts) = (ss', s, evs) ∧
    ss_phase ss' = Streaming ∧
    sent ss' = sent ss ++ (keepAliveMsg (ss_req ss) <$> ts).
Proof.
  revert j ss. induction n as [|n IH]; intros j ss Hph Ht; cbv zeta.
  - simpl. eexists. split_and!; [done|done|by rewrite app_nil_r].
  - rewrite <- cons_seq, !fmap_cons. cbn [foldl fst snd].
    rewrite session_step_tick; [|done|].
    2:{ apply tick_due_spec. exists (Z.of_nat j).
        change keepAliveInterval with 10000000000%Z in Ht |- *. lia. }
    simpl. rewrite app_nil_r.
    edestruct (IH (S j) (set_run (take_tick (started ss + Z.of_nat j * keepAliveInterval) ss)
                                 Streaming
                                 (sent ss ++ [keepAliveMsg (ss_req ss)
                                     (started ss + Z.of_nat j * keepAliveInterval)])) eq_refl)
      as (ss' & Hrun & Hph' & Hsent).
    { simpl. change keepAliveInterval with 10000000000%Z. lia. }
    cbn [fst snd started ss_req sent set_run take_tick] in Hrun, Hsent.
    exists ss'. split_and!; [exact Hrun|exact Hph'|].
    rewrite Hsent. by rewrite <- app_assoc.
Qed.

(** However the loop is scheduled, it cannot write keep-alives faster
    than the ticker fires: polled at any instants up to [T], it has
    written at most one for each tick between the last it took and [T]. *)
Lemma session_steps_ticks_rate T ts ss s evs :
  ss_phase ss = Streaming → Forall (λ t, (t ≤ T)%Z) ts →
  Forall (is_keep_alive (ss_req ss)) (sent ss) →
  ∃ ss',
    foldl (λ st a, let '(ss', s', evs') := session_step a st.1.1 st.1.2 in
                   (ss', s', st.2 ++ evs'))
          (ss, s, evs) ((λ t, Tick t true) <$> ts) = (ss', s, evs) ∧
    ss_phase ss' = Streaming ∧
    Forall (is_keep_alive (ss_req ss)) (sent ss') ∧
    (Z.of_nat (length (sent ss')) + (ticked ss - started ss) / keepAliveInterval
     ≤ Z.of_nat (length (sent ss)) +
       Z.max ((ticked ss - started ss) / keepAliveInterval)
             ((T - started ss) / keepAliveInterval))%Z.
Proof.
  revert ss. induction ts as [|t ts IH]; intros ss Hph HT Hka.
  - exists ss. split_and!; [done|done|done|lia].
  - apply Forall_cons in HT as [Ht HT]. rewrite fmap_cons. cbn [foldl fst snd].
    destruct (tick_due ss t) eqn:Hd.
    + rewrite session_step_tick by done. simpl. rewrite app_nil_r.
      edestruct (IH (set_run (take_tick t ss) Streaming
                             (sent ss ++ [keepAliveMsg (ss_req ss) t])) eq_refl HT)
        as (ss' & Hrun & Hph' & Hka' & Hlen).
      { simpl. apply Forall_app. split; [done|]. by apply Forall_singleton. }
      simpl in Hrun, Hka', Hlen. exists ss'. split_and!; [exact Hrun|exact Hph'|exact Hka'|].
      rewrite length_app in Hlen. simpl in Hlen.
      unfold tick_due in Hd. apply Z.ltb_lt in Hd.
      assert ((t - started ss) / keepAliveInterval ≤ (T - started ss) / keepAliveInterval)%Z
        by (apply Z.div_le_mono; [done|lia]).
      lia.
    + rewrite session_step_no_tick by done. rewrite app_nil_r.
      by apply IH.
Qed.

(** C4: on every stream of every run, the first message written is a
    keep-alive (ID "keep-alive", empty content, the caller's user and
    room).  On a stream accepted at [T0] the ticker made at line 429
    fires at [T0 + k * 10 s]: a loop that takes each tick as it fires,
    with nothing else happening, writes the first keep-alive and then
    one keep-alive per tick, stamped [T0 + k * 10 s]; a loop polled at
    any instants up to [T] has written only keep-alives, at most
    [1 + (T - T0) / 10 s] of them; in the loop, a poll finds a tick, and
    writes a keep-alive, exactly when an instant of the ticker lies
    between the last tick taken and now; and once the handler has
    returned a tick writes nothing. *)
Theorem C4_keep_alive_first_and_every_tick
    (d : Redis.db) (ops : list op) (req : StreamMessagesRequest) (e : env) (n : nat) :
  (∀ i ss m, sessions (run ops (start d)) !! i = Some ss → head (sent ss) = Some m →
             is_keep_alive (ss_req ss) m) ∧
  (∀ ss s' evs,
     StreamMessages_open req e (srv (run ops (start d))) = (Ok ss, s', evs) →
     (∃ ss',
        session_steps (quiet (env_now e) n) ss s' = (ss', s', []) ∧
        ss_phase ss' = Streaming ∧
        sent ss' = keepAliveMsg req (env_now e) ::
                   ((λ k, keepAliveMsg req (env_now e + Z.of_nat k * 10000000000)%Z)
                      <$> seq 1 n)) ∧
     (∀ first ts T, Forall (λ t, (t ≤ T)%Z) ts →
        ∃ ss',
          session_steps (InitialKeepAlive first true :: ((λ t, Tick t true) <$> ts)) ss s'
            = (ss', s', []) ∧
          ss_phase ss' = Streaming ∧
          Forall (is_keep_alive req) (sent ss') ∧
          (Z.of_nat (length (sent ss')) ≤ 1 + Z.max 0 ((T - env_now e) / 10000000000))%Z)) ∧
  (∀ ss s now,
     ss_phase ss = Streaming →
     (∃ k : Z, (ticked ss < started ss + k * 10000000000 ≤ now)%Z) →
     ∃ ss',
       session_step (Tick now true) ss s = (ss', s, []) ∧
       sent ss' = sent ss ++ [keepAliveMsg (ss_req ss) now] ∧
       ss_phase ss' = Streaming ∧ started ss' = started ss ∧ ticked ss' = now) ∧
  (∀ ss s now ok,
     ss_phase ss = Streaming →
     (¬ ∃ k : Z, (ticked ss < started ss + k * 10000000000 ≤ now)%Z) →
     session_step (Tick now ok) ss s = (ss, s, [])) ∧
  (∀ ss s now ok, ss_phase ss ∉ [Registered; Streaming] →
                  session_step (Tick now ok) ss s = (ss, s, [])).
Proof.
  split_and!.
  - intros i ss m Hi Hm.
    pose proof (keep_alive_first_run ops d) as H.
    eapply Forall_lookup_1 in H; [|exact Hi]. destruct H as (_ & _ & H). by apply H.
  - intros ss s' evs Hopen.
    destruct (StreamMessages_open_ok _ _ _ _ _ _ Hopen)
      as (_ & _ & _ & _ & Hreq & Hph & Hsent & _).
    destruct (StreamMessages_open_clock _ _ _ _ _ _ Hopen) as (Hst & Htk & _).
    split.
    + unfold session_steps, quiet, tick_times. simpl. rewrite Hph. simpl.
      edestruct (session_steps_ticks 1 n
                   (set_run ss Streaming (sent ss ++ [keepAliveMsg (ss_req ss) (env_now e)]))
                   s' [] eq_refl) as (ss' & Hrun & Hph' & Hsent').
      { simpl. rewrite Hst, Htk. change keepAliveInterval with 10000000000%Z. lia. }
      simpl in Hrun, Hsent'. rewrite Hst in Hrun, Hsent'. rewrite Hrun.
      exists ss'. split_and!; [done|done|].
      rewrite Hsent', Hsent, Hreq. simpl. f_equal.
      by rewrite <- list_fmap_compose.
    + intros first ts T HT.
      unfold session_steps. simpl. rewrite Hph. simpl.
      edestruct (session_steps_ticks_rate T ts
                   (set_run ss Streaming (sent ss ++ [keepAliveMsg (ss_req ss) first]))
                   s' [] eq_refl HT) as (ss' & Hrun & Hph' & Hka & Hlen).
      { simpl. rewrite Hsent. simpl. by apply Forall_singleton. }
      simpl in Hrun, Hka, Hlen. rewrite Hrun.
      exists ss'. split_and!; [done|done|by rewrite <- Hreq|].
      rewrite Hsent, Hst, Htk in Hlen. simpl in Hlen.
      change keepAliveInterval with 10000000000%Z in Hlen.
      rewrite Z.sub_diag, Z.div_0_l in Hlen by done. lia.
  - intros ss s now Hph Hk. rewrite session_step_tick; [|done|by apply tick_due_spec].
    eexists. split; [reflexivity|]. done.
  - intros ss s now ok Hph Hno. apply session_step_no_tick; [done|].
    destruct (tick_due ss now) eqn:Hd; [|done].
    destruct Hno. by apply tick_due_spec.
  - intros ss s now ok Hph. unfold session_step.
    destruct (ss_phase ss); try done; set_solver.
Qed.

(** ** From SendMessage to the subscriber's stream *)

(** A SendMessage that passes validation and the membership check, on a
    store that takes the hash and the list entry, with every registered
    channel open. *)
Lemma SendMessage_ok req e s :
  registry_live s → registry_inj s →
  sm_UserId req ≠ "" → sm_RoomId req ≠ "" → sm_Content req ≠ "" →
  fails e 0 = false → fails e 1 = false → fails e 2 = false →
  Redis.SIsMember (users_key (sm_RoomId req)) (sm_UserId req) (rdb s) = true →
  let msg := mkMessage (env_uuid e) (sm_UserId req) (sm_RoomId req) (sm_Content req)
                       (Time.unix_millis (env_now e)) in
  ∃ s' evs,
    SendMessage req e s = (Ok (mkSendMessageResponse true msg), s', evs) ∧
    roomStreams s' = roomStreams s ∧
    ∀ user c, reg_lookup (roomStreams s) (sm_RoomId req) user = Some c →
              heap s' !! c = offer msg <$> heap s !! c.
Proof.
  intros Hlive Hinj Hu Hr Hc H0 H1 H2 Hm msg. rewrite SendMessage_unfold; cbv zeta.
  rewrite !decide_False by done. rewrite H0, Hm, H1, H2. simpl. fold msg.
  destruct (fails e 3); destruct (fails e 4);
    match goal with |- context [broadcastMessage msg ?s0] =>
      destruct (broadcastMessage_each msg s0) as (h' & -> & Hsub & _); [exact Hlive|exact Hinj|]
    end; eexists _, _; (split_and!; [reflexivity|done|exact Hsub]).
Qed.

(** [n] rounds of the stream loop that each find a message in the
    channel and write it. *)
Lemma session_steps_receive n ss s ch evs :
  ss_phase ss = Streaming → heap s !! msgChan ss = Some ch → n ≤ length (ch_buf ch) →
  foldl (λ st a, let '(ss', s', evs') := session_step a st.1.1 st.1.2 in
                 (ss', s', st.2 ++ evs'))
        (ss, s, evs) (replicate n (Receive true))
  = (set_run ss Streaming (sent ss ++ take n (ch_buf ch)),
     mkServer (rdb s)
              (<[msgChan ss := mkChan (drop n (ch_buf ch)) (ch_cap ch) (ch_closed ch)]> (heap s))
              (roomStreams s),
     evs).
Proof.
  revert ss s ch. induction n as [|n IH]; intros ss s ch Hph Hch Hn; simpl.
  - rewrite app_nil_r. rewrite insert_id by (rewrite Hch; by destruct ch).
    destruct ss, s; simpl in *. by subst.
  - rewrite Hph, Hch. simpl. unfold try_recv.
    destruct ch as [[|m buf] cap cl]; simpl in *; [lia|].
    rewrite app_nil_r. rewrite (IH _ _ (mkChan buf cap cl)); simpl.
    + rewrite insert_insert_eq. unfold set_run. simpl. by rewrite <- app_assoc.
    + done.
    + by rewrite lookup_insert_eq.
    + simpl. lia.
Qed.

(** The first half of a SendMessage that passes validation and the
    membership check, on a store that takes the hash and the list entry:
    the message is made and stored, and the channels and the registry
    are not touched. *)
Lemma SendMessage_publish_ok req e s :
  sm_UserId req ≠ "" → sm_RoomId req ≠ "" → sm_Content req ≠ "" →
  fails e 0 = false → fails e 1 = false → fails e 2 = false →
  Redis.SIsMember (users_key (sm_RoomId req)) (sm_UserId req) (rdb s) = true →
  let msg := mkMessage (env_uuid e) (sm_UserId req) (sm_RoomId req) (sm_Content req)
                       (Time.unix_millis (env_now e)) in
  ∃ s' evs,
    SendMessage_publish req e s = (Ok msg, s', evs) ∧
    heap s' = heap s ∧ roomStreams s' = roomStreams s ∧
    Redis.hashes (rdb s') =
      Redis.hashes (Redis.HSet (message_key (env_uuid e)) (message_fields req (env_now e))
                               (rdb s)) ∧
    Redis.sets (rdb s') = Redis.sets (rdb s) ∧
    Redis.subs (rdb s') =
      if fails e 4 then Redis.subs (rdb s)
      else Redis.deliver (room_channel (sm_RoomId req)) (env_uuid e) <$> Redis.subs (rdb s).
Proof.
  intros Hu Hr Hc H0 H1 H2 Hm msg. unfold SendMessage_publish.
  rewrite !decide_False by done. rewrite H0, Hm, H1, H2. simpl. fold msg.
  destruct (fails e 3); destruct (fails e 4); eexists _, _; split_and!; done.
Qed.

(** The second half of SendMessage, every registered channel being open:
    the response carries the message, and every channel registered for
    its room has been offered it. *)
Lemma SendMessage_broadcast_ok msg s :
  registry_live s → registry_inj s →
  ∃ s' evs,
    SendMessage_broadcast msg s = (Ok (mkSendMessageResponse true msg), s', evs) ∧
    rdb s' = rdb s ∧ roomStreams s' = roomStreams s ∧
    (∀ user c, reg_lookup (roomStreams s) (RoomId msg) user = Some c →
               heap s' !! c = offer msg <$> heap s !! c) ∧
    (∀ c, (∀ user, reg_lookup (roomStreams s) (RoomId msg) user ≠ Some c) →
          heap s' !! c = heap s !! c).
Proof.
  intros Hlive Hinj. unfold SendMessage_broadcast.
  destruct (broadcastMessage_each msg s Hlive Hinj) as (h' & -> & Hsub & Hother).
  eexists _, _. split_and!; done.
Qed.

(** A SendMessage call during which nothing else runs is the schedule
    in which its second half follows its first at once. *)
Lemma step_SendMessage_split req e w :
  step (OpSendMessage req e) w =
  run [OpPublish req e; OpBroadcast (length (inflight w))] w.
Proof.
  unfold run. cbn [foldl]. 
  destruct (crashed w) eqn:Hcr.
  { unfold step. rewrite Hcr. simpl. by rewrite Hcr. }
  unfold step at 1 3. rewrite Hcr. unfold after, SendMessage.
  destruct (SendMessage_publish_srv req e (srv w)) as (_ & _ & _ & Hp).
  destruct (SendMessage_publish req e (srv w)) as [[[msg|c m|r] s1] evs];
    simpl in Hp; try done.
  - unfold step. cbn [crashed inflight srv sessions trace].
    rewrite lookup_app_r, Nat.sub_diag by done. cbn [lookup list_lookup].
    destruct (SendMessage_broadcast msg s1) as [[o s2] evb].
    rewrite app_assoc. f_equal.
    by rewrite delete_middle, app_nil_r.
  - unfold step. cbn [crashed inflight srv sessions trace]. by rewrite lookup_ge_None_2.
Qed.

(** C2 (as the code has it): a member's SendMessage to room R, the store
    taking the message, makes the message and publishes it; from then to
    its [broadcastMessage] the call holds no lock and anything may run.
    Whatever has run in between, when the call comes to broadcast and
    user U has a stream in its loop whose channel is the one registered
    for (R, U), the call returns the message; if U's channel has room at
    that moment, that same message, all five fields, is put at the end
    of the channel, and U's loop writes the channel to the transport in
    order, so the message is on U's stream, behind what was buffered
    before it, after as many receive rounds as the buffer was long plus
    one; if the channel is full at that moment, it is left as it was:
    the message is dropped for U. *)
Theorem C2_sent_message_reaches_stream
    (d : Redis.db) (ops between : list op) (req : SendMessageRequest) (e : env)
    (k i : nat) (ss : session) (ch : chan) :
  let w0 := run ops (start d) in
  let w := run between (step (OpPublish req e) w0) in
  let msg := mkMessage (env_uuid e) (sm_UserId req) (sm_RoomId req) (sm_Content req)
                       (Time.unix_millis (env_now e)) in
  sm_UserId req ≠ "" → sm_RoomId req ≠ "" → sm_Content req ≠ "" →
  fails e 0 = false → fails e 1 = false → fails e 2 = false →
  Redis.SIsMember (users_key (sm_RoomId req)) (sm_UserId req) (rdb (srv w0)) = true →
  inflight w !! k = Some msg →
  sessions w !! i = Some ss → ss_phase ss = Streaming →
  reg_lookup (roomStreams (srv w)) (sm_RoomId req) (st_UserId (ss_req ss)) = Some (msgChan ss) →
  heap (srv w) !! msgChan ss = Some ch →
  inflight (step (OpPublish req e) w0) = inflight w0 ++ [msg] ∧
  ∃ s' evs,
    SendMessage_broadcast msg (srv w) = (Ok (mkSendMessageResponse true msg), s', evs) ∧
    srv (step (OpBroadcast k) w) = s' ∧
    (length (ch_buf ch) < ch_cap ch →
     heap s' !! msgChan ss = Some (mkChan (ch_buf ch ++ [msg]) (ch_cap ch) false) ∧
     ∃ ss' s'',
       session_steps (replicate (S (length (ch_buf ch))) (Receive true)) ss s' = (ss', s'', []) ∧
       sent ss' = sent ss ++ ch_buf ch ++ [msg] ∧
       ss_phase ss' = Streaming) ∧
    (ch_cap ch ≤ length (ch_buf ch) → heap s' !! msgChan ss = Some ch).
Proof.
  intros w0 w msg Hu Hr Hc H0 H1 H2 Hm Hk Hi Hph Hreg Hch.
  pose proof (inv_run ops (start d) (inv_start d)) as Hinv0. fold w0 in Hinv0.
  pose proof (inv_run between _ (inv_step (OpPublish req e) _ Hinv0)) as Hinv. fold w in Hinv.
  split.
  { unfold step. rewrite (inv_alive _ Hinv0).
    destruct (SendMessage_publish_ok req e (srv w0) Hu Hr Hc H0 H1 H2 Hm)
      as (s1 & evs1 & -> & _). done. }
  destruct (SendMessage_broadcast_ok msg (srv w) (inv_live _ Hinv) (inv_inj _ Hinv))
    as (s' & evs & Hsend & _ & _ & Hheap & _).
  specialize (Hheap _ _ Hreg). rewrite Hch in Hheap. simpl in Hheap.
  unfold offer in Hheap.
  exists s', evs. split_and!; [exact Hsend| | |].
  - unfold step. rewrite (inv_alive _ Hinv), Hk, Hsend. done.
  - intros Hroom. apply Nat.ltb_lt in Hroom. rewrite Hroom in Hheap.
    pose proof (session_steps_receive (S (length (ch_buf ch))) ss s' _ [] Hph Hheap) as Hrun.
    simpl in Hrun. rewrite length_app in Hrun. simpl in Hrun.
    specialize (Hrun ltac:(lia)).
    split; [exact Hheap|]. eexists _, _.
    split_and!; [exact Hrun| |done].
    simpl. rewrite take_ge; [done|]. rewrite length_app. simpl. lia.
  - intros Hfull. apply Nat.ltb_ge in Hfull. by rewrite Hfull in Hheap.
Qed.

(** C2, counterexample: bob is a member with a stream open on "weather"
    and alice's SendMessage of "late" succeeds, but bob's channel is full
    at that moment: the broadcast drops the message for bob and so does
    the listener; when both queues are empty again bob's stream has
    carried the first keep-alive and the 200 earlier messages, and no
    message with the ID that SendMessage returned. *)
Lemma C2_counterexample_dropped_for_full_channel :
  Redis.SIsMember (users_key "weather") "bob" (rdb (srv backlog)) = true ∧
  reg_lookup (roomStreams (srv backlog)) "weather" "bob" = Some 0 ∧
  (ss_phase <$> sessions backlog !! 0) = Some Streaming ∧
  (SendMessage late late_env (srv backlog)).1.1 =
    Ok (mkSendMessageResponse true
          (mkMessage "m200" "alice" "weather" "late" 1762094045123)) ∧
  (ss_phase <$> sessions drained !! 0) = Some Streaming ∧
  (length ∘ sent <$> sessions drained !! 0) = Some 201 ∧
  ((λ ss, bool_decide ("m200" ∈ Id <$> sent ss)) <$> sessions drained !! 0) = Some false ∧
  (ch_buf <$> heap (srv drained) !! 0) = Some [] ∧
  (Redis.ps_pending <$> Redis.subs (rdb (srv drained)) !! 0) = Some [].
Proof. split_and!; compute_done. Qed.

(** The same loss with a slot to spare: bob's channel holds 199 messages
    when alice's call publishes "late"; before the call broadcasts, bob's
    listener relays a payload and takes the last slot, and the broadcast
    drops for bob the very message the call returns. *)
Lemma relay_takes_the_last_slot :
  (length ∘ ch_buf <$> heap (srv (run (bob_listening ++ alice_sends 199) init)) !! 0)
    = Some 199 ∧
  inflight squeezed = [mkMessage "m200" "alice" "weather" "late" 1762094045123] ∧
  (length ∘ ch_buf <$> heap (srv squeezed) !! 0) = Some 200 ∧
  (SendMessage_broadcast (mkMessage "m200" "alice" "weather" "late" 1762094045123)
                         (srv squeezed)).1.1
    = Ok (mkSendMessageResponse true
            (mkMessage "m200" "alice" "weather" "late" 1762094045123)) ∧
  heap (srv (step (OpBroadcast 0) squeezed)) !! 0 = heap (srv squeezed) !! 0 ∧
  ((λ ch, bool_decide ("m200" ∈ Id <$> ch_buf ch))
     <$> heap (srv (step (OpBroadcast 0) squeezed)) !! 0) = Some false.
Proof. split_and!; compute_done. Qed.

(** The copy relayed through Redis carries the stored RFC3339 timestamp,
    which has whole seconds only: same ID, another [Timestamp]. *)
Lemma relayed_copy_loses_milliseconds :
  (sent <$> sessions echoed !! 0) =
    Some [mkMessage "keep-alive" "bob" "weather" "" 1762093845123;
          mkMessage "m0" "alice" "weather" "hello" 1762093845123;
          mkMessage "m0" "alice" "weather" "hello" 1762093845000].
Proof. compute_done. Qed.

(** ** The theorems at concrete requests *)

(** C5 at work: an empty content, and mallory, who never joined "weather". *)
Lemma C5_witness_mallory_rejected :
  (∃ msg, SendMessage (mkSendMessageRequest "alice" "weather" "") quiet_env weather
          = (Error InvalidArgument msg, weather, [])) ∧
  Redis.SIsMember (users_key "weather") "mallory" (rdb weather) = false ∧
  SendMessage (mkSendMessageRequest "mallory" "weather" "hi") quiet_env weather
    = (Error PermissionDenied "user is not in the room", weather, []) ∧
  StreamMessages_open (mkStreamMessagesRequest "mallory" "weather") quiet_env weather
    = (Error PermissionDenied "user is not in the room", weather, []).
Proof.
  assert (Hm : Redis.SIsMember (users_key "weather") "mallory" (rdb weather) = false)
    by (vm_compute; reflexivity).
  split_and!.
  - apply (C5_rejections_precede_side_effects
             (mkSendMessageRequest "alice" "weather" "")
             (mkStreamMessagesRequest "mallory" "weather") quiet_env weather).
    right. right. reflexivity.
  - exact Hm.
  - apply (C5_rejections_precede_side_effects
             (mkSendMessageRequest "mallory" "weather" "hi")
             (mkStreamMessagesRequest "mallory" "weather") quiet_env weather);
      [discriminate | discriminate | discriminate | reflexivity | exact Hm].
  - apply (C5_rejections_precede_side_effects
             (mkSendMessageRequest "mallory" "weather" "hi")
             (mkStreamMessagesRequest "mallory" "weather") quiet_env weather);
      [discriminate | discriminate | reflexivity | exact Hm].
Defined.

(** C9 at work, on a store whose every command would fail. *)
Lemma C9_witness_empty_ids :
  (∃ msg, StreamMessages_open (mkStreamMessagesRequest "" "weather")
            (mkEnv t0 "" [true; true]) weather = (Error InvalidArgument msg, weather, [])) ∧
  (∃ msg, LeaveRoom (mkLeaveRoomRequest "alice" "")
            (mkEnv t0 "" [true; true]) weather = (Error InvalidArgument msg, weather, [])).
Proof.
  split.
  - apply (C9_stream_and_leave_validate_ids (mkStreamMessagesRequest "" "weather")
             (mkLeaveRoomRequest "alice" "") (mkEnv t0 "" [true; true]) weather).
    left. reflexivity.
  - apply (C9_stream_and_leave_validate_ids (mkStreamMessagesRequest "" "weather")
             (mkLeaveRoomRequest "alice" "") (mkEnv t0 "" [true; true]) weather).
    right. reflexivity.
Defined.

(** C10 at work: carol joins "weather" twice. *)
Lemma C10_witness_join_twice :
  ∃ ms1 s1 evs1 ms2 evs2,
    JoinRoom (mkJoinRoomRequest "carol" "weather") quiet_env weather
      = (Ok (mkJoinRoomResponse true ms1), s1, evs1) ∧
    "carol" ∈ Redis.smembers (users_key "weather") (rdb s1) ∧
    "weather" ∈ Redis.smembers (rooms_key "carol") (rdb s1) ∧
    JoinRoom (mkJoinRoomRequest "carol" "weather") quiet_env s1
      = (Ok (mkJoinRoomResponse true ms2), s1, evs2).
Proof.
  apply (C10_join_is_open_and_idempotent
           (mkJoinRoomRequest "carol" "weather") quiet_env quiet_env weather);
    first [discriminate | reflexivity].
Defined.

(** C7 at work: the 1001st message of a room pushes ["m0"] out. *)
Lemma C7_witness_oldest_evicted :
  ∃ resp s' evs,
    SendMessage (mkSendMessageRequest "alice" "weather" "hello") (mkEnv t0 "m1000" [])
                full_history = (Ok resp, s', evs) ∧
    length (Redis.lget (messages_key "weather") (rdb s')) ≤ 1000 ∧
    Redis.lget (messages_key "weather") (rdb s') =
      Id (sm_Message resp) :: take 999 (Redis.lget (messages_key "weather") (rdb full_history)).
Proof.
  set (req := mkSendMessageRequest "alice" "weather" "hello").
  set (e := mkEnv t0 "m1000" []).
  assert (E : SendMessage req e full_history =
              (Ok (mkSendMessageResponse true
                     (mkMessage "m1000" "alice" "weather" "hello" 1762093845123)),
               (SendMessage req e full_history).1.2, (SendMessage req e full_history).2)).
  { apply result_eta. vm_compute. reflexivity. }
  destruct (C7_history_trimmed_to_1000 req e full_history _ _ _ E) as (Htrim & _ & _).
  destruct (Htrim eq_refl) as (_ & Hlen & Hevict).
  eexists _, _, _. split; [exact E|]. split; [exact Hlen|].
  apply Hevict. apply Nat.leb_le. vm_compute. reflexivity.
Defined.

(** C8 at work: bob leaves "weather" twice while his stream is open. *)
Lemma C8_witness_leave_twice :
  ∃ s1 evs1,
    LeaveRoom (mkLeaveRoomRequest "bob" "weather") quiet_env (srv (run bob_listening init))
      = (Ok (mkLeaveRoomResponse true), s1, evs1) ∧
    LeaveRoom (mkLeaveRoomRequest "bob" "weather") quiet_env s1
      = (Ok (mkLeaveRoomResponse true), s1, []).
Proof.
  apply (C8_leave_room_twice Redis.empty bob_listening (mkLeaveRoomRequest "bob" "weather")
           quiet_env quiet_env); first [discriminate | reflexivity].
Defined.

(** C3 at work: one broadcast to the room bob listens to. *)
Lemma C3_witness_bob_gets_message :
  let s := srv (run bob_listening init) in
  let msg := mkMessage "m0" "alice" "weather" "hello" 1762093845123 in
  reg_lookup (roomStreams s) "weather" "bob" = Some 0 ∧
  heap s !! 0 = Some (make 200) ∧
  ∃ h', broadcastMessage msg s =
          (Ok (), mkServer (rdb s) h' (roomStreams s),
           replicate (length (slow_subscribers "weather" s)) LogChannelFull) ∧
        h' !! 0 = Some (mkChan [msg] 200 false).
Proof.
  intros s msg.
  assert (Hreg : reg_lookup (roomStreams s) "weather" "bob" = Some 0)
    by (vm_compute; reflexivity).
  assert (Hch : heap s !! 0 = Some (make 200)) by (vm_compute; reflexivity).
  split; [exact Hreg|]. split; [exact Hch|].
  destruct (C3_broadcast_one_attempt_each Redis.empty bob_listening msg) as (h' & Hb & Hsub & _).
  exists h'. split; [exact Hb|].
  exact (Hsub "bob" 0 (make 200) Hreg Hch).
Defined.

(** C1 at work: bob opens a second stream on "weather". *)
Lemma C1_witness_second_stream_replaces :
  let s := srv (run bob_listening init) in
  let req := mkStreamMessagesRequest "bob" "weather" in
  reg_lookup (roomStreams s) "weather" "bob" = Some 0 ∧
  ∃ ss s' evs,
    StreamMessages_open req quiet_env s = (Ok ss, s', evs) ∧
    reg_lookup (roomStreams s') "weather" "bob" = Some (msgChan ss) ∧
    closedness (heap s') (msgChan ss) = Some false ∧
    closedness (heap s') 0 = Some true ∧
    closes evs = [0] ∧
    ∀ r u, reg_lookup (roomStreams s') r u ≠ Some 0.
Proof.
  intros s req.
  assert (Hreg : reg_lookup (roomStreams s) "weather" "bob" = Some 0)
    by (vm_compute; reflexivity).
  split; [exact Hreg|].
  assert (E : StreamMessages_open req quiet_env s =
              (Ok (mkSession req 1 false 1 false Registered [] None t0 t0 true),
               (StreamMessages_open req quiet_env s).1.2,
               (StreamMessages_open req quiet_env s).2)).
  { apply result_eta. vm_compute. reflexivity. }
  destruct (C1_registry_one_live_channel Redis.empty bob_listening req quiet_env)
    as (_ & _ & _ & _ & Hopen).
  destruct (Hopen _ _ _ E) as (Hnew & _ & Hlive & Hold).
  destruct (Hold 0 Hreg) as (Hclosed & Hcl & Hgone).
  eexists _, _, _. split; [exact E|].
  split; [exact Hnew|]. split; [exact Hlive|]. split; [exact Hclosed|].
  split; [exact Hcl|exact Hgone].
Defined.

(** C4 at work: half a minute of a stream with no traffic. *)
Lemma C4_witness_three_ticks :
  let s := srv (run [join "bob" "weather"] init) in
  let req := mkStreamMessagesRequest "bob" "weather" in
  ∃ ss s' evs ss',
    StreamMessages_open req quiet_env s = (Ok ss, s', evs) ∧
    session_steps (quiet t0 3) ss s' = (ss', s', []) ∧
    ss_phase ss' = Streaming ∧
    sent ss' = [mkMessage "keep-alive" "bob" "weather" "" 1762093845123;
                mkMessage "keep-alive" "bob" "weather" "" 1762093855123;
                mkMessage "keep-alive" "bob" "weather" "" 1762093865123;
                mkMessage "keep-alive" "bob" "weather" "" 1762093875123].
Proof.
  intros s req.
  assert (E : StreamMessages_open req quiet_env s =
              (Ok (mkSession req 0 false 0 false Registered [] None t0 t0 true),
               (StreamMessages_open req quiet_env s).1.2,
               (StreamMessages_open req quiet_env s).2)).
  { apply result_eta. vm_compute. reflexivity. }
  destruct (C4_keep_alive_first_and_every_tick Redis.empty [join "bob" "weather"] req
              quiet_env 3)
    as (_ & Hrun & _).
  destruct (Hrun _ _ _ E) as ((ss' & Hsteps & Hph & Hsent) & _).
  eexists _, _, _, ss'. split; [exact E|].
  split; [exact Hsteps|]. split; [exact Hph|]. exact Hsent.
Defined.

(** C2 at work: alice says "hello" while bob listens, and bob's listener
    relays the stored copy before alice's call comes to broadcast. *)
Lemma C2_witness_bob_receives_hello :
  let req := mkSendMessageRequest "alice" "weather" "hello" in
  let w := run [OpSession 0 (Listen t0 false)]
               (step (OpPublish req quiet_env) (run bob_listening init)) in
  let msg := mkMessage "m0" "alice" "weather" "hello" 1762093845123 in
  let relayed := mkMessage "m0" "alice" "weather" "hello" 1762093845000 in
  let ka := mkMessage "keep-alive" "bob" "weather" "" 1762093845123 in
  let bob := mkSession (mkStreamMessagesRequest "bob" "weather") 0 false 0 false
                       Streaming [ka] None t0 t0 true in
  sessions w !! 0 = Some bob ∧
  heap (srv w) !! 0 = Some (mkChan [relayed] 200 false) ∧
  ∃ s' evs ss' s'',
    SendMessage_broadcast msg (srv w) = (Ok (mkSendMessageResponse true msg), s', evs) ∧
    heap s' !! 0 = Some (mkChan [relayed; msg] 200 false) ∧
    session_steps [Receive true; Receive true] bob s' = (ss', s'', []) ∧
    sent ss' = [ka; relayed; msg] ∧
    ss_phase ss' = Streaming.
Proof.
  intros req w msg relayed ka bob.
  assert (Hi : sessions w !! 0 = Some bob) by (vm_compute; reflexivity).
  assert (Hch : heap (srv w) !! 0 = Some (mkChan [relayed] 200 false))
    by (vm_compute; reflexivity).
  split; [exact Hi|]. split; [exact Hch|].
  assert (Hm : Redis.SIsMember (users_key "weather") "alice"
                 (rdb (srv (run bob_listening init))) = true)
    by (vm_compute; reflexivity).
  assert (Hk : inflight w !! 0 = Some msg) by (vm_compute; reflexivity).
  assert (Hreg : reg_lookup (roomStreams (srv w)) "weather" "bob" = Some 0)
    by (vm_compute; reflexivity).
  assert (Hne : ∀ a b, String a b ≠ "") by discriminate.
  destruct (C2_sent_message_reaches_stream Redis.empty bob_listening
              [OpSession 0 (Listen t0 false)] req quiet_env 0 0 bob
              (mkChan [relayed] 200 false) (Hne _ _) (Hne _ _) (Hne _ _) eq_refl eq_refl eq_refl
              Hm Hk Hi eq_refl Hreg Hch) as (_ & s' & evs & Hsend & _ & Hroom & _).
  destruct Hroom as (Hheap & ss' & s'' & Hrun & Hsent & Hph); [simpl; lia|].
  exists s', evs, ss', s''.
  split; [exact Hsend|]. split; [exact Hheap|]. split; [exact Hrun|].
  split; [exact Hsent|exact Hph].
Defined.

(** * Further properties of the handlers and of the client *)

(** ** Round trip of the timestamp through [Format] and [Parse] *)

Lemma all_from_spec n k f :
  all_from n k f = true → ∀ j, (k ≤ j < k + Z.of_nat n)%Z → f j = true.
Proof.
  revert k. induction n as [|n IH]; simpl; intros k H j Hj; [lia|].
  apply andb_true_iff in H as [H1 H2].
  destruct (decide (j = k)) as [->|Hne]; [done|].
  apply (IH _ H2). lia.
Qed.

Lemma number_two_digits n :
  (0 ≤ n < 100)%Z → Time.number [Time.digit (n / 10); Time.digit n] 0 = Some n.
Proof.
  intros Hn.
  assert (H : all_from (Z.to_nat 100) 0 two_digits_ok = true) by (vm_compute; reflexivity).
  pose proof (all_from_spec _ _ _ H n ltac:(lia)) as Hok.
  unfold two_digits_ok, opt_is in Hok. destruct (Time.number _ _); [|done].
  apply Z.eqb_eq in Hok. by subst.
Qed.

Lemma number_four_digits n :
  (0 ≤ n < 10000)%Z →
  Time.number [Time.digit (n / 1000); Time.digit (n / 100); Time.digit (n / 10); Time.digit n] 0
  = Some n.
Proof.
  intros Hn.
  assert (H : all_from (Z.to_nat 10000) 0 four_digits_ok = true) by (vm_compute; reflexivity).
  pose proof (all_from_spec _ _ _ H n ltac:(lia)) as Hok.
  unfold four_digits_ok, opt_is in Hok. destruct (Time.number _ _); [|done].
  apply Z.eqb_eq in Hok. by subst.
Qed.

Lemma era_days_ok doe : (0 ≤ doe < 146097)%Z → era_day_ok doe = true.
Proof.
  intros Hn.
  assert (H : all_from (Z.to_nat 146097) 0 era_day_ok = true).
  { vm_cast_no_check (eq_refl true). }
  apply (all_from_spec _ _ _ H). lia.
Qed.

Lemma daysIn_era m y k : Time.daysIn m (y + k * 400) = Time.daysIn m y.
Proof.
  unfold Time.daysIn, Time.isLeap.
  replace ((y + k * 400) mod 4)%Z with (y mod 4)%Z
    by (replace (y + k * 400)%Z with (y + (k * 100) * 4)%Z by lia; by rewrite Z.mod_add).
  replace ((y + k * 400) mod 100)%Z with (y mod 100)%Z
    by (replace (y + k * 400)%Z with (y + (k * 4) * 100)%Z by lia; by rewrite Z.mod_add).
  by rewrite Z.mod_add.
Qed.

Lemma civil_round_trip days :
  let era := ((days + 719468) / 146097)%Z in
  ∃ y m d,
    Time.civil_from_days days = (y, m, d) ∧
    Time.days_from_civil y m d = days ∧
    (1 ≤ m ≤ 12 ∧ 1 ≤ d ≤ Time.daysIn m y ∧ era * 400 ≤ y ≤ era * 400 + 400)%Z.
Proof.
  intros era.
  set (doe := (days + 719468 - era * 146097)%Z).
  assert (Hdoe : (0 ≤ doe < 146097)%Z).
  { unfold doe, era. pose proof (Z.mod_pos_bound (days + 719468) 146097 ltac:(lia)).
    rewrite Z.mod_eq in H by lia. lia. }
  pose proof (era_days_ok doe Hdoe) as Hok. unfold era_day_ok in Hok.
  destruct (Time.civil_from_days (doe - 719468)) as [[y0 m] d] eqn:E0.
  repeat (apply andb_true_iff in Hok as [Hok ?]).
  assert (Hy0 : (0 ≤ (if m <=? 2 then y0 - 1 else y0) < 400)%Z) by lia.
  assert (Hback : Time.days_from_civil y0 m d = (doe - 719468)%Z) by lia.
  exists (y0 + era * 400)%Z, m, d.
  rewrite daysIn_era.
  split_and!; try lia.
  - revert E0. unfold Time.civil_from_days. cbv zeta.
    replace (doe - 719468 + 719468)%Z with doe by lia.
    rewrite (Z.div_small doe 146097) by lia.
    replace (doe - 0 * 146097)%Z with doe by lia.
    fold era. fold doe.
    intros [= E1 E2 E3]. rewrite E2, E3. f_equal. f_equal.
    rewrite E2 in E1. destruct (m <=? 2)%Z; lia.
  - revert Hback. unfold Time.days_from_civil. cbv zeta.
    set (y1 := (if m <=? 2 then y0 - 1 else y0)%Z) in *.
    replace (if (m <=? 2)%Z then (y0 + era * 400 - 1)%Z else (y0 + era * 400)%Z)
      with (y1 + era * 400)%Z by (unfold y1; destruct (m <=? 2)%Z; lia).
    rewrite (Z.div_small y1 400) by lia.
    rewrite Z.div_add by lia. rewrite (Z.div_small y1 400) by lia.
    replace (y1 - 0 * 400)%Z with y1 by lia.
    replace (y1 + era * 400 - (0 + era) * 400)%Z with y1 by lia.
    unfold doe. lia.
  - destruct (m <=? 2)%Z; lia.
  - destruct (m <=? 2)%Z; lia.
Qed.

Lemma is_char_same c : Time.is_char c (String c EmptyString) = true.
Proof. unfold Time.is_char. by rewrite decide_True. Qed.

Lemma Parse_Format t :
  (0 ≤ t < 2 ^ 63)%Z → Time.Parse (Time.Format t) = Some (t / Time.Second * Time.Second)%Z.
Proof.
  intros Ht. unfold Time.Format.
  set (secs := (t / Time.Second)%Z).
  assert (Hsecs : (0 ≤ secs < 9223372037)%Z).
  { unfold secs, Time.Second. split; [apply Z.div_pos; lia|].
    apply Z.div_lt_upper_bound; lia. }
  set (days := (secs / 86400)%Z).
  assert (Hdays : (0 ≤ days < 106752)%Z).
  { unfold days. split; [apply Z.div_pos; lia|]. apply Z.div_lt_upper_bound; lia. }
  set (rem := (secs mod 86400)%Z).
  assert (Hrem : (0 ≤ rem < 86400)%Z) by (apply Z.mod_pos_bound; lia).
  destruct (civil_round_trip days) as (y & m & d & E & Hback & Hm & Hd & Hy).
  assert (Hd31 : (d ≤ 31)%Z).
  { destruct Hd as [_ Hd]. revert Hd. unfold Time.daysIn.
    repeat (case_match; try lia). }
  assert (Hera : (4 ≤ (days + 719468) / 146097 ≤ 5)%Z).
  { split; [apply Z.div_le_lower_bound; lia|].
    apply Z.lt_succ_r. apply Z.div_lt_upper_bound; lia. }
  rewrite E. unfold Time.Parse, Time.pad4, Time.pad2.
  cbv [String.append list_ascii_of_string].
  rewrite !is_char_same. cbn [andb].
  assert (Hh : (0 ≤ rem / 3600 < 24)%Z).
  { split; [apply Z.div_pos; lia|]. apply Z.div_lt_upper_bound; lia. }
  assert (Hn : (0 ≤ (rem / 60) mod 60 < 60)%Z) by (apply Z.mod_pos_bound; lia).
  assert (He : (0 ≤ rem mod 60 < 60)%Z) by (apply Z.mod_pos_bound; lia).
  rewrite number_four_digits by lia.
  rewrite !number_two_digits by lia.
  cbn [mbind option_bind].
  rewrite (proj2 (Z.leb_le 1 m)), (proj2 (Z.leb_le m 12)), (proj2 (Z.leb_le 1 d)),
    (proj2 (Z.leb_le d _)), (proj2 (Z.ltb_lt _ 24)), (proj2 (Z.ltb_lt _ 60)),
    (proj2 (Z.ltb_lt (rem mod 60) 60)) by lia.
  cbn [andb]. rewrite Hback. f_equal. f_equal.
  unfold days, rem. Z.to_euclidean_division_equations. lia.
Qed.

Lemma unix_millis_nonneg t :
  (0 ≤ t < 2 ^ 63)%Z → Time.unix_millis t = (t / Time.Millisecond)%Z.
Proof.
  intros Ht. unfold Time.unix_millis, Time.UnixNano, Time.wrap64, Time.Millisecond.
  rewrite (Z.mod_small (t + 2 ^ 63)) by lia.
  replace (t + 2 ^ 63 - 2 ^ 63)%Z with t by lia.
  rewrite Z.quot_div_nonneg by lia.
  assert (0 ≤ t / 1000000 ≤ t)%Z.
  { split; [apply Z.div_pos; lia|]. apply Z.div_le_upper_bound; lia. }
  rewrite Z.mod_small by lia. lia.
Qed.

(** ** What the store keeps of a message *)

Lemma field_message_fields key req now d :
  let m := Redis.HGetAll key (Redis.HSet key (message_fields req now) d) in
  field m "user_id" = sm_UserId req ∧ field m "room_id" = sm_RoomId req ∧
  field m "content" = sm_Content req ∧ field m "timestamp" = Time.Format now.
Proof.
  unfold Redis.HGetAll, Redis.HSet, field, message_fields. simpl.
  rewrite lookup_insert_eq. simpl.
  split_and!.
  - erewrite lookup_union_Some_l; [done|]. by rewrite lookup_insert_eq.
  - erewrite lookup_union_Some_l; [done|].
    rewrite lookup_insert_ne by done. by rewrite lookup_insert_eq.
  - erewrite lookup_union_Some_l; [done|].
    rewrite !lookup_insert_ne by done. by rewrite lookup_insert_eq.
  - erewrite lookup_union_Some_l; [done|].
    rewrite !lookup_insert_ne by done. by rewrite lookup_insert_eq.
Qed.

Lemma resolve_message_fields req e d :
  (0 ≤ env_now e < 2 ^ 63)%Z →
  resolve (env_uuid e)
    (Redis.HGetAll (message_key (env_uuid e))
       (Redis.HSet (message_key (env_uuid e)) (message_fields req (env_now e)) d))
  = Some (stored_message req e).
Proof.
  intros Hnow. unfold resolve.
  destruct (field_message_fields (message_key (env_uuid e)) req (env_now e) d)
    as (-> & -> & -> & ->).
  rewrite Parse_Format by done. simpl. unfold stored_message. do 2 f_equal.
  assert (Hs : (0 ≤ env_now e / Time.Second * Time.Second ≤ env_now e)%Z).
  { unfold Time.Second. Z.to_euclidean_division_equations. lia. }
  rewrite unix_millis_nonneg by lia.
  unfold Time.Second, Time.Millisecond. Z.to_euclidean_division_equations. lia.
Qed.

(** What a successful SendMessage leaves in the hashes, the membership
    sets and the subscriptions of the store. *)
Lemma SendMessage_store req e s resp s' evs :
  SendMessage req e s = (Ok resp, s', evs) →
  Redis.hashes (rdb s') =
    Redis.hashes (Redis.HSet (message_key (env_uuid e)) (message_fields req (env_now e)) (rdb s)) ∧
  Redis.sets (rdb s') = Redis.sets (rdb s) ∧
  Redis.subs (rdb s') =
    if fails e 4 then Redis.subs (rdb s)
    else Redis.deliver (room_channel (sm_RoomId req)) (env_uuid e) <$> Redis.subs (rdb s).
Proof.
  rewrite SendMessage_unfold; cbv zeta. repeat case_decide; try done.
  destruct (fails e 0); [done|]. destruct (negb _); [done|].
  destruct (fails e 1); [done|]. destruct (fails e 2); [done|].
  destruct (fails e 3); destruct (fails e 4);
    match goal with |- context [broadcastMessage ?m ?s0] =>
      pose proof (broadcastMessage_rdb m s0) as Hb;
      destruct (broadcastMessage m s0) as [[o s1] evb] end;
    destruct o; intros [= <- <- <-]; simpl in *; by rewrite Hb.
Qed.

Lemma lget_SAdd k k' m d : Redis.lget k (Redis.SAdd k' m d) = Redis.lget k d.
Proof. done. Qed.

Lemma HGetAll_SAdd k k' m d : Redis.HGetAll k (Redis.SAdd k' m d) = Redis.HGetAll k d.
Proof. done. Qed.

Lemma fails_drop e n k : default false (drop n (env_faults e) !! k) = fails e (n + k).
Proof. unfold fails. by rewrite lookup_drop. Qed.

Lemma head_drop_faults e n : default false (head (drop n (env_faults e))) = fails e n.
Proof. rewrite head_lookup, fails_drop. f_equal. lia. Qed.

(** X1 (SendMessage, JoinRoom's message loop).  The message that a
    successful SendMessage returns carries the send instant in
    milliseconds, but the hash it stores holds an RFC3339 string: read
    back, the stored message has the returned ID, user, room and content
    and the timestamp cut to the whole second.  The two are the same
    message only when the send instant falls on a whole second. *)
Theorem history_keeps_whole_seconds
    (req : SendMessageRequest) (e : env) (s s' : ChatCloudServer)
    (resp : SendMessageResponse) (evs : list event) :
  (0 ≤ env_now e < 2 ^ 63)%Z →
  SendMessage req e s = (Ok resp, s', evs) →
  Timestamp (sm_Message resp) = (env_now e / Time.Millisecond)%Z ∧
  resolve (env_uuid e) (Redis.HGetAll (message_key (env_uuid e)) (rdb s'))
    = Some (stored_message req e) ∧
  (Timestamp (stored_message req e) ≤ Timestamp (sm_Message resp)
     < Timestamp (stored_message req e) + 1000)%Z ∧
  (stored_message req e = sm_Message resp ↔
   ((env_now e / Time.Millisecond) mod 1000 = 0)%Z).
Proof.
  intros Hnow Hsend.
  destruct (SendMessage_list _ _ _ _ _ _ Hsend) as (Hmsg & _ & _).
  destruct (SendMessage_store _ _ _ _ _ _ Hsend) as (Hh & _).
  rewrite Hmsg. simpl. rewrite unix_millis_nonneg by done.
  split_and!.
  - done.
  - unfold Redis.HGetAll. rewrite Hh. by apply resolve_message_fields.
  - unfold Time.Second, Time.Millisecond. Z.to_euclidean_division_equations. lia.
  - unfold Time.Second, Time.Millisecond. Z.to_euclidean_division_equations. lia.
  - unfold stored_message. split.
    + intros [= H]. revert H. unfold Time.Second, Time.Millisecond.
      Z.to_euclidean_division_equations. lia.
    + intros H. f_equal. revert H. unfold Time.Second, Time.Millisecond.
      Z.to_euclidean_division_equations. lia.
Qed.

(** X2 (SendMessage then JoinRoom).  Whoever joins the room right after
    a successful SendMessage, the store answering, gets that message as
    the first of recent_messages, with the whole-second timestamp, and at
    most 49 older ones behind it. *)
Theorem join_after_send_lists_message_first
    (sreq : SendMessageRequest) (e : env) (s s' : ChatCloudServer)
    (resp : SendMessageResponse) (evs : list event)
    (jreq : JoinRoomRequest) (e' : env) :
  (0 ≤ env_now e < 2 ^ 63)%Z →
  SendMessage sreq e s = (Ok resp, s', evs) →
  jr_UserId jreq ≠ "" → jr_RoomId jreq = sm_RoomId sreq →
  fails e' 0 = false → fails e' 1 = false → fails e' 2 = false → fails e' 3 = false →
  ∃ rest s'' evs',
    JoinRoom jreq e' s' =
      (Ok (mkJoinRoomResponse true (stored_message sreq e :: rest)), s'', evs') ∧
    length rest ≤ 49.
Proof.
  intros Hnow Hsend Hu Hr H0 H1 H2 H3.
  assert (Hroom : sm_RoomId sreq ≠ "").
  { intros Hemp. destruct (SendMessage_invalid sreq e s) as [m Hm]; [by right; left|].
    by rewrite Hm in Hsend. }
  destruct (SendMessage_list _ _ _ _ _ _ Hsend) as (_ & _ & Hl).
  destruct (SendMessage_store _ _ _ _ _ _ Hsend) as (Hh & _).
  rewrite (JoinRoom_ok jreq e' s') by first [done | by rewrite Hr].
  set (d2 := Redis.SAdd _ _ _).
  assert (∃ tl, Redis.LRange (messages_key (jr_RoomId jreq)) 0 49 d2 = env_uuid e :: tl
                       ∧ length tl ≤ 49) as (tl & -> & Htl).
  { unfold Redis.LRange, d2. rewrite !lget_SAdd, Hr.
    cbv zeta in Hl. rewrite Hl. unfold Redis.slice. rewrite drop_0.
    destruct (fails e 3); simpl; eexists; (split; [done|]); rewrite ?length_take; lia. }
  simpl.
  rewrite head_drop_faults, H3.
  assert (Hres : resolve (env_uuid e) (Redis.HGetAll (message_key (env_uuid e)) d2)
                 = Some (stored_message sreq e)).
  { unfold d2. rewrite !HGetAll_SAdd. unfold Redis.HGetAll. rewrite Hh.
    by apply resolve_message_fields. }
  rewrite Hres.
  pose proof (fetch_messages_length d2 (tail (drop 3 (env_faults e'))) tl) as Hlen.
  destruct (fetch_messages d2 (tail (drop 3 (env_faults e'))) tl) as [ms evs'] eqn:E.
  simpl in *. eexists ms, _, _. split; [done|]. lia.
Qed.

Lemma history_keeps_whole_seconds_witness :
  ∃ resp s' evs,
    SendMessage (mkSendMessageRequest "alice" "weather" "hello") quiet_env weather
      = (Ok resp, s', evs) ∧
    Timestamp (sm_Message resp) = 1762093845123%Z ∧
    resolve "m0" (Redis.HGetAll (message_key "m0") (rdb s'))
      = Some (mkMessage "m0" "alice" "weather" "hello" 1762093845000).
Proof.
  assert (Hsend : SendMessage (mkSendMessageRequest "alice" "weather" "hello") quiet_env weather
                  = (Ok (mkSendMessageResponse true
                           (mkMessage "m0" "alice" "weather" "hello" 1762093845123)),
                     (SendMessage (mkSendMessageRequest "alice" "weather" "hello")
                                  quiet_env weather).1.2,
                     (SendMessage (mkSendMessageRequest "alice" "weather" "hello")
                                  quiet_env weather).2)).
  { apply result_eta. vm_compute. reflexivity. }
  assert (Hnow : (0 ≤ env_now quiet_env < 2 ^ 63)%Z) by (vm_compute; split; [discriminate | reflexivity]).
  destruct (history_keeps_whole_seconds _ _ _ _ _ _ Hnow Hsend) as (_ & Hres & _).
  eexists _, _, _. split; [exact Hsend|]. split; [reflexivity|]. exact Hres.
Defined.

Lemma join_after_send_lists_message_first_witness :
  ∃ rest s'' evs',
    JoinRoom (mkJoinRoomRequest "bob" "weather") quiet_env
             (SendMessage (mkSendMessageRequest "alice" "weather" "hello") quiet_env weather).1.2
    = (Ok (mkJoinRoomResponse true
             (mkMessage "m0" "alice" "weather" "hello" 1762093845000 :: rest)), s'', evs') ∧
    length rest ≤ 49.
Proof.
  assert (Hsend : SendMessage (mkSendMessageRequest "alice" "weather" "hello") quiet_env weather
                  = (Ok (mkSendMessageResponse true
                           (mkMessage "m0" "alice" "weather" "hello" 1762093845123)),
                     (SendMessage (mkSendMessageRequest "alice" "weather" "hello")
                                  quiet_env weather).1.2,
                     (SendMessage (mkSendMessageRequest "alice" "weather" "hello")
                                  quiet_env weather).2)).
  { apply result_eta. vm_compute. reflexivity. }
  assert (Hnow : (0 ≤ env_now quiet_env < 2 ^ 63)%Z) by (vm_compute; split; [discriminate | reflexivity]).
  assert (Hu : jr_UserId (mkJoinRoomRequest "bob" "weather") ≠ "") by discriminate.
  exact (join_after_send_lists_message_first _ _ _ _ _ _
           (mkJoinRoomRequest "bob" "weather") quiet_env
           Hnow Hsend Hu eq_refl eq_refl eq_refl eq_refl eq_refl).
Defined.

(** ** Membership: JoinRoom admits, LeaveRoom revokes *)

Lemma smembers_SRem k m k' d :
  Redis.smembers k' (Redis.SRem k m d) =
  if decide (k = k') then Redis.smembers k d ∖ {[m]} else Redis.smembers k' d.
Proof.
  unfold Redis.SRem, Redis.smembers. simpl.
  destruct (decide (k = k')) as [<-|Hk];
    destruct (decide (default ∅ (Redis.sets d !! k) ∖ {[m]} = ∅)) as [He|He].
  - rewrite lookup_delete_eq. by rewrite He.
  - by rewrite lookup_insert_eq.
  - by rewrite lookup_delete_ne.
  - by rewrite lookup_insert_ne.
Qed.

Lemma users_key_ne_rooms_key r u : users_key r ≠ rooms_key u.
Proof. discriminate. Qed.

Lemma SIsMember_true k m d : Redis.SIsMember k m d = true ↔ m ∈ Redis.smembers k d.
Proof. unfold Redis.SIsMember. apply bool_decide_eq_true. Qed.

Lemma SIsMember_false k m d : Redis.SIsMember k m d = false ↔ m ∉ Redis.smembers k d.
Proof. unfold Redis.SIsMember. apply bool_decide_eq_false. Qed.

(** Membership of the room after the two SADDs of JoinRoom. *)
Lemma member_after_SAdd r u d :
  Redis.SIsMember (users_key r) u (Redis.SAdd (users_key r) u d) = true ∧
  Redis.SIsMember (users_key r) u
    (Redis.SAdd (rooms_key u) r (Redis.SAdd (users_key r) u d)) = true.
Proof.
  split; apply SIsMember_true.
  - apply elem_of_smembers_SAdd.
  - apply smembers_SAdd_mono, elem_of_smembers_SAdd.
Qed.

(** ... and after the SREMs of LeaveRoom. *)
Lemma member_after_SRem r u d :
  Redis.SIsMember (users_key r) u (Redis.SRem (users_key r) u d) = false ∧
  Redis.SIsMember (users_key r) u
    (Redis.SRem (rooms_key u) r (Redis.SRem (users_key r) u d)) = false.
Proof.
  split; apply SIsMember_false.
  - rewrite smembers_SRem. rewrite decide_True by done. set_solver.
  - rewrite smembers_SRem. rewrite decide_False by (symmetry; apply users_key_ne_rooms_key).
    rewrite smembers_SRem. rewrite decide_True by done. set_solver.
Qed.

Lemma StreamMessages_open_member req e s :
  st_UserId req ≠ "" → st_RoomId req ≠ "" → fails e 0 = false →
  Redis.SIsMember (users_key (st_RoomId req)) (st_UserId req) (rdb s) = true →
  ∃ ss s' evs,
    StreamMessages_open req e s = (Ok ss, s', evs) ∧
    msgChan ss = fresh (dom (heap s)) ∧
    reg_lookup (roomStreams s') (st_RoomId req) (st_UserId req) = Some (msgChan ss) ∧
    pubsub ss = length (Redis.subs (rdb s)) ∧
    Redis.subs (rdb s') =
      Redis.subs (rdb s) ++ [Redis.mkPubSub (room_channel (st_RoomId req)) [] false].
Proof.
  intros Hu Hr H0 Hm. unfold StreamMessages_open.
  rewrite !decide_False by done. rewrite H0, Hm. simpl.
  destruct (register_spec (st_RoomId req) (st_UserId req) s) as (Hc & _ & Hd & Hreg & _).
  destruct (register (st_RoomId req) (st_UserId req) s) as [[c s1] evs] eqn:E.
  simpl in *. subst c. eexists _, _, _. split; [done|]. simpl.
  split; [done|]. split.
  - rewrite Hreg. by rewrite decide_True.
  - by rewrite Hd.
Qed.

(** X3 (JoinRoom, then SendMessage / StreamMessages).  In every reachable
    state a JoinRoom that answers success has made the user a member: the
    user's next SendMessage to the room succeeds and the user's
    StreamMessages is admitted and registered, whenever the store answers. *)
Theorem join_admits
    (d : Redis.db) (ops : list op) (jreq : JoinRoomRequest) (e e1 e2 : env)
    (resp : JoinRoomResponse) (s1 : ChatCloudServer) (evs : list event) (content : string) :
  JoinRoom jreq e (srv (run ops (start d))) = (Ok resp, s1, evs) →
  content ≠ "" →
  fails e1 0 = false → fails e1 1 = false → fails e1 2 = false → fails e2 0 = false →
  (∃ s2 evs2,
     SendMessage (mkSendMessageRequest (jr_UserId jreq) (jr_RoomId jreq) content) e1 s1
     = (Ok (mkSendMessageResponse true
              (mkMessage (env_uuid e1) (jr_UserId jreq) (jr_RoomId jreq) content
                         (Time.unix_millis (env_now e1)))), s2, evs2)) ∧
  (∃ ss s2 evs2,
     StreamMessages_open (mkStreamMessagesRequest (jr_UserId jreq) (jr_RoomId jreq)) e2 s1
     = (Ok ss, s2, evs2) ∧
     reg_lookup (roomStreams s2) (jr_RoomId jreq) (jr_UserId jreq) = Some (msgChan ss)).
Proof.
  intros Hjoin Hc H0 H1 H2 H0'.
  pose proof (inv_run ops _ (inv_start d)) as Hinv.
  set (w := run ops (start d)) in *.
  assert (Hs1 : s1 = mkServer (rdb s1) (heap (srv w)) (roomStreams (srv w)) ∧
                jr_UserId jreq ≠ "" ∧ jr_RoomId jreq ≠ "" ∧
                Redis.SIsMember (users_key (jr_RoomId jreq)) (jr_UserId jreq) (rdb s1) = true).
  { revert Hjoin. unfold JoinRoom. repeat case_decide; try done.
    destruct (fails e 0); [done|]. destruct (fails e 1); [done|]. destruct (fails e 2); [done|].
    destruct (fetch_messages _ _ _) as [ms ev]. intros [= <- <- <-]. simpl.
    split_and!; try done. apply member_after_SAdd. }
  destruct Hs1 as (Hs1 & Hu & Hr & Hm).
  assert (Hlive : registry_live s1).
  { rewrite Hs1. intros r u c. simpl. apply (inv_live _ Hinv). }
  assert (Hinj : registry_inj s1).
  { rewrite Hs1. intros r u r' u' c. simpl. apply (inv_inj _ Hinv). }
  split.
  - destruct (SendMessage_ok (mkSendMessageRequest (jr_UserId jreq) (jr_RoomId jreq) content)
                e1 s1 Hlive Hinj Hu Hr Hc H0 H1 H2 Hm) as (s2 & evs2 & Hsend & _).
    by eexists _, _.
  - destruct (StreamMessages_open_member
                (mkStreamMessagesRequest (jr_UserId jreq) (jr_RoomId jreq)) e2 s1 Hu Hr H0' Hm)
      as (ss & s2 & evs2 & Hopen & _ & Hreg & _).
    by eexists _, _, _.
Qed.

(** X4 (LeaveRoom, then SendMessage / StreamMessages).  A LeaveRoom that
    answers success has ended the membership and the registration: the
    user's next SendMessage and StreamMessages for the room are refused
    with PermissionDenied, and the registry has no channel for the user. *)
Theorem leave_revokes
    (lreq : LeaveRoomRequest) (e e' : env) (s s1 : ChatCloudServer)
    (resp : LeaveRoomResponse) (evs : list event) (content : string) :
  LeaveRoom lreq e s = (Ok resp, s1, evs) →
  content ≠ "" → fails e' 0 = false →
  SendMessage (mkSendMessageRequest (lr_UserId lreq) (lr_RoomId lreq) content) e' s1
    = (Error PermissionDenied "user is not in the room", s1, []) ∧
  StreamMessages_open (mkStreamMessagesRequest (lr_UserId lreq) (lr_RoomId lreq)) e' s1
    = (Error PermissionDenied "user is not in the room", s1, []) ∧
  reg_lookup (roomStreams s1) (lr_RoomId lreq) (lr_UserId lreq) = None.
Proof.
  intros Hleave Hc H0.
  assert (H : lr_UserId lreq ≠ "" ∧ lr_RoomId lreq ≠ "" ∧
              rdb s1 = Redis.SRem (rooms_key (lr_UserId lreq)) (lr_RoomId lreq)
                         (Redis.SRem (users_key (lr_RoomId lreq)) (lr_UserId lreq) (rdb s)) ∧
              roomStreams s1 = unregister (lr_RoomId lreq) (lr_UserId lreq) (roomStreams s)).
  { revert Hleave. unfold LeaveRoom. repeat case_decide; try done.
    destruct (fails e 0); [done|]. destruct (fails e 1); [done|].
    destruct (roomStreams s !! lr_RoomId lreq ≫= _) as [c|].
    - destruct (heap s !! c ≫= close); [|done]. by intros [= <- <- <-].
    - by intros [= <- <- <-]. }
  destruct H as (Hu & Hr & Hd & Hrs).
  assert (Hm : Redis.SIsMember (users_key (lr_RoomId lreq)) (lr_UserId lreq) (rdb s1) = false).
  { rewrite Hd. apply member_after_SRem. }
  split_and!.
  - by apply SendMessage_not_member.
  - by apply StreamMessages_open_not_member.
  - rewrite Hrs, reg_lookup_unregister. by rewrite decide_True.
Qed.

Lemma join_admits_witness :
  ∃ s2 evs2,
    SendMessage (mkSendMessageRequest "bob" "weather" "hi") quiet_env
                (JoinRoom (mkJoinRoomRequest "bob" "weather") quiet_env (srv init)).1.2
    = (Ok (mkSendMessageResponse true
             (mkMessage "m0" "bob" "weather" "hi" 1762093845123)), s2, evs2).
Proof.
  assert (Hjoin : JoinRoom (mkJoinRoomRequest "bob" "weather") quiet_env
                           (srv (run [] (start Redis.empty)))
                  = (Ok (mkJoinRoomResponse true []),
                     (JoinRoom (mkJoinRoomRequest "bob" "weather") quiet_env (srv init)).1.2,
                     (JoinRoom (mkJoinRoomRequest "bob" "weather") quiet_env (srv init)).2)).
  { apply result_eta. vm_compute. reflexivity. }
  assert (Hc : "hi" ≠ "") by discriminate.
  exact (proj1 (join_admits Redis.empty [] (mkJoinRoomRequest "bob" "weather")
                  quiet_env quiet_env quiet_env _ _ _ "hi"
                  Hjoin Hc eq_refl eq_refl eq_refl eq_refl)).
Defined.

Lemma leave_revokes_witness :
  let s1 := (LeaveRoom (mkLeaveRoomRequest "alice" "weather") quiet_env weather).1.2 in
  Redis.SIsMember (users_key "weather") "alice" (rdb weather) = true ∧
  SendMessage (mkSendMessageRequest "alice" "weather" "hi") quiet_env s1
    = (Error PermissionDenied "user is not in the room", s1, []).
Proof.
  assert (Hleave : LeaveRoom (mkLeaveRoomRequest "alice" "weather") quiet_env weather
                   = (Ok (mkLeaveRoomResponse true),
                      (LeaveRoom (mkLeaveRoomRequest "alice" "weather") quiet_env weather).1.2,
                      (LeaveRoom (mkLeaveRoomRequest "alice" "weather") quiet_env weather).2)).
  { apply result_eta. vm_compute. reflexivity. }
  assert (Hc : "hi" ≠ "") by discriminate.
  split; [vm_compute; reflexivity|].
  exact (proj1 (leave_revokes (mkLeaveRoomRequest "alice" "weather") quiet_env quiet_env
                  weather _ _ _ "hi" Hleave Hc eq_refl)).
Defined.

(** ** The bound of the channels *)

Lemma heap_bounded_insert h c ch :
  heap_bounded h → chan_bounded ch → heap_bounded (<[c := ch]> h).
Proof.
  intros Hh Hch c' ch'. destruct (decide (c = c')) as [<-|Hne].
  - rewrite lookup_insert_eq. by intros [= <-].
  - rewrite lookup_insert_ne by done. apply Hh.
Qed.

Lemma try_send_bounded m ch ch' : chan_bounded ch → try_send m ch = Sent ch' → chan_bounded ch'.
Proof.
  intros [Hcap Hlen]. unfold try_send. destruct (ch_closed ch); [done|].
  destruct (length (ch_buf ch) <? ch_cap ch) eqn:E; [|done].
  intros [= <-]. apply Nat.ltb_lt in E. split; simpl; [done|].
  rewrite length_app. simpl. lia.
Qed.

Lemma try_recv_bounded ch m ch' :
  chan_bounded ch → try_recv ch = Received m ch' → chan_bounded ch'.
Proof.
  intros [Hcap Hlen]. unfold try_recv. destruct (ch_buf ch) as [|x rest] eqn:E.
  - by destruct (ch_closed ch).
  - intros [= _ <-]. split; simpl in *; [done|lia].
Qed.

Lemma close_bounded ch ch' : chan_bounded ch → close ch = Some ch' → chan_bounded ch'.
Proof. intros Hb. unfold close. destruct (ch_closed ch); [done|]. by intros [= <-]. Qed.

Lemma send_all_bounded msg cs h : heap_bounded h → heap_bounded (send_all msg cs h).1.2.
Proof.
  revert h. induction cs as [|c cs IH]; intros h Hh; simpl; [done|].
  destruct (h !! c) as [ch|] eqn:Hc; simpl.
  - destruct (try_send msg ch) as [ch'| |] eqn:Hs.
    + apply IH, heap_bounded_insert; [done|]. eapply try_send_bounded; [|done]. by eapply Hh.
    + specialize (IH h Hh). by destruct (send_all msg cs h) as [[o h'] evs].
    + done.
  - specialize (IH h Hh). by destruct (send_all msg cs h) as [[o h'] evs].
Qed.

Lemma retire_bounded old h : heap_bounded h → heap_bounded (retire old h).1.
Proof.
  intros Hh. unfold retire. destruct (h !! old) as [ch|] eqn:Hc; [|done].
  pose proof (Hh _ _ Hc) as Hb.
  destruct (try_recv ch) as [m ch1| |] eqn:Hr; [|done|].
  - pose proof (try_recv_bounded _ _ _ Hb Hr) as Hb1.
    destruct (close ch1) as [ch2|] eqn:Hcl; simpl; apply heap_bounded_insert; try done.
    by eapply close_bounded.
  - destruct (close ch) as [ch1|] eqn:Hcl; simpl; [|done].
    apply heap_bounded_insert; [done|]. by eapply close_bounded.
Qed.

Lemma register_bounded room user s :
  heap_bounded (heap s) → heap_bounded (heap (register room user s).1.2).
Proof.
  intros Hh. destruct (register_spec room user s) as (_ & _ & _ & _ & _ & -> & _).
  assert (Hh0 : heap_bounded (<[fresh (dom (heap s)) := make 200]> (heap s))).
  { apply heap_bounded_insert; [done|]. split; simpl; [done|lia]. }
  destruct (reg_lookup _ _ _); [by apply retire_bounded | done].
Qed.

Lemma JoinRoom_heap req e s : heap (JoinRoom req e s).1.2 = heap s.
Proof.
  unfold JoinRoom. repeat case_decide; try done.
  destruct (fails e 0); [done|]. destruct (fails e 1); [done|]. destruct (fails e 2); [done|].
  by destruct (fetch_messages _ _ _).
Qed.

Lemma SendMessage_bounded req e s :
  heap_bounded (heap s) → heap_bounded (heap (SendMessage req e s).1.2).
Proof.
  intros Hh. rewrite SendMessage_unfold; cbv zeta. repeat case_decide; try done.
  destruct (fails e 0); [done|]. destruct (negb _); [done|].
  destruct (fails e 1); [done|]. destruct (fails e 2); [done|].
  destruct (fails e 3); destruct (fails e 4);
    match goal with |- context [broadcastMessage ?m ?s0] =>
      pose proof (send_all_bounded m (snd <$> subscribers (RoomId m) s0) (heap s0) Hh) as Hb;
      unfold broadcastMessage;
      destruct (send_all m (snd <$> subscribers (RoomId m) s0) (heap s0)) as [[o h'] evb]
    end; done.
Qed.

Lemma LeaveRoom_bounded req e s :
  heap_bounded (heap s) → heap_bounded (heap (LeaveRoom req e s).1.2).
Proof.
  intros Hh. unfold LeaveRoom. repeat case_decide; try done.
  destruct (fails e 0); [done|]. destruct (fails e 1); [done|].
  destruct (roomStreams s !! lr_RoomId req ≫= _) as [c|]; [|done].
  destruct (heap s !! c) as [ch|] eqn:Hc; simpl; [|done].
  destruct (close ch) as [ch'|] eqn:Hcl; simpl; [|done].
  apply heap_bounded_insert; [done|]. eapply close_bounded; [|done]. by eapply Hh.
Qed.

Lemma StreamMessages_open_bounded req e s :
  heap_bounded (heap s) → heap_bounded (heap (StreamMessages_open req e s).1.2).
Proof.
  intros Hh. unfold StreamMessages_open. repeat case_decide; try done.
  destruct (fails e 0); [done|]. destruct (negb _); [done|].
  pose proof (register_bounded (st_RoomId req) (st_UserId req) s Hh) as Hb.
  by destruct (register _ _ _) as [[c s1] evs].
Qed.

Lemma stream_send_bounded m ok ss s :
  heap_bounded (heap s) → heap_bounded (heap (stream_send m ok ss s).2).
Proof. intros Hh. unfold stream_send. by destruct ok. Qed.

Lemma listen_bounded fault ss s :
  heap_bounded (heap s) → heap_bounded (heap (listen fault ss s).1.2).
Proof.
  intros Hh. unfold listen.
  destruct (Redis.take_pending _ _) as [[msgID d]|]; [|done].
  destruct fault; [done|]. destruct (resolve _ _) as [pm|]; [|done]. simpl.
  destruct (heap s !! msgChan ss) as [ch|] eqn:Hc; simpl; [|done].
  destruct (try_send pm ch) as [ch'| |] eqn:Hs; simpl; try done.
  apply heap_bounded_insert; [done|]. eapply try_send_bounded; [|done]. by eapply Hh.
Qed.

Lemma session_step_bounded a ss s :
  heap_bounded (heap s) → heap_bounded (heap (session_step a ss s).1.2).
Proof.
  intros Hh.
  destruct a; unfold session_step; destruct (ss_phase ss); simpl; try done;
    try (by apply stream_send_bounded);
    try (by destruct (redisErr ss));
    try (by destruct (tick_due ss now); [apply stream_send_bounded|]);
    try (by destruct (redisErr ss || negb (listening ss)); [|apply listen_bounded]);
    try (by destruct (listening ss && redisCtx_done ss now)).
  - destruct (heap s !! msgChan ss) as [ch|] eqn:Hc; simpl; [|done].
    destruct (try_recv ch) as [m ch1| |] eqn:Hr; simpl; try done.
    apply stream_send_bounded. simpl. apply heap_bounded_insert; [done|].
    eapply try_recv_bounded; [|done]. by eapply Hh.
  - unfold cleanup_close. destruct (closed ss); [done|].
    destruct (heap s !! msgChan ss) as [ch|] eqn:Hc; simpl; [|done].
    destruct (close ch) as [ch'|] eqn:Hcl; simpl; [|done].
    apply heap_bounded_insert; [done|]. eapply close_bounded; [|done]. by eapply Hh.
Qed.

Lemma SendMessage_broadcast_bounded msg s :
  heap_bounded (heap s) → heap_bounded (heap (SendMessage_broadcast msg s).1.2).
Proof.
  intros Hh. unfold SendMessage_broadcast, broadcastMessage.
  pose proof (send_all_bounded msg (snd <$> subscribers (RoomId msg) s) (heap s) Hh) as Hb.
  by destruct (send_all msg (snd <$> subscribers (RoomId msg) s) (heap s)) as [[o h'] evb].
Qed.

Lemma step_bounded o w : heap_bounded (heap (srv w)) → heap_bounded (heap (srv (step o w))).
Proof.
  intros Hh. unfold step. destruct (crashed w); [done|].
  destruct o as [req e|req e|req e|k|req e|req e|i a].
  - pose proof (JoinRoom_heap req e (srv w)) as H.
    destruct (JoinRoom req e (srv w)) as [[o s] evs]. simpl in *. by rewrite H.
  - pose proof (SendMessage_bounded req e (srv w) Hh) as H.
    by destruct (SendMessage req e (srv w)) as [[o s] evs].
  - destruct (SendMessage_publish_srv req e (srv w)) as (H & _).
    destruct (SendMessage_publish req e (srv w)) as [[[] s] evs]; simpl in *; by rewrite H.
  - destruct (inflight w !! k) as [msg|]; [|done].
    pose proof (SendMessage_broadcast_bounded msg (srv w) Hh) as H.
    by destruct (SendMessage_broadcast msg (srv w)) as [[o s] evs].
  - pose proof (LeaveRoom_bounded req e (srv w) Hh) as H.
    by destruct (LeaveRoom req e (srv w)) as [[o s] evs].
  - pose proof (StreamMessages_open_bounded req e (srv w) Hh) as H.
    by destruct (StreamMessages_open req e (srv w)) as [[[ss|c m|r] s] evs].
  - destruct (sessions w !! i) as [ss|]; [|done].
    pose proof (session_step_bounded a ss (srv w) Hh) as H.
    by destruct (session_step a ss (srv w)) as [[ss' s] evs].
Qed.

(** X5 (make(chan, 200) in StreamMessages; every send and receive).  In
    every reachable state every channel has capacity 200 and holds at most
    200 messages: the memory a stream can pin is bounded, whatever the
    readers do. *)
Theorem channels_hold_at_most_200 (d : Redis.db) (ops : list op) (c : nat) (ch : chan) :
  heap (srv (run ops (start d))) !! c = Some ch →
  ch_cap ch = 200 ∧ length (ch_buf ch) ≤ 200.
Proof.
  revert c ch. change (heap_bounded (heap (srv (run ops (start d))))).
  unfold run. induction ops as [|o ops IH] using rev_ind.
  - intros c ch. simpl. by rewrite lookup_empty.
  - rewrite foldl_app. simpl. by apply step_bounded.
Qed.

Lemma channels_hold_at_most_200_witness :
  ∃ ch, heap (srv (run (bob_listening ++ alice_sends 200) (start Redis.empty))) !! 0 = Some ch ∧
        ch_cap ch = 200 ∧ length (ch_buf ch) ≤ 200.
Proof.
  assert (H : is_Some (heap (srv (run (bob_listening ++ alice_sends 200)
                                      (start Redis.empty))) !! 0)).
  { apply not_eq_None_Some. vm_compute. discriminate. }
  destruct H as [ch Hch]. exists ch. split; [exact Hch|].
  exact (channels_hold_at_most_200 Redis.empty (bob_listening ++ alice_sends 200) 0 ch Hch).
Defined.

(** ** The two deliveries of a message *)

Lemma session_steps_cons a acts ss s :
  session_steps (a :: acts) ss s =
  foldl (λ st a, let '(ss', s', evs') := session_step a st.1.1 st.1.2 in
                 (ss', s', st.2 ++ evs'))
        ((session_step a ss s).1.1, (session_step a ss s).1.2, (session_step a ss s).2) acts.
Proof.
  unfold session_steps. simpl. by destruct (session_step a ss s) as [[ss' s'] evs'].
Qed.

(** One round of the listener on a subscription whose oldest pending
    payload is the ID of a stored message, the stream's channel having room. *)
Lemma listen_relays ss s p msgID rest protoMsg ch :
  Redis.subs (rdb s) !! pubsub ss = Some (Redis.mkPubSub p (msgID :: rest) false) →
  resolve msgID (Redis.HGetAll (message_key msgID) (rdb s)) = Some protoMsg →
  heap s !! msgChan ss = Some ch → ch_closed ch = false → length (ch_buf ch) < ch_cap ch →
  listen false ss s =
    (ss,
     mkServer (Redis.mkDb (Redis.sets (rdb s)) (Redis.lists (rdb s)) (Redis.hashes (rdb s))
                 (<[pubsub ss := Redis.mkPubSub p rest false]> (Redis.subs (rdb s))))
              (<[msgChan ss := mkChan (ch_buf ch ++ [protoMsg]) (ch_cap ch) false]> (heap s))
              (roomStreams s),
     []).
Proof.
  intros Hsub Hres Hch Hopen Hroom. unfold listen, Redis.take_pending. rewrite Hsub.
  change (Redis.HGetAll (message_key msgID) (Redis.mkDb _ _ (Redis.hashes (rdb s)) _))
    with (Redis.HGetAll (message_key msgID) (rdb s)).
  rewrite Hres. simpl. rewrite Hch. simpl. unfold try_send. rewrite Hopen.
  apply Nat.ltb_lt in Hroom. by rewrite Hroom.
Qed.

(** A round of the listener of a stream that is less than an hour old,
    the store answering. *)
Lemma session_step_Listen now ss s :
  ss_phase ss = Streaming → redisErr ss = false → listening ss = true →
  redisCtx_done ss now = false →
  session_step (Listen now false) ss s = listen false ss s.
Proof. intros Hph Herr Hl Hd. unfold session_step. by rewrite Hph, Herr, Hl, Hd. Qed.

(** After its hour the listener relays nothing any more: the HGETALL it
    issues with the expired context fails, or it has returned. *)
Lemma listener_ends_with_its_context now fault ss s :
  (redisCtx_done ss now = true →
   heap (session_step (Listen now fault) ss s).1.2 = heap s ∧
   (ss_phase ss ∈ [Registered; Streaming] → listening ss = true →
    session_step (RedisCtxDone now) ss s = (stop_listening ss, s, []))) ∧
  (listening ss = false → session_step (Listen now fault) ss s = (ss, s, [])).
Proof.
  split.
  - intros Hd. split.
    + unfold session_step. rewrite Hd, orb_true_r.
      destruct (ss_phase ss); try done;
        (destruct (redisErr ss || negb (listening ss)); [done|]);
        unfold listen; by destruct (Redis.take_pending _ _) as [[? ?]|].
    + intros Hph Hl. unfold session_step. rewrite Hl, Hd.
      destruct (ss_phase ss); try done; set_solver.
  - intros Hl. unfold session_step. rewrite Hl, orb_true_r.
    by destruct (ss_phase ss).
Qed.

Lemma same_shape_live s s' : same_shape s s' → registry_live s → registry_live s'.
Proof. intros [Hrs Hcl] Hlive r u c. rewrite Hrs, Hcl. apply Hlive. Qed.

Lemma same_shape_inj s s' : same_shape s s' → registry_inj s → registry_inj s'.
Proof. intros [Hrs _] Hinj r u r' u' c. rewrite Hrs. apply Hinj. Qed.

(** X6 (SendMessage: PUBLISH and broadcastMessage; the listener goroutine
    and the loop of StreamMessages).  A subscriber whose stream is in its
    loop, less than an hour old and with its listener running, is handed
    every message twice: once by broadcastMessage, as returned to the
    sender, and once by its own Redis listener, rebuilt from the store
    with the timestamp cut to the whole second.  Both copies carry the
    same ID.  The sender holds no lock between its PUBLISH and its
    broadcastMessage: when the listener relays after the broadcast, the
    stream carries the returned message first; when it relays in
    between, the stream carries the relayed copy first. *)
Theorem stream_gets_message_twice
    (d : Redis.db) (ops : list op) (req : SendMessageRequest) (e : env) (now : Z)
    (i : nat) (ss : session) (ch : chan) :
  let w := run ops (start d) in
  let msg := mkMessage (env_uuid e) (sm_UserId req) (sm_RoomId req) (sm_Content req)
                       (Time.unix_millis (env_now e)) in
  let n := length (ch_buf ch) + 2 in
  (0 ≤ env_now e < 2 ^ 63)%Z →
  sm_UserId req ≠ "" → sm_RoomId req ≠ "" → sm_Content req ≠ "" →
  fails e 0 = false → fails e 1 = false → fails e 2 = false → fails e 4 = false →
  Redis.SIsMember (users_key (sm_RoomId req)) (sm_UserId req) (rdb (srv w)) = true →
  sessions w !! i = Some ss → ss_phase ss = Streaming → redisErr ss = false →
  listening ss = true → redisCtx_done ss now = false →
  reg_lookup (roomStreams (srv w)) (sm_RoomId req) (st_UserId (ss_req ss)) = Some (msgChan ss) →
  heap (srv w) !! msgChan ss = Some ch → length (ch_buf ch) + 2 ≤ ch_cap ch →
  Redis.subs (rdb (srv w)) !! pubsub ss
    = Some (Redis.mkPubSub (room_channel (sm_RoomId req)) [] false) →
  ∃ s1 evs,
    SendMessage_publish req e (srv w) = (Ok msg, s1, evs) ∧
    (∃ s2 evb ss' s3,
       SendMessage_broadcast msg s1 = (Ok (mkSendMessageResponse true msg), s2, evb) ∧
       session_steps (Listen now false :: replicate n (Receive true)) ss s2 = (ss', s3, []) ∧
       sent ss' = sent ss ++ ch_buf ch ++ [msg; stored_message req e]) ∧
    (∃ s2 s3 evb ss' s4,
       session_step (Listen now false) ss s1 = (ss, s2, []) ∧
       SendMessage_broadcast msg s2 = (Ok (mkSendMessageResponse true msg), s3, evb) ∧
       session_steps (replicate n (Receive true)) ss s3 = (ss', s4, []) ∧
       sent ss' = sent ss ++ ch_buf ch ++ [stored_message req e; msg]) ∧
    Id (stored_message req e) = Id msg.
Proof.
  intros w msg n Hnow Hu Hr Hc H0 H1 H2 H4 Hm Hi Hph Herr Hlis Hdone Hreg Hch Hroom Hsub.
  pose proof (inv_run ops _ (inv_start d)) as Hinv. fold w in Hinv.
  destruct (SendMessage_publish_ok req e (srv w) Hu Hr Hc H0 H1 H2 Hm)
    as (s1 & evs & Hpub & Hh1 & Hrs1 & Hh & _ & Hsubs).
  fold msg in Hpub. rewrite H4 in Hsubs.
  pose proof (inv_live _ Hinv _ _ _ Hreg) as Hopen.
  unfold closedness in Hopen. rewrite Hch in Hopen. injection Hopen as Hopen.
  assert (Hshape1 : same_shape (srv w) s1).
  { split; [done|]. intros c. unfold closedness. by rewrite Hh1. }
  pose proof (same_shape_live _ _ Hshape1 (inv_live _ Hinv)) as Hlive1.
  pose proof (same_shape_inj _ _ Hshape1 (inv_inj _ Hinv)) as Hinj1.
  assert (Hsub1 : Redis.subs (rdb s1) !! pubsub ss
                  = Some (Redis.mkPubSub (room_channel (sm_RoomId req)) [env_uuid e] false)).
  { rewrite Hsubs, list_lookup_fmap, Hsub. simpl. unfold Redis.deliver. simpl.
    by rewrite bool_decide_eq_true_2. }
  assert (Hres : resolve (env_uuid e) (Redis.HGetAll (message_key (env_uuid e)) (rdb s1))
                 = Some (stored_message req e)).
  { unfold Redis.HGetAll. rewrite Hh. by apply resolve_message_fields. }
  assert (Hlt : ∀ l : list Message,
            length l ≤ S (length (ch_buf ch)) → (length l <? ch_cap ch) = true).
  { intros l Hl. apply Nat.ltb_lt. lia. }
  exists s1, evs. split; [exact Hpub|]. split; [|split; [|done]].
  - (* the broadcast, then the relay *)
    destruct (SendMessage_broadcast_ok msg s1 Hlive1 Hinj1)
      as (s2 & evb & Hsend & Hrdb & Hrs2 & Hheap & _).
    assert (Hreg1 : reg_lookup (roomStreams s1) (RoomId msg) (st_UserId (ss_req ss))
                    = Some (msgChan ss)) by (by rewrite Hrs1).
    specialize (Hheap _ _ Hreg1). rewrite Hh1, Hch in Hheap. simpl in Hheap.
    unfold offer in Hheap. rewrite Hlt in Hheap by lia.
    rewrite <- Hrdb in Hsub1, Hres.
    eexists s2, evb, _, _. split; [exact Hsend|].
    rewrite session_steps_cons, session_step_Listen by done.
    rewrite (listen_relays ss s2 _ _ _ _ _ Hsub1 Hres Hheap eq_refl)
      by (simpl; rewrite length_app; simpl; lia).
    cbn [fst snd]. split.
    + erewrite session_steps_receive; [reflexivity|done| |].
      * cbn [heap msgChan]. apply lookup_insert_eq.
      * cbn [ch_buf]. rewrite !length_app. simpl. unfold n. lia.
    + cbn [sent set_run ch_buf]. f_equal. rewrite take_ge.
      * by rewrite <- app_assoc.
      * rewrite !length_app. simpl. unfold n. lia.
  - (* the relay, then the broadcast *)
    rewrite <- Hh1 in Hch.
    pose proof (listen_relays ss s1 _ _ _ _ _ Hsub1 Hres Hch Hopen ltac:(lia)) as Hlisten.
    set (s2 := mkServer _ _ (roomStreams s1)) in Hlisten.
    assert (Hshape2 : same_shape s1 s2).
    { split; [done|]. intros c. unfold s2. cbn [heap]. rewrite closedness_insert.
      case_decide; [subst c|done]. unfold closedness. rewrite Hch. simpl. by rewrite Hopen. }
    destruct (SendMessage_broadcast_ok msg s2 (same_shape_live _ _ Hshape2 Hlive1)
                (same_shape_inj _ _ Hshape2 Hinj1))
      as (s3 & evb & Hsend & _ & _ & Hheap & _).
    assert (Hreg2 : reg_lookup (roomStreams s2) (RoomId msg) (st_UserId (ss_req ss))
                    = Some (msgChan ss)) by (unfold s2; cbn [roomStreams]; by rewrite Hrs1).
    specialize (Hheap _ _ Hreg2). unfold s2 in Hheap. cbn [heap] in Hheap.
    rewrite lookup_insert_eq in Hheap. simpl in Hheap.
    unfold offer in Hheap. cbn [ch_buf ch_cap] in Hheap.
    rewrite Hlt in Hheap by (rewrite length_app; simpl; lia).
    eexists s2, s3, evb, _, _.
    split; [by rewrite session_step_Listen|]. split; [exact Hsend|]. split.
    + unfold session_steps. erewrite session_steps_receive; [reflexivity|done|exact Hheap|].
      cbn [ch_buf]. rewrite !length_app. simpl. unfold n. lia.
    + cbn [sent set_run ch_buf]. f_equal. rewrite take_ge.
      * by rewrite <- app_assoc.
      * rewrite !length_app. simpl. unfold n. lia.
Qed.

Lemma stream_gets_message_twice_witness :
  let ka := mkMessage "keep-alive" "bob" "weather" "" 1762093845123 in
  let msg := mkMessage "m0" "alice" "weather" "hello" 1762093845123 in
  let relayed := mkMessage "m0" "alice" "weather" "hello" 1762093845000 in
  let bob := mkSession (mkStreamMessagesRequest "bob" "weather") 0 false 0 false Streaming
                       [ka] None t0 t0 true in
  ∃ s1 evs,
    SendMessage_publish (mkSendMessageRequest "alice" "weather" "hello") quiet_env
                        (srv (run bob_listening (start Redis.empty)))
      = (Ok msg, s1, evs) ∧
    (∃ s2 evb ss' s3,
       SendMessage_broadcast msg s1 = (Ok (mkSendMessageResponse true msg), s2, evb) ∧
       session_steps [Listen t0 false; Receive true; Receive true] bob s2 = (ss', s3, []) ∧
       sent ss' = [ka; msg; relayed]) ∧
    (∃ s2 s3 evb ss' s4,
       session_step (Listen t0 false) bob s1 = (bob, s2, []) ∧
       SendMessage_broadcast msg s2 = (Ok (mkSendMessageResponse true msg), s3, evb) ∧
       session_steps [Receive true; Receive true] bob s3 = (ss', s4, []) ∧
       sent ss' = [ka; relayed; msg]).
Proof.
  intros ka msg relayed bob.
  assert (Hnow : (0 ≤ env_now quiet_env < 2 ^ 63)%Z)
    by (vm_compute; split; [discriminate | reflexivity]).
  assert (Hne : ∀ a b, String a b ≠ "") by discriminate.
  assert (Hm : Redis.SIsMember (users_key "weather") "alice"
                 (rdb (srv (run bob_listening (start Redis.empty)))) = true)
    by (vm_compute; reflexivity).
  assert (Hi : sessions (run bob_listening (start Redis.empty)) !! 0 = Some bob)
    by (vm_compute; reflexivity).
  assert (Hreg : reg_lookup (roomStreams (srv (run bob_listening (start Redis.empty))))
                   "weather" "bob" = Some 0) by (vm_compute; reflexivity).
  assert (Hch : heap (srv (run bob_listening (start Redis.empty))) !! 0 = Some (make 200))
    by (vm_compute; reflexivity).
  assert (Hroom : length (ch_buf (make 200)) + 2 ≤ ch_cap (make 200)) by (simpl; lia).
  assert (Hsub : Redis.subs (rdb (srv (run bob_listening (start Redis.empty)))) !! 0
                 = Some (Redis.mkPubSub (room_channel "weather") [] false))
    by (vm_compute; reflexivity).
  destruct (stream_gets_message_twice Redis.empty bob_listening
              (mkSendMessageRequest "alice" "weather" "hello") quiet_env t0 0 bob (make 200)
              Hnow (Hne _ _) (Hne _ _) (Hne _ _) eq_refl eq_refl eq_refl eq_refl
              Hm Hi eq_refl eq_refl eq_refl eq_refl Hreg Hch Hroom Hsub)
    as (s1 & evs & Hpub & HA & HB & _).
  exists s1, evs. split; [exact Hpub|]. split; [exact HA|exact HB].
Defined.

(** ** A stream ended from outside: LeaveRoom and a second StreamMessages *)

(** The loop of a stream whose channel has been closed by someone else:
    it writes what is still buffered, then finds the channel closed and
    returns nil. *)
Lemma session_steps_drain ss s buf cap evs :
  ss_phase ss = Streaming → heap s !! msgChan ss = Some (mkChan buf cap true) →
  foldl (λ st a, let '(ss', s', evs') := session_step a st.1.1 st.1.2 in
                 (ss', s', st.2 ++ evs'))
        (ss, s, evs) (replicate (S (length buf)) (Receive true))
  = (mkSession (ss_req ss) (msgChan ss) (closed ss) (pubsub ss) (redisErr ss) Returned
               (sent ss ++ buf) (Some (Ok ())) (started ss) (ticked ss) (listening ss),
     mkServer (Redis.Close (pubsub ss) (rdb s))
              (<[msgChan ss := mkChan [] cap true]> (heap s)) (roomStreams s),
     evs ++ [LogStreamEnd "Message channel closed"]).
Proof.
  intros Hph Hch.
  replace (S (length buf)) with (length buf + 1) by lia.
  rewrite replicate_add, foldl_app.
  rewrite (session_steps_receive _ _ _ _ _ Hph Hch) by done.
  simpl. rewrite lookup_insert_eq. simpl.
  rewrite drop_all, take_ge by done. done.
Qed.

(** X7 (LeaveRoom against a running StreamMessages).  When a user whose
    stream is in its loop leaves the room, LeaveRoom closes the stream's
    channel; the stream then writes everything still buffered, finds the
    channel closed and returns without error, and its deferred cleanup
    closes the channel a second time: the runtime panic is recovered and
    logged, and the handler ends. *)
Theorem leave_ends_stream
    (d : Redis.db) (ops : list op) (lreq : LeaveRoomRequest) (e : env)
    (i : nat) (ss : session) (ch : chan) :
  let w := run ops (start d) in
  lr_UserId lreq ≠ "" → lr_RoomId lreq ≠ "" → fails e 0 = false → fails e 1 = false →
  sessions w !! i = Some ss → ss_phase ss = Streaming → closed ss = false →
  reg_lookup (roomStreams (srv w)) (lr_RoomId lreq) (lr_UserId lreq) = Some (msgChan ss) →
  heap (srv w) !! msgChan ss = Some ch →
  ∃ s1 ss' s2 evs,
    LeaveRoom lreq e (srv w) = (Ok (mkLeaveRoomResponse true), s1, [EvClose (msgChan ss)]) ∧
    session_steps (replicate (S (length (ch_buf ch))) (Receive true) ++
                   [CleanupUnregister; CleanupClose]) ss s1 = (ss', s2, evs) ∧
    ss_phase ss' = Finished ∧ ret ss' = Some (Ok ()) ∧
    sent ss' = sent ss ++ ch_buf ch ∧
    closes evs = [] ∧ failed_closes evs = [msgChan ss] ∧ LogRecoveredClosing ∈ evs.
Proof.
  intros w Hu Hr H0 H1 Hi Hph Hcl Hreg Hch.
  pose proof (inv_run ops _ (inv_start d)) as Hinv. fold w in Hinv.
  pose proof (inv_live _ Hinv _ _ _ Hreg) as Hopen.
  unfold closedness in Hopen. rewrite Hch in Hopen. injection Hopen as Hopen.
  assert (Hleave : LeaveRoom lreq e (srv w) =
            (Ok (mkLeaveRoomResponse true),
             mkServer (Redis.SRem (rooms_key (lr_UserId lreq)) (lr_RoomId lreq)
                         (Redis.SRem (users_key (lr_RoomId lreq)) (lr_UserId lreq)
                                     (rdb (srv w))))
                      (<[msgChan ss := mkChan (ch_buf ch) (ch_cap ch) true]> (heap (srv w)))
                      (unregister (lr_RoomId lreq) (lr_UserId lreq) (roomStreams (srv w))),
             [EvClose (msgChan ss)])).
  { unfold LeaveRoom. rewrite !decide_False by done. rewrite H0, H1.
    unfold reg_lookup in Hreg. rewrite Hreg, Hch. simpl. unfold close. by rewrite Hopen. }
  eexists _, _, _, _. split; [exact Hleave|].
  unfold session_steps. rewrite foldl_app.
  rewrite (session_steps_drain ss _ (ch_buf ch) (ch_cap ch)); [|done|apply lookup_insert_eq].
  simpl. unfold cleanup_close. simpl. rewrite Hcl, lookup_insert_eq. simpl.
  split; [reflexivity|]. simpl. split_and!; try done.
  set_solver.
Qed.

Lemma leave_ends_stream_witness :
  ∃ s1 ss' s2 evs,
    LeaveRoom (mkLeaveRoomRequest "bob" "weather") quiet_env
              (srv (run bob_listening (start Redis.empty)))
      = (Ok (mkLeaveRoomResponse true), s1, [EvClose 0]) ∧
    session_steps [Receive true; CleanupUnregister; CleanupClose]
      (mkSession (mkStreamMessagesRequest "bob" "weather") 0 false 0 false Streaming
                 [mkMessage "keep-alive" "bob" "weather" "" 1762093845123] None t0 t0 true) s1
      = (ss', s2, evs) ∧
    ss_phase ss' = Finished ∧ ret ss' = Some (Ok ()) ∧ failed_closes evs = [0].
Proof.
  assert (Hne : ∀ a b, String a b ≠ "") by discriminate.
  assert (Hi : sessions (run bob_listening (start Redis.empty)) !! 0
               = Some (mkSession (mkStreamMessagesRequest "bob" "weather") 0 false 0 false
                         Streaming [mkMessage "keep-alive" "bob" "weather" "" 1762093845123]
                         None t0 t0 true))
    by (vm_compute; reflexivity).
  assert (Hreg : reg_lookup (roomStreams (srv (run bob_listening (start Redis.empty))))
                   "weather" "bob" = Some 0) by (vm_compute; reflexivity).
  assert (Hch : heap (srv (run bob_listening (start Redis.empty))) !! 0 = Some (make 200))
    by (vm_compute; reflexivity).
  destruct (leave_ends_stream Redis.empty bob_listening (mkLeaveRoomRequest "bob" "weather")
              quiet_env 0 _ (make 200) (Hne _ _) (Hne _ _) eq_refl eq_refl
              Hi eq_refl eq_refl Hreg Hch)
    as (s1 & ss' & s2 & evs & Hleave & Hsteps & Hph & Hret & _ & _ & Hfc & _).
  exists s1, ss', s2, evs.
  split; [exact Hleave|]. split; [exact Hsteps|]. split; [exact Hph|]. split; [exact Hret|].
  exact Hfc.
Defined.

Lemma retire_open old h ch :
  h !! old = Some ch → ch_closed ch = false →
  retire old h = (<[old := mkChan (tail (ch_buf ch)) (ch_cap ch) true]> h, [EvClose old]).
Proof.
  intros Hold Hopen. unfold retire. rewrite Hold. unfold try_recv.
  destruct ch as [[|m rest] cap cl]; simpl in *; subst; done.
Qed.

(** X8 (StreamMessages: registration of a second stream, and the deferred
    cleanup of the first).  When a user whose stream is in its loop opens
    a second stream for the same room, the first stream's channel is
    closed and the oldest message still buffered in it is discarded; the
    first stream writes the rest, returns without error, and the first
    half of its cleanup then deletes the registry entry of the user, which
    by now is the second stream's: the second stream is open but no
    registry entry points to its channel, so no broadcast reaches it. *)
Theorem reconnect_unregisters_new_stream
    (d : Redis.db) (ops : list op) (e : env) (i : nat) (ss : session) (ch : chan) :
  let w := run ops (start d) in
  let req := ss_req ss in
  st_UserId req ≠ "" → st_RoomId req ≠ "" → fails e 0 = false →
  Redis.SIsMember (users_key (st_RoomId req)) (st_UserId req) (rdb (srv w)) = true →
  sessions w !! i = Some ss → ss_phase ss = Streaming →
  reg_lookup (roomStreams (srv w)) (st_RoomId req) (st_UserId req) = Some (msgChan ss) →
  heap (srv w) !! msgChan ss = Some ch →
  ∃ ss2 s1 evs1 ss' s2 evs2,
    StreamMessages_open req e (srv w) = (Ok ss2, s1, evs1) ∧
    reg_lookup (roomStreams s1) (st_RoomId req) (st_UserId req) = Some (msgChan ss2) ∧
    session_steps (replicate (S (length (tail (ch_buf ch)))) (Receive true) ++
                   [CleanupUnregister]) ss s1 = (ss', s2, evs2) ∧
    ret ss' = Some (Ok ()) ∧
    sent ss' = sent ss ++ tail (ch_buf ch) ∧
    closedness (heap s2) (msgChan ss2) = Some false ∧
    ∀ r u, reg_lookup (roomStreams s2) r u ≠ Some (msgChan ss2).
Proof.
  intros w req Hu Hr H0 Hm Hi Hph Hreg Hch.
  pose proof (inv_run ops _ (inv_start d)) as Hinv. fold w in Hinv.
  pose proof (inv_live _ Hinv _ _ _ Hreg) as Hopen.
  unfold closedness in Hopen. rewrite Hch in Hopen. injection Hopen as Hopen.
  destruct (StreamMessages_open_member req e (srv w) Hu Hr H0 Hm)
    as (ss2 & s1 & evs1 & Hopen2 & Hc2 & Hreg2 & _).
  destruct (StreamMessages_open_ok _ _ _ _ _ _ Hopen2) as (_ & Hrs & Hheap & _).
  destruct (register_spec (st_RoomId req) (st_UserId req) (srv w))
    as (_ & Hfresh & _ & Hlook & _ & Hheap1 & _).
  rewrite <- Hc2 in Hfresh, Hheap1, Hlook. rewrite <- Hheap in Hheap1.
  rewrite Hreg in Hheap1.
  assert (Hne : msgChan ss ≠ msgChan ss2) by (intros Heq; rewrite Heq in Hch; congruence).
  rewrite (retire_open _ _ ch) in Hheap1;
    [|by rewrite lookup_insert_ne by done|done]. simpl in Hheap1.
  eexists ss2, s1, evs1, _, _, _. split; [exact Hopen2|]. split; [exact Hreg2|].
  unfold session_steps. rewrite foldl_app.
  rewrite (session_steps_drain ss _ (tail (ch_buf ch)) (ch_cap ch));
    [|done|rewrite Hheap1; apply lookup_insert_eq].
  simpl. split; [reflexivity|]. simpl. split_and!; try done.
  - unfold closedness. rewrite lookup_insert_ne by done. rewrite Hheap1.
    rewrite lookup_insert_ne by done. by rewrite lookup_insert_eq.
  - intros r u. fold req. rewrite reg_lookup_unregister. case_decide as Hk; [done|].
    rewrite Hrs, Hlook. rewrite decide_False by done.
    intros Habs. apply (inv_live _ Hinv) in Habs. unfold closedness in Habs.
    by rewrite Hfresh in Habs.
Qed.

Lemma reconnect_unregisters_new_stream_witness :
  ∃ ss2 s1 evs1 ss' s2 evs2,
    StreamMessages_open (mkStreamMessagesRequest "alice" "weather") quiet_env
                        (srv (run alice_listening (start Redis.empty)))
      = (Ok ss2, s1, evs1) ∧
    session_steps [Receive true; CleanupUnregister]
      (mkSession (mkStreamMessagesRequest "alice" "weather") 0 false 0 false Streaming
                 [mkMessage "keep-alive" "alice" "weather" "" 1762093845123] None t0 t0 true) s1
      = (ss', s2, evs2) ∧
    closedness (heap s2) (msgChan ss2) = Some false ∧
    ∀ r u, reg_lookup (roomStreams s2) r u ≠ Some (msgChan ss2).
Proof.
  assert (Hne : ∀ a b, String a b ≠ "") by discriminate.
  assert (Hm : Redis.SIsMember (users_key "weather") "alice"
                 (rdb (srv (run alice_listening (start Redis.empty)))) = true)
    by (vm_compute; reflexivity).
  assert (Hi : sessions (run alice_listening (start Redis.empty)) !! 0
               = Some (mkSession (mkStreamMessagesRequest "alice" "weather") 0 false 0 false
                         Streaming [mkMessage "keep-alive" "alice" "weather" "" 1762093845123]
                         None t0 t0 true))
    by (vm_compute; reflexivity).
  assert (Hreg : reg_lookup (roomStreams (srv (run alice_listening (start Redis.empty))))
                   "weather" "alice" = Some 0) by (vm_compute; reflexivity).
  assert (Hch : heap (srv (run alice_listening (start Redis.empty))) !! 0 = Some (make 200))
    by (vm_compute; reflexivity).
  destruct (reconnect_unregisters_new_stream Redis.empty alice_listening quiet_env 0
              (mkSession (mkStreamMessagesRequest "alice" "weather") 0 false 0 false Streaming
                 [mkMessage "keep-alive" "alice" "weather" "" 1762093845123] None t0 t0 true)
              (make 200) (Hne _ _) (Hne _ _) eq_refl Hm Hi eq_refl Hreg Hch)
    as (ss2 & s1 & evs1 & ss' & s2 & evs2 & Hopen & _ & Hsteps & _ & _ & Hcl & Hno).
  exists ss2, s1, evs1, ss', s2, evs2.
  split; [exact Hopen|]. split; [exact Hsteps|]. split; [exact Hcl|]. exact Hno.
Defined.

(** ** Races and errors after side effects *)

Lemma step_LeaveRoom_srv req e w :
  crashed w = false → srv (step (OpLeaveRoom req e) w) = (LeaveRoom req e (srv w)).1.2.
Proof.
  intros Hc. unfold step. rewrite Hc. simpl.
  by destruct (LeaveRoom req e (srv w)) as [[o s] evs].
Qed.

Lemma step_SendMessage_srv req e w :
  crashed w = false → srv (step (OpSendMessage req e) w) = (SendMessage req e (srv w)).1.2.
Proof.
  intros Hc. unfold step. rewrite Hc. simpl.
  by destruct (SendMessage req e (srv w)) as [[o s] evs].
Qed.

(** The listener of a stream whose channel is closed: the send panics,
    the deferred recover puts an error in [redisErrChan]. *)
Lemma listen_closed ss s p msgID rest protoMsg ch :
  Redis.subs (rdb s) !! pubsub ss = Some (Redis.mkPubSub p (msgID :: rest) false) →
  resolve msgID (Redis.HGetAll (message_key msgID) (rdb s)) = Some protoMsg →
  heap s !! msgChan ss = Some ch → ch_closed ch = true →
  ∃ s', listen false ss s =
          (mkSession (ss_req ss) (msgChan ss) (closed ss) (pubsub ss) true
                     (ss_phase ss) (sent ss) (ret ss) (started ss) (ticked ss) false, s', []).
Proof.
  intros Hsub Hres Hch Hcl. unfold listen, Redis.take_pending. rewrite Hsub.
  change (Redis.HGetAll (message_key msgID) (Redis.mkDb _ _ (Redis.hashes (rdb s)) _))
    with (Redis.HGetAll (message_key msgID) (rdb s)).
  rewrite Hres. simpl. rewrite Hch. simpl. unfold try_send. rewrite Hcl. by eexists.
Qed.

(** X9 (LeaveRoom, SendMessage's PUBLISH, the listener goroutine and the
    loop of StreamMessages).  LeaveRoom closes the channel of the user's
    stream but not its Redis subscription.  If another member's
    SendMessage publishes to the room before the stream has noticed, and
    the stream is less than an hour old with its listener running, the
    listener's next round sends on the closed channel, whether or not the
    sender has broadcast by then; the panic is recovered into
    redisErrChan and ends the listener, and when the loop takes that
    case the stream ends with Internal "redis subscription error"
    instead of ending normally. *)
Theorem late_message_fails_left_stream
    (d : Redis.db) (ops : list op) (lreq : LeaveRoomRequest) (e : env)
    (sreq : SendMessageRequest) (e' : env) (now : Z)
    (i : nat) (ss : session) (ch : chan) :
  let w := run ops (start d) in
  let msg := mkMessage (env_uuid e') (sm_UserId sreq) (sm_RoomId sreq) (sm_Content sreq)
                       (Time.unix_millis (env_now e')) in
  lr_UserId lreq ≠ "" → lr_RoomId lreq ≠ "" → fails e 0 = false → fails e 1 = false →
  sessions w !! i = Some ss → ss_phase ss = Streaming → redisErr ss = false →
  listening ss = true → redisCtx_done ss now = false →
  reg_lookup (roomStreams (srv w)) (lr_RoomId lreq) (lr_UserId lreq) = Some (msgChan ss) →
  heap (srv w) !! msgChan ss = Some ch →
  Redis.subs (rdb (srv w)) !! pubsub ss
    = Some (Redis.mkPubSub (room_channel (lr_RoomId lreq)) [] false) →
  (0 ≤ env_now e' < 2 ^ 63)%Z →
  sm_UserId sreq ≠ "" → sm_UserId sreq ≠ lr_UserId lreq → sm_RoomId sreq = lr_RoomId lreq →
  sm_Content sreq ≠ "" →
  fails e' 0 = false → fails e' 1 = false → fails e' 2 = false → fails e' 4 = false →
  Redis.SIsMember (users_key (lr_RoomId lreq)) (sm_UserId sreq) (rdb (srv w)) = true →
  ∃ s1 evs1 s2 evs2 ss' s3,
    LeaveRoom lreq e (srv w) = (Ok (mkLeaveRoomResponse true), s1, evs1) ∧
    SendMessage_publish sreq e' s1 = (Ok msg, s2, evs2) ∧
    session_steps [Listen now false; RedisErr] ss s2
      = (ss', s3, [LogStreamEnd "Redis error"]) ∧
    ret ss' = Some (Error Internal "redis subscription error") ∧
    sent ss' = sent ss ∧ listening ss' = false ∧
    ∃ s2' evb ss'' s3',
      SendMessage_broadcast msg s2 = (Ok (mkSendMessageResponse true msg), s2', evb) ∧
      session_steps [Listen now false; RedisErr] ss s2'
        = (ss'', s3', [LogStreamEnd "Redis error"]) ∧
      ret ss'' = Some (Error Internal "redis subscription error") ∧
      sent ss'' = sent ss.
Proof.
  intros w msg Hu Hr H0 H1 Hi Hph Herr Hlis Hdone Hreg Hch Hsub Hnow Hsu Hne Hsr Hsc
         H0' H1' H2' H4' Hm.
  pose proof (inv_run ops _ (inv_start d)) as Hinv. fold w in Hinv.
  pose proof (inv_step (OpLeaveRoom lreq e) _ Hinv) as Hinv1.
  pose proof (step_LeaveRoom_srv lreq e w (inv_alive _ Hinv)) as Hsrv1.
  pose proof (inv_live _ Hinv _ _ _ Hreg) as Hopen.
  unfold closedness in Hopen. rewrite Hch in Hopen. injection Hopen as Hopen.
  assert (Hleave : LeaveRoom lreq e (srv w) =
            (Ok (mkLeaveRoomResponse true),
             mkServer (Redis.SRem (rooms_key (lr_UserId lreq)) (lr_RoomId lreq)
                         (Redis.SRem (users_key (lr_RoomId lreq)) (lr_UserId lreq)
                                     (rdb (srv w))))
                      (<[msgChan ss := mkChan (ch_buf ch) (ch_cap ch) true]> (heap (srv w)))
                      (unregister (lr_RoomId lreq) (lr_UserId lreq) (roomStreams (srv w))),
             [EvClose (msgChan ss)])).
  { unfold LeaveRoom. rewrite !decide_False by done. rewrite H0, H1.
    unfold reg_lookup in Hreg. rewrite Hreg, Hch. simpl. unfold close. by rewrite Hopen. }
  rewrite Hleave in Hsrv1. simpl in Hsrv1.
  set (s1 := mkServer _ _ _) in *.
  assert (Hm1 : Redis.SIsMember (users_key (sm_RoomId sreq)) (sm_UserId sreq) (rdb s1) = true).
  { rewrite Hsr. apply SIsMember_true. apply SIsMember_true in Hm. simpl.
    rewrite smembers_SRem, decide_False by (symmetry; apply users_key_ne_rooms_key).
    rewrite smembers_SRem, decide_True by done. set_solver. }
  assert (Hlive1 : registry_live s1) by (rewrite <- Hsrv1; apply (inv_live _ Hinv1)).
  assert (Hinj1 : registry_inj s1) by (rewrite <- Hsrv1; apply (inv_inj _ Hinv1)).
  assert (Hsr' : sm_RoomId sreq ≠ "") by (by rewrite Hsr).
  destruct (SendMessage_publish_ok sreq e' s1 Hsu Hsr' Hsc H0' H1' H2' Hm1)
    as (s2 & evs2 & Hpub & Hh2 & Hrs2 & Hh & _ & Hsubs).
  fold msg in Hpub. rewrite H4' in Hsubs.
  assert (Hshape2 : same_shape s1 s2).
  { split; [done|]. intros c. unfold closedness. by rewrite Hh2. }
  assert (Hch2 : heap s2 !! msgChan ss = Some (mkChan (ch_buf ch) (ch_cap ch) true)).
  { rewrite Hh2. unfold s1. cbn [heap]. apply lookup_insert_eq. }
  assert (Hsub2 : Redis.subs (rdb s2) !! pubsub ss
                  = Some (Redis.mkPubSub (room_channel (sm_RoomId sreq)) [env_uuid e'] false)).
  { rewrite Hsubs, list_lookup_fmap. simpl. rewrite Hsub. simpl. unfold Redis.deliver. simpl.
    rewrite Hsr. by rewrite bool_decide_eq_true_2. }
  assert (Hres : resolve (env_uuid e') (Redis.HGetAll (message_key (env_uuid e')) (rdb s2))
                 = Some (stored_message sreq e')).
  { unfold Redis.HGetAll. rewrite Hh. by apply resolve_message_fields. }
  assert (Hfail : ∀ s ch2,
            Redis.subs (rdb s) !! pubsub ss
              = Some (Redis.mkPubSub (room_channel (sm_RoomId sreq)) [env_uuid e'] false) →
            resolve (env_uuid e') (Redis.HGetAll (message_key (env_uuid e')) (rdb s))
              = Some (stored_message sreq e') →
            heap s !! msgChan ss = Some ch2 → ch_closed ch2 = true →
            ∃ ss' s3,
              session_steps [Listen now false; RedisErr] ss s
                = (ss', s3, [LogStreamEnd "Redis error"]) ∧
              ret ss' = Some (Error Internal "redis subscription error") ∧
              sent ss' = sent ss ∧ listening ss' = false).
  { intros s ch2 Hs Hrs Hc2 Hcl2.
    destruct (listen_closed ss s _ _ _ _ _ Hs Hrs Hc2 Hcl2) as (s3 & Hlisten).
    rewrite session_steps_cons, session_step_Listen, Hlisten by done.
    cbn [fst snd foldl]. unfold session_step. cbn [ss_phase redisErr]. rewrite Hph.
    eexists _, _. split; [reflexivity|]. done. }
  destruct (Hfail s2 _ Hsub2 Hres Hch2 eq_refl) as (ss' & s3 & Hsteps & Hret & Hsent & Hl).
  eexists s1, _, s2, evs2, ss', s3.
  split; [exact Hleave|]. split; [exact Hpub|]. split; [exact Hsteps|].
  split; [exact Hret|]. split; [exact Hsent|]. split; [exact Hl|].
  destruct (SendMessage_broadcast_ok msg s2 (same_shape_live _ _ Hshape2 Hlive1)
              (same_shape_inj _ _ Hshape2 Hinj1))
    as (s2' & evb & Hsend & Hrdb & _ & _ & Hother).
  assert (Hch2' : heap s2' !! msgChan ss = Some (mkChan (ch_buf ch) (ch_cap ch) true)).
  { rewrite Hother; [done|]. intros user Hl'.
    pose proof (same_shape_live _ _ Hshape2 Hlive1 _ _ _ Hl') as Hop.
    unfold closedness in Hop. by rewrite Hch2 in Hop. }
  rewrite <- Hrdb in Hsub2, Hres.
  destruct (Hfail s2' _ Hsub2 Hres Hch2' eq_refl) as (ss'' & s3' & Hsteps' & Hret' & Hsent' & _).
  exists s2', evb, ss'', s3'. split; [exact Hsend|]. split; [exact Hsteps'|].
  split; [exact Hret'|exact Hsent'].
Qed.

(** X10 (delete of an emptied room map in LeaveRoom and in the cleanup of
    StreamMessages).  In every reachable state the registry holds no room
    with an empty user map: a room is in roomStreams exactly while some
    user has a channel registered in it. *)
Theorem registry_has_no_empty_room (d : Redis.db) (ops : list op) (room : string) :
  is_Some (roomStreams (srv (run ops (start d))) !! room) ↔
  ∃ user c, reg_lookup (roomStreams (srv (run ops (start d)))) room user = Some c.
Proof.
  pose proof (inv_rooms _ (inv_run ops _ (inv_start d))) as Hrooms.
  unfold reg_lookup. split.
  - intros [m Hm]. rewrite Hm. simpl.
    destruct (map_choose m (Hrooms _ _ Hm)) as (user & c & Huc). by exists user, c.
  - intros (user & c & H). by destruct (roomStreams _ !! room).
Qed.






















Lemma late_message_fails_left_stream_witness :
  let msg := mkMessage "m0" "alice" "weather" "hello" 1762093845123 in
  let bob := mkSession (mkStreamMessagesRequest "bob" "weather") 0 false 0 false Streaming
               [mkMessage "keep-alive" "bob" "weather" "" 1762093845123] None t0 t0 true in
  ∃ s1 evs1 s2 evs2 ss' s3,
    LeaveRoom (mkLeaveRoomRequest "bob" "weather") quiet_env
              (srv (run bob_listening (start Redis.empty)))
      = (Ok (mkLeaveRoomResponse true), s1, evs1) ∧
    SendMessage_publish (mkSendMessageRequest "alice" "weather" "hello") quiet_env s1
      = (Ok msg, s2, evs2) ∧
    session_steps [Listen t0 false; RedisErr] bob s2
      = (ss', s3, [LogStreamEnd "Redis error"]) ∧
    ret ss' = Some (Error Internal "redis subscription error").
Proof.
  intros msg bob.
  assert (Hnow : (0 ≤ env_now quiet_env < 2 ^ 63)%Z)
    by (vm_compute; split; [discriminate | reflexivity]).
  assert (Hne : ∀ a b, String a b ≠ "") by discriminate.
  assert (Hab : "alice" ≠ "bob") by discriminate.
  assert (Hm : Redis.SIsMember (users_key "weather") "alice"
                 (rdb (srv (run bob_listening (start Redis.empty)))) = true)
    by (vm_compute; reflexivity).
  assert (Hi : sessions (run bob_listening (start Redis.empty)) !! 0 = Some bob)
    by (vm_compute; reflexivity).
  assert (Hreg : reg_lookup (roomStreams (srv (run bob_listening (start Redis.empty))))
                   "weather" "bob" = Some 0) by (vm_compute; reflexivity).
  assert (Hch : heap (srv (run bob_listening (start Redis.empty))) !! 0 = Some (make 200))
    by (vm_compute; reflexivity).
  assert (Hsub : Redis.subs (rdb (srv (run bob_listening (start Redis.empty)))) !! 0
                 = Some (Redis.mkPubSub (room_channel "weather") [] false))
    by (vm_compute; reflexivity).
  destruct (late_message_fails_left_stream Redis.empty bob_listening
              (mkLeaveRoomRequest "bob" "weather") quiet_env
              (mkSendMessageRequest "alice" "weather" "hello") quiet_env t0 0 bob
              (make 200)
              (Hne _ _) (Hne _ _) eq_refl eq_refl Hi eq_refl eq_refl eq_refl eq_refl
              Hreg Hch Hsub
              Hnow (Hne _ _) Hab eq_refl (Hne _ _) eq_refl eq_refl eq_refl eq_refl Hm)
    as (s1 & evs1 & s2 & evs2 & ss' & s3 & Hleave & Hsend & Hsteps & Hret & _).
  exists s1, evs1, s2, evs2, ss', s3.
  split; [exact Hleave|]. split; [exact Hsend|]. split; [exact Hsteps|]. exact Hret.
Defined.


(** X12 (JoinRoom: the error returns after the first SADD).  An Internal
    error of JoinRoom is not a refusal: when the second SADD or the LRANGE
    fails, the user has already been added to the room's member set and
    stays there, so the user's SendMessage is not refused although
    JoinRoom reported failure; the channels and the registry are as before. *)
Theorem join_error_after_admission
    (req : JoinRoomRequest) (e e' : env) (s : ChatCloudServer) (content : string) :
  jr_UserId req ≠ "" → jr_RoomId req ≠ "" →
  fails e 0 = false → fails e 1 = true ∨ fails e 2 = true →
  ∃ msg s1 evs,
    JoinRoom req e s = (Error Internal msg, s1, evs) ∧
    Redis.SIsMember (users_key (jr_RoomId req)) (jr_UserId req) (rdb s1) = true ∧
    heap s1 = heap s ∧ roomStreams s1 = roomStreams s ∧
    ∀ m, (SendMessage (mkSendMessageRequest (jr_UserId req) (jr_RoomId req) content) e' s1).1.1
         ≠ Error PermissionDenied m.
Proof.
  intros Hu Hr H0 H12.
  assert (Hsend : ∀ s1, Redis.SIsMember (users_key (jr_RoomId req)) (jr_UserId req) (rdb s1)
                        = true →
            ∀ m, (SendMessage (mkSendMessageRequest (jr_UserId req) (jr_RoomId req) content)
                              e' s1).1.1 ≠ Error PermissionDenied m).
  { intros s1 Hm m. rewrite SendMessage_unfold; cbv zeta. simpl. rewrite Hm. simpl.
    repeat case_decide; try done.
    destruct (fails e' 0); [done|]. destruct (fails e' 1); [done|].
    destruct (fails e' 2); [done|].
    destruct (fails e' 3); destruct (fails e' 4);
      match goal with |- context [broadcastMessage ?m0 ?s0] =>
        pose proof (broadcastMessage_not_error m0 s0) as Hb;
        destruct (broadcastMessage m0 s0) as [[o s2] evb] end;
      simpl in *; destruct o; try done; intros [= -> _]; by eapply Hb. }
  unfold JoinRoom. rewrite !decide_False by done. rewrite H0.
  destruct (fails e 1) eqn:E1.
  - eexists _, _, _. split; [done|]. simpl. split_and!; try done;
      [|apply Hsend; simpl]; apply member_after_SAdd.
  - destruct H12 as [|H2]; [done|]. rewrite H2.
    eexists _, _, _. split; [done|]. simpl. split_and!; try done;
      [|apply Hsend; simpl]; apply member_after_SAdd.
Qed.

Lemma join_error_after_admission_witness :
  ∃ msg s1 evs,
    JoinRoom (mkJoinRoomRequest "bob" "weather") (mkEnv t0 "" [false; true]) weather
      = (Error Internal msg, s1, evs) ∧
    Redis.SIsMember (users_key "weather") "bob" (rdb weather) = false ∧
    Redis.SIsMember (users_key "weather") "bob" (rdb s1) = true.
Proof.
  assert (Hne : ∀ a b, String a b ≠ "") by discriminate.
  destruct (join_error_after_admission (mkJoinRoomRequest "bob" "weather")
              (mkEnv t0 "" [false; true]) quiet_env weather "hi"
              (Hne _ _) (Hne _ _) eq_refl (or_introl eq_refl))
    as (msg & s1 & evs & Hjoin & Hm & _).
  exists msg, s1, evs. split; [exact Hjoin|]. split; [vm_compute; reflexivity | exact Hm].
Defined.

(** X13 (LeaveRoom: the error return after the first SREM).  When the
    second SREM fails LeaveRoom answers Internal, yet the user is no
    longer a member (SendMessage is refused) while the registry and the
    channels are as they were: the user's channel is still registered,
    open, and holds what it held.  A broadcast to the room that runs on
    that state still offers its message to that channel: it is put at
    its end when the channel has room, and dropped when it is full. *)
Theorem leave_error_keeps_stream
    (d : Redis.db) (ops : list op) (lreq : LeaveRoomRequest) (e e1 : env)
    (msg : Message) (c : nat) (ch : chan) (content : string) :
  let w := run ops (start d) in
  lr_UserId lreq ≠ "" → lr_RoomId lreq ≠ "" → fails e 0 = false → fails e 1 = true →
  content ≠ "" → fails e1 0 = false →
  reg_lookup (roomStreams (srv w)) (lr_RoomId lreq) (lr_UserId lreq) = Some c →
  heap (srv w) !! c = Some ch →
  RoomId msg = lr_RoomId lreq →
  ∃ s1 evs s2 evb,
    LeaveRoom lreq e (srv w) = (Error Internal "failed to leave room", s1, evs) ∧
    SendMessage (mkSendMessageRequest (lr_UserId lreq) (lr_RoomId lreq) content) e1 s1
      = (Error PermissionDenied "user is not in the room", s1, []) ∧
    roomStreams s1 = roomStreams (srv w) ∧ heap s1 = heap (srv w) ∧
    ch_closed ch = false ∧
    SendMessage_broadcast msg s1 = (Ok (mkSendMessageResponse true msg), s2, evb) ∧
    heap s2 !! c =
      Some (if length (ch_buf ch) <? ch_cap ch
            then mkChan (ch_buf ch ++ [msg]) (ch_cap ch) false else ch).
Proof.
  intros w Hu Hr H0 H1 Hc H0' Hreg Hch Hroom.
  pose proof (inv_run ops _ (inv_start d)) as Hinv. fold w in Hinv.
  assert (Hleave : LeaveRoom lreq e (srv w) =
            (Error Internal "failed to leave room",
             with_rdb (Redis.SRem (users_key (lr_RoomId lreq)) (lr_UserId lreq) (rdb (srv w)))
                      (srv w),
             [LogStoreError "removing room from user's rooms"])).
  { unfold LeaveRoom. rewrite !decide_False by done. by rewrite H0, H1. }
  set (s1 := with_rdb _ _) in *.
  assert (Hlive1 : registry_live s1) by apply (inv_live _ Hinv).
  assert (Hinj1 : registry_inj s1) by apply (inv_inj _ Hinv).
  destruct (SendMessage_broadcast_ok msg s1 Hlive1 Hinj1)
    as (s2 & evb & Hsend & _ & _ & Hheap & _).
  pose proof (inv_live _ Hinv _ _ _ Hreg) as Hopen.
  unfold closedness in Hopen. rewrite Hch in Hopen. injection Hopen as Hopen.
  eexists s1, _, s2, evb. split; [exact Hleave|]. split_and!; try done.
  - apply SendMessage_not_member; try done. apply member_after_SRem.
  - rewrite <- Hroom in Hreg. rewrite (Hheap _ _ Hreg). simpl. rewrite Hch. done.
Qed.

Lemma leave_error_keeps_stream_witness :
  let msg := mkMessage "m0" "alice" "weather" "hello" 1762093845123 in
  ∃ s1 evs s2 evb,
    LeaveRoom (mkLeaveRoomRequest "bob" "weather") (mkEnv t0 "" [false; true])
              (srv (run bob_listening (start Redis.empty)))
      = (Error Internal "failed to leave room", s1, evs) ∧
    SendMessage (mkSendMessageRequest "bob" "weather" "hi") quiet_env s1
      = (Error PermissionDenied "user is not in the room", s1, []) ∧
    roomStreams s1 = roomStreams (srv (run bob_listening (start Redis.empty))) ∧
    SendMessage_broadcast msg s1 = (Ok (mkSendMessageResponse true msg), s2, evb) ∧
    heap s2 !! 0 = Some (mkChan [msg] 200 false).
Proof.
  intros msg.
  assert (Hne : ∀ a b, String a b ≠ "") by discriminate.
  assert (Hreg : reg_lookup (roomStreams (srv (run bob_listening (start Redis.empty))))
                   "weather" "bob" = Some 0) by (vm_compute; reflexivity).
  assert (Hch : heap (srv (run bob_listening (start Redis.empty))) !! 0 = Some (make 200))
    by (vm_compute; reflexivity).
  destruct (leave_error_keeps_stream Redis.empty bob_listening
              (mkLeaveRoomRequest "bob" "weather") (mkEnv t0 "" [false; true])
              quiet_env msg 0 (make 200) "hi"
              (Hne _ _) (Hne _ _) eq_refl eq_refl (Hne _ _) eq_refl Hreg Hch eq_refl)
    as (s1 & evs & s2 & evb & Hleave & Hden & Hrs & _ & _ & Hsend & Hheap).
  exists s1, evs, s2, evb.
  split; [exact Hleave|]. split; [exact Hden|]. split; [exact Hrs|].
  split; [exact Hsend|]. exact Hheap.
Defined.

(** X14 (SendMessage: the error return after HSET).  When the LPUSH
    fails SendMessage answers Internal, but the message hash has been
    written and stays: the message can be read back under its ID, while
    no room list names it, nothing was published and no channel got it. *)
Theorem send_error_leaves_orphan
    (req : SendMessageRequest) (e : env) (s : ChatCloudServer) :
  (0 ≤ env_now e < 2 ^ 63)%Z →
  sm_UserId req ≠ "" → sm_RoomId req ≠ "" → sm_Content req ≠ "" →
  fails e 0 = false → fails e 1 = false → fails e 2 = true →
  Redis.SIsMember (users_key (sm_RoomId req)) (sm_UserId req) (rdb s) = true →
  ∃ s1 evs,
    SendMessage req e s = (Error Internal "failed to send message", s1, evs) ∧
    resolve (env_uuid e) (Redis.HGetAll (message_key (env_uuid e)) (rdb s1))
      = Some (stored_message req e) ∧
    Redis.lists (rdb s1) = Redis.lists (rdb s) ∧
    Redis.subs (rdb s1) = Redis.subs (rdb s) ∧
    heap s1 = heap s ∧ roomStreams s1 = roomStreams s.
Proof.
  intros Hnow Hu Hr Hc H0 H1 H2 Hm. rewrite SendMessage_unfold; cbv zeta.
  rewrite !decide_False by done. rewrite H0, Hm, H1, H2. simpl.
  eexists _, _. split; [done|]. simpl. split_and!; try done.
  by apply (resolve_message_fields req e).
Qed.

Lemma send_error_leaves_orphan_witness :
  ∃ s1 evs,
    SendMessage (mkSendMessageRequest "alice" "weather" "hello")
                (mkEnv t0 "m0" [false; false; true]) weather
      = (Error Internal "failed to send message", s1, evs) ∧
    resolve "m0" (Redis.HGetAll (message_key "m0") (rdb s1))
      = Some (mkMessage "m0" "alice" "weather" "hello" 1762093845000) ∧
    Redis.lists (rdb s1) = Redis.lists (rdb weather).
Proof.
  assert (Hnow : (0 ≤ env_now (mkEnv t0 "m0" [false; false; true]) < 2 ^ 63)%Z)
    by (vm_compute; split; [discriminate | reflexivity]).
  assert (Hne : ∀ a b, String a b ≠ "") by discriminate.
  assert (Hm : Redis.SIsMember (users_key "weather") "alice" (rdb weather) = true)
    by (vm_compute; reflexivity).
  destruct (send_error_leaves_orphan (mkSendMessageRequest "alice" "weather" "hello")
              (mkEnv t0 "m0" [false; false; true]) weather
              Hnow (Hne _ _) (Hne _ _) (Hne _ _) eq_refl eq_refl eq_refl Hm)
    as (s1 & evs & Hsend & Hres & Hl & _).
  exists s1, evs. split; [exact Hsend|]. split; [exact Hres | exact Hl].
Defined.

(** ** The client: topics and the chat room *)

Lemma split_nonempty sep s : Client.split sep s ≠ [].
Proof.
  destruct s as [|c rest]; simpl; [done|].
  case_decide; [done|]. by destruct (Client.split sep rest).
Qed.

Lemma split_app_sep sep a b :
  Client.split sep (a +:+ String sep b) = Client.split sep a ++ Client.split sep b.
Proof.
  induction a as [|c a IH]; simpl.
  - by rewrite decide_True.
  - case_decide; [by rewrite IH|]. rewrite IH.
    pose proof (split_nonempty sep a). by destruct (Client.split sep a).
Qed.

Lemma split_no_sep sep s : contains sep s = false → Client.split sep s = [s].
Proof.
  induction s as [|c s IH]; simpl; [done|].
  intros [Hc Hs]%orb_false_elim. apply bool_decide_eq_false in Hc.
  rewrite decide_False by done. by rewrite IH.
Qed.

Lemma digit_val_pretty_N_char d :
  (d < 10)%N → Time.digit_val (pretty_N_char d) = Some (Z.of_N d).
Proof.
  intros Hd.
  assert (d = 0 ∨ d = 1 ∨ d = 2 ∨ d = 3 ∨ d = 4 ∨ d = 5 ∨ d = 6 ∨ d = 7 ∨ d = 8 ∨ d = 9)%N
    as H by lia.
  repeat (destruct H as [->|H]; [done|]). by subst.
Qed.

(** The digits [pretty] writes in front of [s], read back. *)
Lemma digits_pretty_N_go x :
  (0 < x)%N →
  ∃ p : Z,
    (∀ s acc, Client.digits (pretty_N_go x s) acc
              = Client.digits s (Some (p * default 0 acc + Z.of_N x)%Z)) ∧
    ∀ s, ∃ d rest, (d < 10)%N ∧ pretty_N_go x s = String (pretty_N_char d) rest.
Proof.
  induction (N.lt_wf_0 x) as [x _ IH]. intros Hx.
  assert (Hd : (x `mod` 10 < 10)%N) by (apply N.mod_lt; lia).
  destruct (decide (x `div` 10 = 0)%N) as [Hz|Hnz].
  - exists 10%Z. split.
    + intros s acc. rewrite pretty_N_go_step, Hz, pretty_N_go_0 by done. simpl.
      rewrite digit_val_pretty_N_char by done. do 3 f_equal.
      rewrite N2Z.inj_mod. apply Z.mod_small.
      apply N.div_small_iff in Hz; lia.
    + intros s. exists (x `mod` 10)%N, s.
      by rewrite pretty_N_go_step, Hz, pretty_N_go_0.
  - assert (Hlt : (x `div` 10 < x)%N) by (apply N.div_lt; lia).
    assert (Hpos : (0 < x `div` 10)%N) by (apply N.neq_0_lt_0; done).
    destruct (IH (x `div` 10)%N Hlt Hpos) as (p & Hp & Hfirst).
    exists (10 * p)%Z. split.
    + intros s acc. rewrite pretty_N_go_step, Hp by done. simpl.
      rewrite digit_val_pretty_N_char by done. do 2 f_equal.
      rewrite N2Z.inj_mod, N2Z.inj_div. simpl.
      pose proof (Z.div_mod (Z.of_N x) 10). lia.
    + intros s. rewrite pretty_N_go_step by done. apply Hfirst.
Qed.

Lemma pretty_N_char_plain d :
  (d < 10)%N →
  Client.isWhiteSpace (pretty_N_char d) = false ∧
  pretty_N_char d ≠ "-"%char ∧ pretty_N_char d ≠ "+"%char.
Proof.
  intros Hd.
  assert (d = 0 ∨ d = 1 ∨ d = 2 ∨ d = 3 ∨ d = 4 ∨ d = 5 ∨ d = 6 ∨ d = 7 ∨ d = 8 ∨ d = 9)%N
    as H by lia.
  repeat (destruct H as [->|H]; [done|]). by subst.
Qed.

Lemma parseInt_plain c rest :
  Client.isWhiteSpace c = false → c ≠ "-"%char → c ≠ "+"%char →
  Client.parseInt (String c rest) = Client.digits (String c rest) None.
Proof.
  intros Hw Hm Hp. unfold Client.parseInt. cbn [Client.trimStart]. rewrite Hw.
  by rewrite !decide_False by done.
Qed.

Lemma parseInt_pretty_pos x :
  Client.parseInt (pretty (Npos x)) = Some (Zpos x) ∧
  Client.parseInt ("-" +:+ pretty (Npos x)) = Some (Zneg x).
Proof.
  destruct (digits_pretty_N_go (Npos x)) as (p & Hp & Hfirst); [done|].
  destruct (Hfirst "") as (d & rest & Hd & Hs).
  destruct (pretty_N_char_plain d Hd) as (Hw & Hm & Hpl).
  assert (Hpr : pretty (Npos x) = pretty_N_go (Npos x) "") by done.
  rewrite Hpr. split.
  - rewrite Hs, parseInt_plain by done. rewrite <- Hs, Hp. simpl. f_equal. lia.
  - change ("-" +:+ pretty_N_go (N.pos x) "") with (String "-" (pretty_N_go (N.pos x) "")).
    unfold Client.parseInt. cbn [Client.trimStart].
    change (Client.isWhiteSpace "-") with false. cbv iota.
    rewrite decide_True by done. rewrite Hp. simpl. f_equal. lia.
Qed.

(** [parseInt] reads back every number the template literal writes. *)
Lemma parseInt_toString n : Client.parseInt (Client.toString n) = n.
Proof.
  destruct n as [[|x|x]|]; try done.
  - apply parseInt_pretty_pos.
  - apply parseInt_pretty_pos.
Qed.

Lemma contains_pretty_N_go x s : contains ":" (pretty_N_go x s) = contains ":" s.
Proof.
  revert s. induction (N.lt_wf_0 x) as [x _ IH]. intros s.
  destruct (decide (x = 0)%N) as [->|Hx]; [by rewrite pretty_N_go_0|].
  rewrite pretty_N_go_step by lia. rewrite IH by (apply N.div_lt; lia).
  assert (Hd : (x `mod` 10 < 10)%N) by (apply N.mod_lt; lia).
  simpl. rewrite bool_decide_eq_false_2; [done|].
  revert Hd. generalize (x `mod` 10)%N. intros d Hd.
  assert (d = 0 ∨ d = 1 ∨ d = 2 ∨ d = 3 ∨ d = 4 ∨ d = 5 ∨ d = 6 ∨ d = 7 ∨ d = 8 ∨ d = 9)%N
    as H by lia.
  repeat (destruct H as [->|H]; [done|]). by subst.
Qed.

Lemma contains_toString n : contains ":" (Client.toString n) = false.
Proof.
  assert (Hpos : ∀ x, contains ":" (pretty (Npos x)) = false).
  { intros x. change (pretty (Npos x)) with (pretty_N_go (Npos x) "").
    by rewrite contains_pretty_N_go. }
  destruct n as [[|x|x]|]; try done.
  - apply Hpos.
  - change (Client.toString (Some (Z.neg x))) with (String "-" (pretty (Npos x))).
    simpl. apply Hpos.
Qed.

Lemma contains_hd_split sep s : contains sep (hd "" (Client.split sep s)) = false.
Proof.
  induction s as [|c s IH]; simpl; [done|].
  case_decide as Hc; [done|].
  pose proof (split_nonempty sep s).
  destruct (Client.split sep s) as [|p ps]; [done|]. simpl in *.
  by rewrite bool_decide_eq_false_2.
Qed.

(** The parts [split(':')] makes of a topic message. *)
Lemma split_topic_message userId topic :
  Client.split ":" (sm_Content (Client.shareTopic userId topic)) =
  "TOPIC" :: Client.split ":" (Client.tp_text topic) ++ Client.split ":" (Client.tp_roomId topic) ++
             Client.split ":" (Client.toString (Client.tp_size topic)).
Proof.
  unfold Client.shareTopic. cbn [sm_Content].
  change ("TOPIC:" +:+ ?x) with ("TOPIC" +:+ String ":" x).
  repeat match goal with
         | |- context [":" +:+ ?x] => change (":" +:+ x) with (String ":" x)
         end.
  by rewrite !split_app_sep.
Qed.

Lemma is_topic_message userId topic :
  negb (bool_decide (sm_Content (Client.shareTopic userId topic) = "")) &&
  Client.startsWith (sm_Content (Client.shareTopic userId topic)) "TOPIC:" = true.
Proof.
  unfold Client.shareTopic, Client.startsWith. cbn [sm_Content].
  change ("TOPIC:" +:+ ?x) with (String "T" (String "O" (String "P" (String "I"
                                  (String "C" (String ":" x)))))).
  rewrite bool_decide_eq_false_2 by discriminate. reflexivity.
Qed.

(** X15 (shareTopic and the callback of streamTopicUpdates in
    chatCloudService.js).  A topic whose text and room ID have no colon
    comes out of the stream as it went in: the subscriber's callback gets
    the same text, room ID and size, the sender as createdBy and the
    message's timestamp.  The size is NaN or a safe integer, where the
    model of numbers is exact. *)
Theorem topic_round_trip (userId : string) (topic : Client.Topic) (message : Message) :
  contains ":" (Client.tp_text topic) = false → contains ":" (Client.tp_roomId topic) = false →
  Client.tp_size topic = None ∨ Client.isSafeInteger (Client.tp_size topic) = true →
  Content message = sm_Content (Client.shareTopic userId topic) →
  Client.streamTopicUpdates message =
    Some (Client.mkTopicUpdate (Client.tp_text topic) (Client.tp_roomId topic) (Client.tp_size topic)
                        (UserId message) (Timestamp message)).
Proof.
  intros Ht Hr _ Hc. unfold Client.streamTopicUpdates.
  rewrite Hc, is_topic_message, split_topic_message.
  rewrite (split_no_sep _ _ Ht), (split_no_sep _ _ Hr).
  rewrite (split_no_sep _ _ (contains_toString _)). simpl.
  by rewrite parseInt_toString.
Qed.

(** X16 (shareTopic, streamTopicUpdates).  The topic format does not
    escape the separator.  Every shared topic is decoded to some topic,
    and the text the subscriber gets is the sent text up to its first
    colon: a text with a colon never arrives as sent. *)
Theorem topic_text_cut_at_colon (userId : string) (topic : Client.Topic) (message : Message) :
  Content message = sm_Content (Client.shareTopic userId topic) →
  ∃ upd,
    Client.streamTopicUpdates message = Some upd ∧
    Client.tu_text upd = hd "" (Client.split ":" (Client.tp_text topic)) ∧
    (contains ":" (Client.tp_text topic) = true → Client.tu_text upd ≠ Client.tp_text topic).
Proof.
  intros Hc. unfold Client.streamTopicUpdates.
  rewrite Hc, is_topic_message, split_topic_message.
  pose proof (contains_hd_split ":" (Client.tp_text topic)) as Hhd.
  pose proof (split_nonempty ":" (Client.tp_text topic)) as H1.
  pose proof (split_nonempty ":" (Client.tp_roomId topic)) as H2.
  pose proof (split_nonempty ":" (Client.toString (Client.tp_size topic))) as H3.
  destruct (Client.split ":" (Client.tp_text topic)) as [|t1 ts]; [done|].
  assert (Hrest : ∃ a b rest,
            ts ++ Client.split ":" (Client.tp_roomId topic) ++
            Client.split ":" (Client.toString (Client.tp_size topic)) = a :: b :: rest).
  { destruct ts as [|a [|b ts]]; simpl.
    - destruct (Client.split ":" (Client.tp_roomId topic)) as [|a [|b r]]; [done|..]; simpl.
      + destruct (Client.split ":" (Client.toString (Client.tp_size topic))); [done|]. by eexists _, _, _.
      + by eexists _, _, _.
    - destruct (Client.split ":" (Client.tp_roomId topic)) as [|b r]; [done|]. by eexists _, _, _.
    - by eexists _, _, _. }
  destruct Hrest as (a & b & rest & Hrest). simpl. rewrite Hrest.
  eexists. split; [done|]. simpl. split; [done|].
  intros Hcol Heq. simpl in Hhd. rewrite Heq in Hhd. congruence.
Qed.

Lemma topic_round_trip_witness :
  Client.streamTopicUpdates
    (mkMessage "m0" "alice" "global-topics" "TOPIC:rust:rust:25" 1762093845123)
  = Some (Client.mkTopicUpdate "rust" "rust" (Some 25%Z) "alice" 1762093845123).
Proof.
  exact (topic_round_trip "alice" (Client.mkTopic "rust" "rust" (Some 25%Z))
           (mkMessage "m0" "alice" "global-topics" "TOPIC:rust:rust:25" 1762093845123)
           eq_refl eq_refl (or_intror eq_refl) eq_refl).
Defined.

Lemma topic_text_cut_at_colon_witness :
  ∃ upd,
    Client.streamTopicUpdates
      (mkMessage "m0" "alice" "global-topics" "TOPIC:c++: tips:c++:-tips:25" 1762093845123)
    = Some upd ∧
    Client.tu_text upd = "c++" ∧ Client.tu_text upd ≠ "c++: tips".
Proof.
  destruct (topic_text_cut_at_colon "alice" (Client.mkTopic "c++: tips" "c++:-tips" (Some 25%Z))
              (mkMessage "m0" "alice" "global-topics" "TOPIC:c++: tips:c++:-tips:25"
                         1762093845123) eq_refl)
    as (upd & Hupd & Htext & Hne).
  exists upd. split; [exact Hupd|]. split; [exact Htext | exact (Hne eq_refl)].
Defined.

Lemma existsb_Id (ms : list Message) (m : Message) :
  existsb (λ m', bool_decide (Id m' = Id m)) ms = true ↔ Id m ∈ Id <$> ms.
Proof.
  rewrite existsb_exists, list_elem_of_fmap. split.
  - intros (m' & Hin & Heq). apply bool_decide_eq_true in Heq.
    exists m'. split; [done|]. by apply list_elem_of_In.
  - intros (m' & Heq & Hin). exists m'. split; [by apply list_elem_of_In|].
    by apply bool_decide_eq_true.
Qed.

Lemma messages_cons recent m stream :
  Client.messages recent (m :: stream) =
  Client.messages (if decide (Id m = "keep-alive") then recent
                   else if decide (Id m ∈ Id <$> recent) then recent
                   else recent ++ [m]) stream.
Proof.
  unfold Client.messages. simpl. f_equal. unfold Client.streamMessages.
  case_decide; [done|]. simpl. unfold Client.push.
  destruct (existsb _ recent) eqn:E.
  - apply existsb_Id in E. by rewrite decide_True.
  - rewrite decide_False; [done|]. intros Hin. apply existsb_Id in Hin. congruence.
Qed.

(** X17 (the onMessage handler of streamMessages in chatCloudService.js,
    the stream callback of ChatRoom.vue).  What the chat room shows is the
    history JoinRoom returned, untouched, followed by streamed messages in
    arrival order: never a keep-alive, never an ID that is already shown
    (of two copies the first to arrive stays), and every other streamed
    message's ID is shown. *)
Theorem chat_shows_each_id_once (recent stream : list Message) :
  ∃ new,
    Client.messages recent stream = recent ++ new ∧
    NoDup (Id <$> new) ∧
    (∀ m, m ∈ new → m ∈ stream ∧ Id m ≠ "keep-alive" ∧ Id m ∉ Id <$> recent) ∧
    (∀ m, m ∈ stream → Id m ≠ "keep-alive" → Id m ∈ Id <$> (recent ++ new)).
Proof.
  revert recent. induction stream as [|m stream IH]; intros recent.
  - exists []. rewrite app_nil_r. split; [done|]. split; [constructor|].
    split; intros m Hm; by apply elem_of_nil in Hm.
  - rewrite messages_cons.
    destruct (decide (Id m = "keep-alive")) as [Hka|Hka];
      [|destruct (decide (Id m ∈ Id <$> recent)) as [Hin|Hin]].
    + destruct (IH recent) as (new & Heq & Hnd & Hnew & Hall).
      exists new. split_and!; try done.
      * intros x Hx. destruct (Hnew x Hx) as (? & ? & ?). split_and!; try done.
        by apply list_elem_of_further.
      * intros x [->|Hx]%elem_of_cons Hx'; [done|]. by apply Hall.
    + destruct (IH recent) as (new & Heq & Hnd & Hnew & Hall).
      exists new. split_and!; try done.
      * intros x Hx. destruct (Hnew x Hx) as (? & ? & ?). split_and!; try done.
        by apply list_elem_of_further.
      * intros x [->|Hx]%elem_of_cons Hx'; [|by apply Hall].
        rewrite fmap_app. apply elem_of_app. by left.
    + destruct (IH (recent ++ [m])) as (new & Heq & Hnd & Hnew & Hall).
      exists (m :: new). rewrite Heq, <- app_assoc. split; [done|]. split_and!.
      * simpl. constructor; [|done]. intros (x & Hid & Hx)%list_elem_of_fmap.
        destruct (Hnew x Hx) as (_ & _ & Hnot). apply Hnot.
        rewrite fmap_app. apply elem_of_app. right. simpl. rewrite Hid. by left.
      * intros x [->|Hx]%elem_of_cons.
        -- split_and!; try done. by left.
        -- destruct (Hnew x Hx) as (? & ? & Hnot). split_and!; try done.
           ++ by apply list_elem_of_further.
           ++ intros Hin'. apply Hnot. rewrite fmap_app. apply elem_of_app. by left.
      * intros x [->|Hx]%elem_of_cons Hx'.
        -- rewrite fmap_app. apply elem_of_app. right. simpl. by left.
        -- specialize (Hall x Hx Hx'). by rewrite <- app_assoc in Hall.
Qed.

(** ** The client with the server; the end of a stream; the history *)

Lemma messages_app recent s1 s2 :
  Client.messages recent (s1 ++ s2) = Client.messages (Client.messages recent s1) s2.
Proof. unfold Client.messages. by rewrite foldl_app. Qed.

(** Every ID the chat room shows came with the history or on the stream. *)
Lemma messages_ids recent stream x :
  x ∈ Id <$> Client.messages recent stream → x ∈ Id <$> recent ∨ x ∈ Id <$> stream.
Proof.
  revert recent. induction stream as [|m stream IH]; intros recent; [by left|].
  rewrite messages_cons. intros Hin. apply IH in Hin as [Hin|Hin].
  - repeat case_decide; try by left.
    rewrite fmap_app in Hin. apply elem_of_app in Hin as [Hin|Hin]; [by left|].
    right. simpl in *. apply list_elem_of_singleton in Hin as ->. by left.
  - right. simpl. by right.
Qed.

(** X18 (SendMessage's two deliveries, seen through ChatRoom.vue).  When
    a message arrives twice on the stream (the server's broadcast copy
    and the copy relayed through Redis have the same ID) the chat room
    adds the first copy and drops the second. *)
Theorem second_copy_is_dropped (recent stream : list Message) (m1 m2 : Message) :
  Id m2 = Id m1 → Id m1 ≠ "keep-alive" →
  Id m1 ∉ Id <$> recent → Id m1 ∉ Id <$> stream →
  Client.messages recent (stream ++ [m1; m2]) = Client.messages recent stream ++ [m1].
Proof.
  intros H2 Hka Hr Hs. rewrite messages_app.
  assert (Hview : Id m1 ∉ Id <$> Client.messages recent stream).
  { intros Hin. by apply messages_ids in Hin as [Hin|Hin]. }
  rewrite !messages_cons. rewrite H2.
  rewrite (decide_False (P := Id m1 = "keep-alive")) by done.
  rewrite (decide_False (P := Id m1 ∈ Id <$> Client.messages recent stream)) by done.
  rewrite (decide_False (P := Id m1 = "keep-alive")) by done.
  rewrite decide_True; [done|].
  rewrite fmap_app. apply elem_of_app. right. simpl. by left.
Qed.

Lemma second_copy_is_dropped_witness :
  Client.messages []
    [mkMessage "keep-alive" "bob" "weather" "" 1762093845123;
     mkMessage "m0" "alice" "weather" "hello" 1762093845123;
     mkMessage "m0" "alice" "weather" "hello" 1762093845000]
  = [mkMessage "m0" "alice" "weather" "hello" 1762093845123].
Proof.
  assert (Hka : "m0" ≠ "keep-alive") by discriminate.
  assert (Hr : "m0" ∉ Id <$> ([] : list Message)) by (apply not_elem_of_nil).
  assert (Hs : "m0" ∉ Id <$> [mkMessage "keep-alive" "bob" "weather" "" 1762093845123]).
  { intros Hin. apply list_elem_of_singleton in Hin. discriminate Hin. }
  exact (second_copy_is_dropped []
           [mkMessage "keep-alive" "bob" "weather" "" 1762093845123]
           (mkMessage "m0" "alice" "weather" "hello" 1762093845123)
           (mkMessage "m0" "alice" "weather" "hello" 1762093845000)
           eq_refl Hka Hr Hs).
Defined.

(** X19 (StreamMessages: the first keep-alive, return from the loop and
    the deferred cleanup).  When the client goes away (the stream's
    context is done) or a keep-alive, the first one or the one of a
    later tick, cannot be written, the handler returns and its cleanup
    leaves nothing
    behind: the registry entry of the user is gone, the channel is
    closed, by one close that succeeds, and the Redis subscription is
    closed.  What was still buffered in the channel is never written. *)
Theorem disconnect_cleans_up
    (d : Redis.db) (ops : list op) (i : nat) (ss : session) (ch : chan) (p : Redis.PubSub)
    (a : action) (r : outcome unit) :
  let w := run ops (start d) in
  let room := st_RoomId (ss_req ss) in
  let user := st_UserId (ss_req ss) in
  (ss_phase ss = Streaming ∧ a = CtxDone ∧ r = Ok ()) ∨
  (ss_phase ss = Streaming ∧
   ∃ now, tick_due ss now = true ∧ a = Tick now false ∧ r = Error Unknown "transport") ∨
  (ss_phase ss = Registered ∧
   ∃ now, a = InitialKeepAlive now false ∧ r = Error Unknown "transport") →
  sessions w !! i = Some ss → closed ss = false →
  reg_lookup (roomStreams (srv w)) room user = Some (msgChan ss) →
  heap (srv w) !! msgChan ss = Some ch →
  Redis.subs (rdb (srv w)) !! pubsub ss = Some p →
  ∃ ss' s' evs,
    session_steps [a; CleanupUnregister; CleanupClose] ss (srv w) = (ss', s', evs) ∧
    ss_phase ss' = Finished ∧ ret ss' = Some r ∧ sent ss' = sent ss ∧
    reg_lookup (roomStreams s') room user = None ∧
    heap s' !! msgChan ss = Some (mkChan (ch_buf ch) (ch_cap ch) true) ∧
    closes evs = [msgChan ss] ∧ failed_closes evs = [] ∧
    Redis.subs (rdb s') !! pubsub ss = Some (Redis.close_sub p).
Proof.
  intros w room user Ha Hi Hcl Hreg Hch Hsub.
  pose proof (inv_run ops _ (inv_start d)) as Hinv. fold w in Hinv.
  pose proof (inv_live _ Hinv _ _ _ Hreg) as Hopen.
  unfold closedness in Hopen. rewrite Hch in Hopen. injection Hopen as Hopen.
  assert (Hleave : ∃ ss1 ev,
            session_step a ss (srv w) = (leave r ss1 (srv w), ev) ∧
            closes ev = [] ∧ failed_closes ev = [] ∧
            ss_req ss1 = ss_req ss ∧ msgChan ss1 = msgChan ss ∧ closed ss1 = closed ss ∧
            pubsub ss1 = pubsub ss ∧ sent ss1 = sent ss).
  { destruct Ha as [(Hph & -> & ->)|[(Hph & now & Hd & -> & ->)|(Hph & now & -> & ->)]];
      unfold session_step; rewrite Hph, ?Hd; eexists _, _; (split; [reflexivity|done]). }
  destruct Hleave as (ss1 & ev & Hstep & Hev1 & Hev2 & Hq1 & Hm1 & Hc1 & Hp1 & Hs1).
  unfold session_steps. simpl. rewrite Hstep. simpl.
  unfold cleanup_close. simpl. rewrite Hq1, Hm1, Hc1, Hp1, Hs1, Hcl, Hch. simpl.
  unfold close. rewrite Hopen.
  eexists _, _, _. split; [reflexivity|]. simpl.
  rewrite !closes_app, Hev1. unfold failed_closes in *. rewrite !omap_app, Hev2. simpl.
  split_and!; try done.
  - rewrite reg_lookup_unregister. unfold room, user. by rewrite decide_True.
  - apply lookup_insert_eq.
  - rewrite list_lookup_alter, decide_True by done. by rewrite Hsub.
Qed.

Lemma disconnect_cleans_up_witness :
  ∃ ss' s' evs,
    session_steps [CtxDone; CleanupUnregister; CleanupClose]
      (mkSession (mkStreamMessagesRequest "bob" "weather") 0 false 0 false Streaming
                 [mkMessage "keep-alive" "bob" "weather" "" 1762093845123] None t0 t0 true)
      (srv (run bob_listening (start Redis.empty))) = (ss', s', evs) ∧
    ss_phase ss' = Finished ∧ ret ss' = Some (Ok ()) ∧
    reg_lookup (roomStreams s') "weather" "bob" = None ∧
    heap s' !! 0 = Some (mkChan [] 200 true) ∧
    Redis.subs (rdb s') !! 0 = Some (Redis.mkPubSub (room_channel "weather") [] true).
Proof.
  assert (Hi : sessions (run bob_listening (start Redis.empty)) !! 0
               = Some (mkSession (mkStreamMessagesRequest "bob" "weather") 0 false 0 false
                         Streaming [mkMessage "keep-alive" "bob" "weather" "" 1762093845123]
                         None t0 t0 true))
    by (vm_compute; reflexivity).
  assert (Hreg : reg_lookup (roomStreams (srv (run bob_listening (start Redis.empty))))
                   "weather" "bob" = Some 0) by (vm_compute; reflexivity).
  assert (Hch : heap (srv (run bob_listening (start Redis.empty))) !! 0 = Some (make 200))
    by (vm_compute; reflexivity).
  assert (Hsub : Redis.subs (rdb (srv (run bob_listening (start Redis.empty)))) !! 0
                 = Some (Redis.mkPubSub (room_channel "weather") [] false))
    by (vm_compute; reflexivity).
  destruct (disconnect_cleans_up Redis.empty bob_listening 0
              (mkSession (mkStreamMessagesRequest "bob" "weather") 0 false 0 false Streaming
                 [mkMessage "keep-alive" "bob" "weather" "" 1762093845123] None t0 t0 true)
              (make 200) _ CtxDone (Ok ())
              (or_introl (conj eq_refl (conj eq_refl eq_refl))) Hi eq_refl Hreg Hch Hsub)
    as (ss' & s' & evs & Hsteps & Hph & Hret & _ & Hnone & Hheap & _ & _ & Hsubs).
  exists ss', s', evs.
  split; [exact Hsteps|]. split; [exact Hph|]. split; [exact Hret|].
  split; [exact Hnone|]. split; [exact Hheap | exact Hsubs].
Defined.

Lemma resolve_Id msgID m msg : resolve msgID m = Some msg → Id msg = msgID.
Proof.
  unfold resolve. destruct (Time.Parse _); simpl; [|done]. by intros [= <-].
Qed.

Lemma fetch_messages_spec d fs ids :
  let r := fetch_messages d fs ids in
  sublist (Id <$> r.1) ids ∧
  Forall (λ m, resolve (Id m) (Redis.HGetAll (message_key (Id m)) d) = Some m) r.1 ∧
  length r.1 + length r.2 = length ids.
Proof.
  revert fs. induction ids as [|msgID ids IH]; intros fs; simpl.
  - split_and!; [constructor|constructor|done].
  - destruct (IH (tail fs)) as (Hsub & Hall & Hlen).
    destruct (fetch_messages d (tail fs) ids) as [ms evs]. simpl in *.
    destruct (default false (head fs)); simpl.
    + split_and!; [by constructor|done|lia].
    + destruct (resolve msgID _) as [msg|] eqn:E; simpl.
      * pose proof (resolve_Id _ _ _ E) as Hid. split_and!.
        -- rewrite Hid. by constructor.
        -- constructor; [by rewrite Hid|done].
        -- lia.
      * split_and!; [by constructor|done|lia].
Qed.

(** On a store whose timestamps were written by [Format], a hash that
    resolves has a timestamp, and the message is made of its fields. *)
Lemma resolve_written msgID d m :
  timestamps_written d →
  resolve msgID (Redis.HGetAll (message_key msgID) d) = Some m →
  ∃ t, (0 ≤ t < 2 ^ 63)%Z ∧
       field (Redis.HGetAll (message_key msgID) d) "timestamp" = Time.Format t ∧
       m = mkMessage msgID (field (Redis.HGetAll (message_key msgID) d) "user_id")
                     (field (Redis.HGetAll (message_key msgID) d) "room_id")
                     (field (Redis.HGetAll (message_key msgID) d) "content")
                     (t / Time.Second * 1000)%Z.
Proof.
  intros Hw. unfold resolve.
  assert (Hts : field (Redis.HGetAll (message_key msgID) d) "timestamp" = "" ∨
                ∃ t, (0 ≤ t < 2 ^ 63)%Z ∧
                     field (Redis.HGetAll (message_key msgID) d) "timestamp" = Time.Format t).
  { unfold Redis.HGetAll. destruct (Redis.hashes d !! message_key msgID) as [h|] eqn:Hh.
    - exact (Hw _ _ Hh).
    - by left. }
  destruct Hts as [->|(t & Ht & ->)]; [done|].
  rewrite Parse_Format by done. simpl. intros [= <-].
  exists t. split_and!; [lia|lia|done|]. f_equal.
  rewrite unix_millis_nonneg.
  - unfold Time.Second, Time.Millisecond. Z.to_euclidean_division_equations. lia.
  - unfold Time.Second. Z.to_euclidean_division_equations. lia.
Qed.

Lemma fetch_messages_written d fs ids :
  timestamps_written d →
  Forall (λ m, ∃ t, (0 ≤ t < 2 ^ 63)%Z ∧
               field (Redis.HGetAll (message_key (Id m)) d) "timestamp" = Time.Format t ∧
               m = mkMessage (Id m) (field (Redis.HGetAll (message_key (Id m)) d) "user_id")
                             (field (Redis.HGetAll (message_key (Id m)) d) "room_id")
                             (field (Redis.HGetAll (message_key (Id m)) d) "content")
                             (t / Time.Second * 1000)%Z)
         (fetch_messages d fs ids).1.
Proof.
  intros Hw. destruct (fetch_messages_spec d fs ids) as (_ & Hall & _).
  eapply Forall_impl; [exact Hall|]. intros m Hm. by apply resolve_written.
Qed.

(** X20 (JoinRoom: the loop over the message IDs).  On a store whose
    timestamps are absent or were written by SendMessage, a message
    whose hash cannot be read, or has no timestamp (a hash that is gone
    reads as the empty map), is logged and left out; JoinRoom still
    succeeds.  What it returns are the messages of the room's list, in
    the order of the list (newest first) without its gaps, each made of
    the fields stored under its ID with the timestamp cut to the whole
    second: returned messages plus logged failures are the up to 50 IDs
    it read. *)
Theorem join_history_skips_unreadable
    (req : JoinRoomRequest) (e : env) (s s' : ChatCloudServer)
    (resp : JoinRoomResponse) (evs : list event) :
  timestamps_written (rdb s) →
  JoinRoom req e s = (Ok resp, s', evs) →
  let ids := take 50 (Redis.lget (messages_key (jr_RoomId req)) (rdb s')) in
  let stored := λ msgID k, field (Redis.HGetAll (message_key msgID) (rdb s')) k in
  sublist (Id <$> jr_RecentMessages resp) ids ∧
  (∀ m, m ∈ jr_RecentMessages resp →
        ∃ t, (0 ≤ t < 2 ^ 63)%Z ∧ stored (Id m) "timestamp" = Time.Format t ∧
             m = mkMessage (Id m) (stored (Id m) "user_id") (stored (Id m) "room_id")
                           (stored (Id m) "content") (t / Time.Second * 1000)%Z) ∧
  length (jr_RecentMessages resp) + length evs = length ids.
Proof.
  intros Hw. unfold JoinRoom. repeat case_decide; try done.
  destruct (fails e 0); [done|]. destruct (fails e 1); [done|]. destruct (fails e 2); [done|].
  set (d2 := Redis.SAdd _ _ _).
  assert (Hw2 : timestamps_written d2) by exact Hw.
  pose proof (fetch_messages_spec d2 (drop 3 (env_faults e))
                (Redis.LRange (messages_key (jr_RoomId req)) 0 49 d2)) as Hspec.
  pose proof (fetch_messages_written d2 (drop 3 (env_faults e))
                (Redis.LRange (messages_key (jr_RoomId req)) 0 49 d2) Hw2) as Hwr.
  destruct (fetch_messages d2 _ _) as [ms ev]. intros [= <- <- <-].
  simpl in *. destruct Hspec as (Hsub & _ & Hlen).
  unfold Redis.LRange, Redis.slice in *. rewrite drop_0 in *.
  split_and!; [done| |done].
  intros m Hm. by eapply Forall_forall in Hwr.
Qed.

Lemma join_history_skips_unreadable_witness :
  ∃ resp s' evs,
    JoinRoom (mkJoinRoomRequest "bob" "weather")
             (mkEnv t0 "" [false; false; false; true]) (srv two_messages)
      = (Ok resp, s', evs) ∧
    jr_RecentMessages resp = [mkMessage "m0" "alice" "weather" "first" 1762093845000] ∧
    length (jr_RecentMessages resp) + length evs = 2.
Proof.
  assert (Hw : timestamps_written (rdb (srv two_messages))).
  { unfold timestamps_written. apply map_Forall_to_list.
    set (l := map_to_list _).
    let x := eval vm_compute in l in assert (Hl : l = x) by (vm_compute; reflexivity).
    rewrite Hl.
    repeat (apply Forall_cons; split); [| |apply Forall_nil_2];
      right;
      first [ exists t0;
              split; [vm_compute; split; [discriminate|reflexivity] | vm_compute; reflexivity]
            | exists (t0 + Time.Second)%Z;
              split; [vm_compute; split; [discriminate|reflexivity] | vm_compute; reflexivity] ]. }
  assert (Hjoin : JoinRoom (mkJoinRoomRequest "bob" "weather")
                    (mkEnv t0 "" [false; false; false; true]) (srv two_messages)
                  = (Ok (mkJoinRoomResponse true
                           [mkMessage "m0" "alice" "weather" "first" 1762093845000]),
                     (JoinRoom (mkJoinRoomRequest "bob" "weather")
                        (mkEnv t0 "" [false; false; false; true]) (srv two_messages)).1.2,
                     (JoinRoom (mkJoinRoomRequest "bob" "weather")
                        (mkEnv t0 "" [false; false; false; true]) (srv two_messages)).2)).
  { apply result_eta. vm_compute. reflexivity. }
  destruct (join_history_skips_unreadable _ _ _ _ _ _ Hw Hjoin) as (_ & _ & Hlen).
  eexists _, _, _. split; [exact Hjoin|]. split; [reflexivity|].
  rewrite Hlen. vm_compute. reflexivity.
Defined.

(** ** Streams that have ended *)

Lemma session_step_closed a ss s c :
  closedness (heap s) c = Some true →
  closedness (heap (session_step a ss s).1.2) c = Some true.
Proof.
  intros Hc.
  assert (Hdec : local a ∨ ¬ local a) by (destruct a; simpl; tauto).
  destruct Hdec as [Hloc|Hloc].
  - destruct (session_step_local a ss s Hloc) as ((_ & Hs) & _). by rewrite Hs.
  - destruct a; simpl in Hloc; try tauto; unfold session_step;
      destruct (ss_phase ss); simpl; try done.
    unfold cleanup_close. destruct (closed ss); [done|].
    destruct (heap s !! msgChan ss ≫= close) as [ch'|] eqn:E; simpl; [|done].
    rewrite closedness_insert. case_decide; [|done].
    destruct (heap s !! msgChan ss) as [ch|]; simpl in E; [|done].
    apply close_Some in E as [_ ->]. done.
Qed.

Lemma step_closed o w c :
  inv w → closedness (heap (srv w)) c = Some true →
  closedness (heap (srv (step o w))) c = Some true.
Proof.
  intros Hinv Hc. unfold step. rewrite (inv_alive _ Hinv).
  destruct o as [req e|req e|req e|k|req e|req e|i a].
  - destruct (JoinRoom_shape req e (srv w)) as ((_ & Hs) & _).
    destruct (JoinRoom req e (srv w)) as [[o s] evs]. simpl in *. by rewrite Hs.
  - destruct (SendMessage_shape req e (srv w) (inv_live _ Hinv)) as ((_ & Hs) & _).
    destruct (SendMessage req e (srv w)) as [[o s] evs]. simpl in *. by rewrite Hs.
  - destruct (SendMessage_publish_srv req e (srv w)) as (Hh & _).
    destruct (SendMessage_publish req e (srv w)) as [[[] s] evs]; simpl in *;
      unfold closedness; by rewrite Hh.
  - destruct (inflight w !! k) as [msg|]; [|done].
    destruct (SendMessage_broadcast_shape msg (srv w) (inv_live _ Hinv)) as ((_ & Hs) & _).
    destruct (SendMessage_broadcast msg (srv w)) as [[o s] evs]. simpl in *. by rewrite Hs.
  - destruct (LeaveRoom_summary req e (srv w) (inv_live _ Hinv)) as (_ & oc & _ & Hs & _).
    destruct (LeaveRoom req e (srv w)) as [[o s] evs]. simpl in *. rewrite Hs.
    by case_decide.
  - destruct (StreamMessages_open req e (srv w)) as [[[ss|cd m|r] s] evs] eqn:E.
    + destruct (StreamMessages_open_ok _ _ _ _ _ _ E) as (_ & _ & Hheap & _).
      destruct (register_summary (st_RoomId req) (st_UserId req) (srv w) (inv_live _ Hinv))
        as (Hfresh & Hcl & _).
      simpl. rewrite Hheap, Hcl.
      destruct (decide (fresh (dom (heap (srv w))) = c)) as [<-|Hne]; [congruence|].
      by case_decide.
    + simpl. revert E. unfold StreamMessages_open.
      repeat case_decide; try (by intros; simplify_eq).
      destruct (fails e 0); [by intros; simplify_eq|].
      destruct (negb _); [by intros; simplify_eq|].
      destruct (register _ _ _) as [[c0 s1] ev1]. by destruct (Redis.Subscribe _ _).
    + simpl. revert E. unfold StreamMessages_open. repeat case_decide; try done.
      destruct (fails e 0); [done|]. destruct (negb _); [done|].
      destruct (register _ _ _) as [[c0 s1] ev1]. by destruct (Redis.Subscribe _ _).
  - destruct (sessions w !! i) as [ss|] eqn:Hi; [|done].
    pose proof (session_step_closed a ss (srv w) c Hc) as H.
    by destruct (session_step a ss (srv w)) as [[ss' s] evs].
Qed.

(** One step of a session keeps [ended_ok] for that session. *)
Lemma session_step_ended a ss s :
  is_Some (closedness (heap s) (msgChan ss)) → ended_ok s ss →
  ended_ok (session_step a ss s).1.2 (session_step a ss s).1.1 ∧
  msgChan (session_step a ss s).1.1 = msgChan ss.
Proof.
  intros Hsome Hok.
  assert (Hkeep : ∀ ss' s', ss_phase ss ≠ Finished → ss_phase ss' ≠ Finished →
                            closed ss' = closed ss → ended_ok s' ss').
  { intros ss' s' Hph Hph' Hcl. split; [|done]. intros _. rewrite Hcl. by apply Hok. }
  assert (Hsend : ∀ m ok ss0 s0, ss_phase ss ≠ Finished →
            closed ss0 = closed ss → msgChan ss0 = msgChan ss →
            ended_ok (stream_send m ok ss0 s0).2 (stream_send m ok ss0 s0).1 ∧
            msgChan (stream_send m ok ss0 s0).1 = msgChan ss).
  { intros m ok ss0 s0 Hph Hc0 Hm0. unfold stream_send. destruct ok; simpl; (split; [|done]);
      by apply Hkeep. }
  assert (Hleave : ∀ r s0, ss_phase ss ≠ Finished →
            ended_ok (leave r ss s0).2 (leave r ss s0).1 ∧
            msgChan (leave r ss s0).1 = msgChan ss).
  { intros r s0 Hph. split; [|done]. by apply Hkeep. }
  assert (Hlisten : ∀ f, closed (listen f ss s).1.1 = closed ss ∧
                         msgChan (listen f ss s).1.1 = msgChan ss ∧
                         ss_phase (listen f ss s).1.1 = ss_phase ss).
  { intros f. unfold listen. repeat case_match; done. }
  destruct a; unfold session_step; destruct (ss_phase ss) eqn:Hph; simpl;
    try done; try (apply Hsend; congruence); try (apply Hleave; congruence).
  - destruct (redisErr ss); [apply Hleave; congruence|done].
  - destruct (heap s !! msgChan ss) as [ch|]; simpl; [|done].
    destruct (try_recv ch); simpl; [apply Hsend|apply Hleave|done]; congruence.
  - destruct (tick_due ss now); [|done]. apply Hsend; done.
  - destruct (redisErr ss || negb (listening ss)); [done|].
    destruct (Hlisten (fault || redisCtx_done ss now)) as (H1 & H2 & H3).
    split; [|done]. apply Hkeep; congruence.
  - destruct (redisErr ss || negb (listening ss)); [done|].
    destruct (Hlisten (fault || redisCtx_done ss now)) as (H1 & H2 & H3).
    split; [|done]. apply Hkeep; congruence.
  - destruct (listening ss && redisCtx_done ss now); [|done].
    split; [|done]. apply Hkeep; simpl; congruence.
  - destruct (listening ss && redisCtx_done ss now); [|done].
    split; [|done]. apply Hkeep; simpl; congruence.
  - split; [|done]. apply Hkeep; simpl; congruence.
  - unfold cleanup_close. destruct Hok as [Hfl _]. rewrite Hfl by congruence.
    destruct Hsome as [b Hb]. unfold closedness in Hb.
    destruct (heap s !! msgChan ss) as [ch|] eqn:Hch; simpl in *; [|done].
    destruct (close ch) as [ch'|] eqn:Hcl; simpl.
    + split; [|done]. split; [done|]. intros _. simpl.
      rewrite closedness_insert, decide_True by done. by apply close_Some in Hcl as [_ ->].
    + split; [|done]. split; [done|]. intros _. simpl.
      unfold closedness. rewrite Hch. simpl. by rewrite (close_None _ Hcl).
Qed.

Lemma ended_ok_run d ops : Forall (ended_ok (srv (run ops (start d)))) (sessions (run ops (start d))).
Proof.
  unfold run. induction ops as [|o ops IH] using rev_ind; [constructor|].
  rewrite foldl_app. simpl. fold (run ops (start d)) in *.
  pose proof (inv_run ops _ (inv_start d)) as Hinv.
  set (w := run ops (start d)) in *.
  assert (Hmono : ∀ ss, ended_ok (srv w) ss → ended_ok (srv (step o w)) ss).
  { intros ss [H1 H2]. split; [done|]. intros Hf. by apply step_closed; auto. }
  pose proof (Forall_impl _ _ _ IH Hmono) as IH'.
  unfold step in *. rewrite (inv_alive _ Hinv) in *.
  destruct o as [req e|req e|req e|k|req e|req e|i a].
  - by destruct (JoinRoom req e (srv w)) as [[o s] evs].
  - by destruct (SendMessage req e (srv w)) as [[o s] evs].
  - by destruct (SendMessage_publish req e (srv w)) as [[[] s] evs].
  - destruct (inflight w !! k) as [msg|]; [|done].
    by destruct (SendMessage_broadcast msg (srv w)) as [[o s] evs].
  - by destruct (LeaveRoom req e (srv w)) as [[o s] evs].
  - destruct (StreamMessages_open req e (srv w)) as [[[ss|cd m|r] s] evs] eqn:E; try done.
    simpl in *. apply Forall_app. split; [done|]. constructor; [|constructor].
    destruct (StreamMessages_open_ok _ _ _ _ _ _ E) as (_ & _ & _ & _ & _ & Hph & _).
    assert (Hcl : closed ss = false).
    { revert E. unfold StreamMessages_open. repeat case_decide; try done.
      destruct (fails e 0); [done|]. destruct (negb _); [done|].
      destruct (register _ _ _) as [[c0 s1] ev1]. destruct (Redis.Subscribe _ _).
      by intros [= <- _ _]. }
    split; [done|]. by rewrite Hph.
  - destruct (sessions w !! i) as [ss|] eqn:Hi; [|done].
    pose proof (Forall_lookup_1 _ _ _ _ IH Hi) as Hok.
    pose proof (Forall_lookup_1 _ _ _ _ (inv_sess _ Hinv) Hi) as [Hsome _].
    destruct (session_step_ended a ss (srv w) Hsome Hok) as [Hnew _].
    destruct (session_step a ss (srv w)) as [[ss' s] evs]. simpl in *.
    by apply Forall_insert.
Qed.

(** X21 (the deferred cleanup of StreamMessages, against every other
    handler).  In every reachable state a stream whose cleanup has run has
    left nothing behind: its channel is closed, whoever closed it, and no
    registry entry points to it, so nothing is ever sent on it again. *)
Theorem ended_stream_leaves_nothing
    (d : Redis.db) (ops : list op) (i : nat) (ss : session) :
  sessions (run ops (start d)) !! i = Some ss → ss_phase ss = Finished →
  closedness (heap (srv (run ops (start d)))) (msgChan ss) = Some true ∧
  ∀ r u, reg_lookup (roomStreams (srv (run ops (start d)))) r u ≠ Some (msgChan ss).
Proof.
  intros Hi Hph.
  pose proof (Forall_lookup_1 _ _ _ _ (ended_ok_run d ops) Hi) as [_ Hcl].
  pose proof (Forall_lookup_1 _ _ _ _ (inv_sess _ (inv_run ops _ (inv_start d))) Hi)
    as [_ Hreg].
  split; [by apply Hcl|].
  intros r u Hru. destruct (Hreg r u Hru) as (_ & _ & Hrun).
  rewrite Hph in Hrun. unfold running in Hrun. set_solver.
Qed.

Lemma ended_stream_leaves_nothing_witness :
  closedness (heap (srv (run (alice_listening ++
                [stream "alice" "weather"; OpSession 0 (Receive true);
                 OpSession 0 CleanupUnregister; OpSession 0 CleanupClose])
                (start Redis.empty)))) 0 = Some true ∧
  ∀ r u, reg_lookup (roomStreams (srv (run (alice_listening ++
                [stream "alice" "weather"; OpSession 0 (Receive true);
                 OpSession 0 CleanupUnregister; OpSession 0 CleanupClose])
                (start Redis.empty)))) r u ≠ Some 0.
Proof.
  assert (Hi : sessions (run (alice_listening ++
                  [stream "alice" "weather"; OpSession 0 (Receive true);
                   OpSession 0 CleanupUnregister; OpSession 0 CleanupClose])
                  (start Redis.empty)) !! 0
               = Some (mkSession (mkStreamMessagesRequest "alice" "weather") 0 true 0 false
                         Finished [mkMessage "keep-alive" "alice" "weather" "" 1762093845123]
                         (Some (Ok ())) t0 t0 true))
    by (vm_compute; reflexivity).
  exact (ended_stream_leaves_nothing Redis.empty _ 0 _ Hi eq_refl).
Defined.

(** ** The safe close at registration *)

(** X22 (StreamMessages: the "safe close" of an existing channel).  In
    every reachable state the channel StreamMessages finds registered for
    the user is open, so its close goes through: the log of a successful
    StreamMessages entry is "found existing", one close, "registered", or
    just "registered", and neither recover branch of the safe close ever
    runs. *)
Theorem registration_close_never_recovers
    (d : Redis.db) (ops : list op) (req : StreamMessagesRequest) (e : env)
    (ss : session) (s' : ChatCloudServer) (evs : list event) :
  StreamMessages_open req e (srv (run ops (start d))) = (Ok ss, s', evs) →
  evs = (match reg_lookup (roomStreams (srv (run ops (start d))))
                 (st_RoomId req) (st_UserId req) with
         | Some old => [LogFoundExisting (st_UserId req) (st_RoomId req); EvClose old;
                        LogRegistered (st_UserId req) (st_RoomId req)]
         | None => [LogRegistered (st_UserId req) (st_RoomId req)]
         end) ∧
  failed_closes evs = [] ∧
  (LogRecoveredClosingExisting ∉ evs) ∧ (LogChannelWasAlreadyClosed ∉ evs).
Proof.
  intros Hopen.
  pose proof (inv_run ops _ (inv_start d)) as Hinv.
  set (w := run ops (start d)) in *.
  destruct (StreamMessages_open_ok _ _ _ _ _ _ Hopen) as (_ & _ & _ & Hevs & _).
  destruct (register_spec (st_RoomId req) (st_UserId req) (srv w))
    as (_ & Hfresh & _ & _ & _ & _ & Hev).
  rewrite <- Hevs in Hev. clear Hevs.
  destruct (reg_lookup (roomStreams (srv w)) (st_RoomId req) (st_UserId req))
    as [old|] eqn:Hreg.
  - pose proof (inv_live _ Hinv _ _ _ Hreg) as Hlive. unfold closedness in Hlive.
    destruct (heap (srv w) !! old) as [ch|] eqn:Hch; [|done]. injection Hlive as Hlive.
    assert (Hne : fresh (dom (heap (srv w))) ≠ old) by (intros <-; congruence).
    rewrite (retire_open old _ ch) in Hev; [|by rewrite lookup_insert_ne|done].
    simpl in Hev. subst evs. split_and!; [done|done| |]; set_solver.
  - subst evs. split_and!; [done|done| |]; set_solver.
Qed.

Lemma registration_close_never_recovers_witness :
  ∃ ss s',
    StreamMessages_open (mkStreamMessagesRequest "bob" "weather") quiet_env
                        (srv (run bob_listening (start Redis.empty)))
    = (Ok ss, s', [LogFoundExisting "bob" "weather"; EvClose 0; LogRegistered "bob" "weather"]).
Proof.
  assert (Hopen : StreamMessages_open (mkStreamMessagesRequest "bob" "weather") quiet_env
                    (srv (run bob_listening (start Redis.empty)))
                  = (Ok (mkSession (mkStreamMessagesRequest "bob" "weather") 1 false 1 false
                                   Registered [] None t0 t0 true),
                     (StreamMessages_open (mkStreamMessagesRequest "bob" "weather") quiet_env
                        (srv (run bob_listening (start Redis.empty)))).1.2,
                     (StreamMessages_open (mkStreamMessagesRequest "bob" "weather") quiet_env
                        (srv (run bob_listening (start Redis.empty)))).2)).
  { apply result_eta. vm_compute. reflexivity. }
  assert (Hreg : reg_lookup (roomStreams (srv (run bob_listening (start Redis.empty))))
                   "weather" "bob" = Some 0) by (vm_compute; reflexivity).
  destruct (registration_close_never_recovers Redis.empty bob_listening _ _ _ _ _ Hopen)
    as (Hevs & _).
  cbn [st_RoomId st_UserId] in Hevs. rewrite Hreg in Hevs.
  eexists _, _. rewrite <- Hevs. exact Hopen.
Defined.

(** ** Isolation: other rooms, other users *)

Lemma room_channel_inj r r' : room_channel r = room_channel r' → r = r'.
Proof. unfold room_channel. intros H. cbv [String.append] in H. by simplify_eq. Qed.

Lemma deliver_other channel payload p :
  Redis.ps_channel p ≠ channel → Redis.deliver channel payload p = p.
Proof. intros Hne. unfold Redis.deliver. by rewrite bool_decide_eq_false_2. Qed.

(** What SendMessage can do to a subscription: nothing, or hand it the
    message ID. *)
Lemma SendMessage_subs req e s :
  Redis.subs (rdb (SendMessage req e s).1.2) = Redis.subs (rdb s) ∨
  Redis.subs (rdb (SendMessage req e s).1.2) =
    Redis.deliver (room_channel (sm_RoomId req)) (env_uuid e) <$> Redis.subs (rdb s).
Proof.
  rewrite SendMessage_unfold; cbv zeta. repeat case_decide; try by left.
  destruct (fails e 0); [by left|]. destruct (negb _); [by left|].
  destruct (fails e 1); [by left|]. destruct (fails e 2); [by left|].
  destruct (fails e 3); destruct (fails e 4);
    match goal with |- context [broadcastMessage ?m ?s0] =>
      pose proof (broadcastMessage_rdb m s0) as Hb;
      destruct (broadcastMessage m s0) as [[o s1] evb] end;
    simpl in *; rewrite Hb; simpl; by (left + right).
Qed.

(** What SendMessage does to the channels: those of the room's
    subscribers get the message, the others are left alone. *)
Lemma SendMessage_heap_other req e s c :
  registry_live s → registry_inj s →
  (∀ user, reg_lookup (roomStreams s) (sm_RoomId req) user ≠ Some c) →
  heap (SendMessage req e s).1.2 !! c = heap s !! c.
Proof.
  intros Hlive Hinj Hc. rewrite SendMessage_unfold; cbv zeta. repeat case_decide; try done.
  destruct (fails e 0); [done|]. destruct (negb _); [done|].
  destruct (fails e 1); [done|]. destruct (fails e 2); [done|].
  destruct (fails e 3); destruct (fails e 4);
    match goal with |- context [broadcastMessage ?m ?s0] =>
      destruct (broadcastMessage_each m s0) as (h' & -> & _ & Hother); [exact Hlive|exact Hinj|]
    end; simpl; by apply Hother.
Qed.

(** X23 (SendMessage, broadcastMessage, PUBLISH).  Rooms are isolated.
    In every reachable state, whatever a SendMessage to room R does, it
    leaves alone the channel of every stream registered in another room
    and every Redis subscription to another room's channel: a message is
    never delivered outside its room. *)
Theorem rooms_are_isolated
    (d : Redis.db) (ops : list op) (req : SendMessageRequest) (e : env)
    (room user : string) (c i : nat) (p : Redis.PubSub) :
  let w := run ops (start d) in
  room ≠ sm_RoomId req →
  reg_lookup (roomStreams (srv w)) room user = Some c →
  Redis.subs (rdb (srv w)) !! i = Some p → Redis.ps_channel p = room_channel room →
  heap (SendMessage req e (srv w)).1.2 !! c = heap (srv w) !! c ∧
  Redis.subs (rdb (SendMessage req e (srv w)).1.2) !! i = Some p.
Proof.
  intros w Hne Hreg Hsub Hchan.
  pose proof (inv_run ops _ (inv_start d)) as Hinv. fold w in Hinv.
  split.
  - apply SendMessage_heap_other; [apply Hinv|apply Hinv|].
    intros u Hu. destruct (inv_inj _ Hinv _ _ _ _ _ Hreg Hu) as [Hr _]. done.
  - destruct (SendMessage_subs req e (srv w)) as [->| ->]; [done|].
    rewrite list_lookup_fmap, Hsub. simpl. f_equal. apply deliver_other.
    rewrite Hchan. intros Heq. by apply room_channel_inj in Heq.
Qed.

Lemma rooms_are_isolated_witness :
  heap (SendMessage (mkSendMessageRequest "alice" "sports" "goal") quiet_env
          (srv (run (join "alice" "sports" :: bob_listening) (start Redis.empty)))).1.2 !! 0
    = Some (make 200) ∧
  Redis.subs (rdb (SendMessage (mkSendMessageRequest "alice" "sports" "goal") quiet_env
          (srv (run (join "alice" "sports" :: bob_listening) (start Redis.empty)))).1.2) !! 0
    = Some (Redis.mkPubSub (room_channel "weather") [] false).
Proof.
  assert (Hne : "weather" ≠ "sports") by discriminate.
  assert (Hreg : reg_lookup (roomStreams (srv (run (join "alice" "sports" :: bob_listening)
                                                   (start Redis.empty))))
                   "weather" "bob" = Some 0) by (vm_compute; reflexivity).
  assert (Hch : heap (srv (run (join "alice" "sports" :: bob_listening)
                               (start Redis.empty))) !! 0 = Some (make 200))
    by (vm_compute; reflexivity).
  assert (Hsub : Redis.subs (rdb (srv (run (join "alice" "sports" :: bob_listening)
                                           (start Redis.empty)))) !! 0
                 = Some (Redis.mkPubSub (room_channel "weather") [] false))
    by (vm_compute; reflexivity).
  destruct (rooms_are_isolated Redis.empty (join "alice" "sports" :: bob_listening)
              (mkSendMessageRequest "alice" "sports" "goal") quiet_env
              "weather" "bob" 0 0 _ Hne Hreg Hsub eq_refl) as (Hheap & Hsubs).
  split; [by rewrite Hheap, Hch | exact Hsubs].
Defined.

(** X24 (LeaveRoom, StreamMessages: the registry and the channels of
    other users).  In every reachable state a LeaveRoom or a
    StreamMessages of user U for room R touches no other stream: for
    every other (room, user) pair the registered channel is the same
    before and after, with the same buffer, still open. *)
Theorem other_streams_untouched
    (d : Redis.db) (ops : list op) (lreq : LeaveRoomRequest) (sreq : StreamMessagesRequest)
    (e : env) (room user : string) (c : nat) :
  let w := run ops (start d) in
  reg_lookup (roomStreams (srv w)) room user = Some c →
  ((room, user) ≠ (lr_RoomId lreq, lr_UserId lreq) →
   reg_lookup (roomStreams (LeaveRoom lreq e (srv w)).1.2) room user = Some c ∧
   heap (LeaveRoom lreq e (srv w)).1.2 !! c = heap (srv w) !! c) ∧
  ((room, user) ≠ (st_RoomId sreq, st_UserId sreq) →
   reg_lookup (roomStreams (StreamMessages_open sreq e (srv w)).1.2) room user = Some c ∧
   heap (StreamMessages_open sreq e (srv w)).1.2 !! c = heap (srv w) !! c).
Proof.
  intros w Hreg.
  pose proof (inv_run ops _ (inv_start d)) as Hinv. fold w in Hinv.
  pose proof (inv_live _ Hinv _ _ _ Hreg) as Hlive.
  split; intros Hne.
  - assert (Hk : ¬ (lr_RoomId lreq = room ∧ lr_UserId lreq = user)) by (intros [<- <-]; done).
    unfold LeaveRoom. repeat case_decide; try done.
    destruct (fails e 0); [done|]. destruct (fails e 1); [done|].
    destruct (roomStreams (srv w) !! lr_RoomId lreq ≫= _) as [c0|] eqn:Hc0.
    + assert (Hcc : c0 ≠ c).
      { intros ->. destruct (inv_inj _ Hinv _ _ _ _ _ Hreg Hc0) as [-> ->]. by apply Hk. }
      destruct (heap (srv w) !! c0 ≫= close); simpl.
      * rewrite reg_lookup_unregister, decide_False by done.
        by rewrite lookup_insert_ne.
      * done.
    + simpl. rewrite reg_lookup_unregister, decide_False by done. done.
  - assert (Hk : ¬ (st_RoomId sreq = room ∧ st_UserId sreq = user)) by (intros [<- <-]; done).
    unfold StreamMessages_open. repeat case_decide; try done.
    destruct (fails e 0); [done|]. destruct (negb _); [done|].
    destruct (register_spec (st_RoomId sreq) (st_UserId sreq) (srv w))
      as (_ & Hfresh & _ & Hlook & _ & Hheap & _).
    destruct (register (st_RoomId sreq) (st_UserId sreq) (srv w)) as [[c1 s1] ev1].
    simpl in *. split.
    + rewrite Hlook, decide_False by done. done.
    + rewrite Hheap.
      assert (Hcf : fresh (dom (heap (srv w))) ≠ c).
      { intros Heq. unfold closedness in Hlive. rewrite <- Heq, Hfresh in Hlive. done. }
      destruct (reg_lookup (roomStreams (srv w)) (st_RoomId sreq) (st_UserId sreq))
        as [old|] eqn:Hold.
      * assert (Hoc : old ≠ c).
        { intros ->. destruct (inv_inj _ Hinv _ _ _ _ _ Hreg Hold) as [-> ->]. by apply Hk. }
        pose proof (inv_live _ Hinv _ _ _ Hold) as Hol. unfold closedness in Hol.
        destruct (heap (srv w) !! old) as [ch|] eqn:Hch; [|done]. injection Hol as Hol.
        assert (Hfo : fresh (dom (heap (srv w))) ≠ old) by (intros Heq; congruence).
        rewrite (retire_open old _ ch); [|by rewrite lookup_insert_ne|done]. simpl.
        by rewrite !lookup_insert_ne.
      * by rewrite lookup_insert_ne.
Qed.

Lemma other_streams_untouched_witness :
  reg_lookup (roomStreams (LeaveRoom (mkLeaveRoomRequest "alice" "weather") quiet_env
                (srv (run bob_listening (start Redis.empty)))).1.2) "weather" "bob" = Some 0 ∧
  heap (LeaveRoom (mkLeaveRoomRequest "alice" "weather") quiet_env
          (srv (run bob_listening (start Redis.empty)))).1.2 !! 0 = Some (make 200).
Proof.
  assert (Hreg : reg_lookup (roomStreams (srv (run bob_listening (start Redis.empty))))
                   "weather" "bob" = Some 0) by (vm_compute; reflexivity).
  assert (Hch : heap (srv (run bob_listening (start Redis.empty))) !! 0 = Some (make 200))
    by (vm_compute; reflexivity).
  assert (Hne : ("weather", "bob") ≠ ("weather", "alice")) by discriminate.
  destruct (proj1 (other_streams_untouched Redis.empty bob_listening
                     (mkLeaveRoomRequest "alice" "weather")
                     (mkStreamMessagesRequest "alice" "weather") quiet_env
                     "weather" "bob" 0 Hreg) Hne) as (Hr & Hh).
  split; [exact Hr | by rewrite Hh, Hch].
Defined.

(** ** JoinRoom undone; the PUBLISH that fails *)

Lemma SRem_SAdd k m d : removed k m d → Redis.SRem k m (Redis.SAdd k m d) = d.
Proof.
  unfold removed, Redis.SRem, Redis.SAdd, Redis.smembers. simpl. intros Hrem.
  rewrite lookup_insert_eq. simpl. destruct d as [sets lists hashes subs]. simpl in *.
  f_equal. destruct (sets !! k) as [s|] eqn:Hk; simpl.
  - destruct Hrem as [Hne Hm].
    assert (Hs : ({[m]} ∪ s) ∖ {[m]} = s) by set_solver.
    rewrite Hs. rewrite decide_False by done.
    rewrite insert_insert_eq. by apply insert_id.
  - assert (Hs : ({[m]} ∪ ∅) ∖ {[m]} = (∅ : gset string)) by set_solver.
    rewrite Hs. rewrite decide_True by done.
    rewrite delete_insert_eq. by apply delete_id.
Qed.

Lemma SRem_SAdd_ne k m k' m' d :
  k ≠ k' → Redis.SRem k m (Redis.SAdd k' m' d) = Redis.SAdd k' m' (Redis.SRem k m d).
Proof.
  intros Hne. unfold Redis.SRem, Redis.SAdd, Redis.smembers. simpl.
  rewrite lookup_insert_ne by done.
  destruct (decide (default ∅ (Redis.sets d !! k) ∖ {[m]} = ∅)); simpl.
  - rewrite lookup_delete_ne by done. f_equal. by rewrite delete_insert_ne.
  - rewrite lookup_insert_ne by done. f_equal. by rewrite insert_insert_ne.
Qed.

Lemma removed_SAdd_ne k m k' m' d : k ≠ k' → removed k m d → removed k m (Redis.SAdd k' m' d).
Proof.
  intros Hne. unfold removed, Redis.SAdd. simpl. by rewrite lookup_insert_ne.
Qed.

Lemma unregister_absent rs r u :
  rooms_nonempty rs → reg_lookup rs r u = None → unregister r u rs = rs.
Proof.
  intros Hrooms Hnone. unfold unregister, reg_lookup in *.
  destruct (rs !! r) as [m|] eqn:Hr; [|done]. simpl in Hnone.
  rewrite delete_id by done. rewrite decide_False.
  - by apply insert_id.
  - intros Hz. apply map_size_empty_iff in Hz. by eapply Hrooms.
Qed.

(** X25 (JoinRoom then LeaveRoom).  LeaveRoom undoes JoinRoom.  In every
    reachable state, for a user who is not in the room and has no stream
    there, a successful JoinRoom followed by LeaveRoom brings the server
    back to the very state it was in: both store keys, the channels and
    the registry. *)
Theorem leave_undoes_join
    (d : Redis.db) (ops : list op) (user room : string) (e e' : env) :
  let w := run ops (start d) in
  user ≠ "" → room ≠ "" →
  fails e 0 = false → fails e 1 = false → fails e 2 = false →
  fails e' 0 = false → fails e' 1 = false →
  removed (users_key room) user (rdb (srv w)) →
  removed (rooms_key user) room (rdb (srv w)) →
  reg_lookup (roomStreams (srv w)) room user = None →
  ∃ ms s1 evs,
    JoinRoom (mkJoinRoomRequest user room) e (srv w)
      = (Ok (mkJoinRoomResponse true ms), s1, evs) ∧
    Redis.SIsMember (users_key room) user (rdb s1) = true ∧
    LeaveRoom (mkLeaveRoomRequest user room) e' s1
      = (Ok (mkLeaveRoomResponse true), srv w, []).
Proof.
  intros w Hu Hr H0 H1 H2 H0' H1' Hrem1 Hrem2 Hnone.
  pose proof (inv_run ops _ (inv_start d)) as Hinv. fold w in Hinv.
  pose proof (JoinRoom_ok (mkJoinRoomRequest user room) e (srv w) Hu Hr H0 H1 H2) as Hjoin.
  simpl in Hjoin. eexists _, _, _. split; [exact Hjoin|]. split.
  - apply member_after_SAdd.
  - unfold LeaveRoom. simpl. rewrite !decide_False by done. rewrite H0', H1'.
    unfold reg_lookup in Hnone. rewrite Hnone.
    rewrite (unregister_absent _ _ _ (inv_rooms _ Hinv)) by done.
    rewrite SRem_SAdd_ne by apply users_key_ne_rooms_key.
    rewrite (SRem_SAdd (users_key room)) by done. rewrite SRem_SAdd by done.
    by destruct (srv w).
Qed.

Lemma leave_undoes_join_witness :
  ∃ ms s1 evs,
    JoinRoom (mkJoinRoomRequest "carol" "weather") quiet_env
             (srv (run bob_listening (start Redis.empty)))
      = (Ok (mkJoinRoomResponse true ms), s1, evs) ∧
    Redis.SIsMember (users_key "weather") "carol" (rdb s1) = true ∧
    LeaveRoom (mkLeaveRoomRequest "carol" "weather") quiet_env s1
      = (Ok (mkLeaveRoomResponse true), srv (run bob_listening (start Redis.empty)), []).
Proof.
  assert (Hne : ∀ a b, String a b ≠ "") by discriminate.
  assert (Hrem1 : removed (users_key "weather") "carol"
                    (rdb (srv (run bob_listening (start Redis.empty))))).
  { assert (Hl : Redis.sets (rdb (srv (run bob_listening (start Redis.empty))))
                   !! users_key "weather" = Some {["alice"; "bob"]})
      by (vm_compute; reflexivity).
    unfold removed. rewrite Hl. compute_done. }
  assert (Hrem2 : removed (rooms_key "carol") "weather"
                    (rdb (srv (run bob_listening (start Redis.empty))))).
  { assert (Hl : Redis.sets (rdb (srv (run bob_listening (start Redis.empty))))
                   !! rooms_key "carol" = None)
      by (vm_compute; reflexivity).
    unfold removed. by rewrite Hl. }
  assert (Hnone : reg_lookup (roomStreams (srv (run bob_listening (start Redis.empty))))
                    "weather" "carol" = None) by (vm_compute; reflexivity).
  exact (leave_undoes_join Redis.empty bob_listening "carol" "weather" quiet_env quiet_env
           (Hne _ _) (Hne _ _) eq_refl eq_refl eq_refl eq_refl eq_refl Hrem1 Hrem2 Hnone).
Defined.


